(** * The AI-enhanced SQL command line: input pipeline and session state

    A shallow embedding of the [AICommandLine] console component: its
    rule tables, the statement accumulator, the translate / correct /
    classify-danger pipeline, the confirmation slot, the command
    dispatcher, the recall history and the table renderer, followed by
    the properties the specification states about them.

    JavaScript strings are sequences of UTF-16 code units; they are
    modelled as [list N].  The regular expressions of the rule tables
    are kept as syntax trees and run by a backtracking matcher that
    follows the ECMAScript pattern semantics (greedy and lazy
    quantifiers, capture groups, negative lookahead, [^] and [$] anchors,
    the [i] flag). *)

From Stdlib Require Import String Ascii List NArith ZArith Bool Lia.
Import ListNotations.
Open Scope N_scope.

Set Implicit Arguments.

(** ** JavaScript strings *)

Module JS.

Definition jsstring := list N.

(** UTF-8 decoding of a source literal into UTF-16 code units, so that
    the literals of the source file can be written down as they are. *)
Definition cont (b : N) : N := b mod 64.

Fixpoint utf8_decode (bs : list N) : jsstring :=
  match bs with
  | [] => []
  | b :: t =>
      if b <? 128 then b :: utf8_decode t
      else if b <? 224 then
        match t with
        | b1 :: t1 => ((b mod 32) * 64 + cont b1) :: utf8_decode t1
        | _ => []
        end
      else if b <? 240 then
        match t with
        | b1 :: b2 :: t2 =>
            ((b mod 16) * 4096 + cont b1 * 64 + cont b2) :: utf8_decode t2
        | _ => []
        end
      else
        match t with
        | b1 :: b2 :: b3 :: t3 =>
            let cp := (b mod 8) * 262144 + cont b1 * 4096 + cont b2 * 64 + cont b3 in
            let v := cp - 65536 in
            (55296 + v / 1024) :: (56320 + v mod 1024) :: utf8_decode t3
        | _ => []
        end
  end.

Fixpoint bytes_of (s : string) : list N :=
  match s with
  | EmptyString => []
  | String a s' => N_of_ascii a :: bytes_of s'
  end.

Definition js (s : string) : jsstring := utf8_decode (bytes_of s).

(** The double quote, which a literal cannot hold. *)
Definition dq : jsstring := [34].

Fixpoint eqb (a b : jsstring) : bool :=
  match a, b with
  | [], [] => true
  | x :: a', y :: b' => (x =? y) && eqb a' b'
  | _, _ => false
  end.

(** [WhiteSpace] and [LineTerminator] code units: what [trim] strips and
    what [\s] matches. *)
Definition isSpace (c : N) : bool :=
  ((9 <=? c) && (c <=? 13)) || (c =? 32) || (c =? 160) || (c =? 5760)
  || ((8192 <=? c) && (c <=? 8202)) || (c =? 8232) || (c =? 8233)
  || (c =? 8239) || (c =? 8287) || (c =? 12288) || (c =? 65279).

Definition isLineTerminator (c : N) : bool :=
  (c =? 10) || (c =? 13) || (c =? 8232) || (c =? 8233).

(** [\w]: the ASCII letters, digits and the underscore. *)
Definition isWord (c : N) : bool :=
  ((97 <=? c) && (c <=? 122)) || ((65 <=? c) && (c <=? 90))
  || ((48 <=? c) && (c <=? 57)) || (c =? 95).

(** *** Case mapping

    The mappings below are Unicode's for Basic Latin, Latin-1 Supplement
    and the Vietnamese letters of Latin Extended-A/B and Latin Extended
    Additional, which is every letter the rule tables contain, together
    with every code unit whose upper- or lower-case form contains an
    ASCII letter.  Any other code unit is left as it is. *)

Definition isOdd (c : N) : bool := N.odd c.

(** Simple one-unit upper-case mapping. *)
Definition upperUnit (c : N) : N :=
  if (97 <=? c) && (c <=? 122) then c - 32
  else if c =? 181 then 924
  else if (224 <=? c) && (c <=? 254) && negb (c =? 247) then c - 32
  else if c =? 255 then 376
  else if (c =? 259) || (c =? 273) || (c =? 297) || (c =? 361) || (c =? 417) then c - 1
  else if c =? 432 then 431
  else if (7681 <=? c) && (c <=? 7829) && isOdd c then c - 1
  else if (7841 <=? c) && (c <=? 7935) && isOdd c then c - 1
  else c.

(** Simple one-unit lower-case mapping. *)
Definition lowerUnit (c : N) : N :=
  if (65 <=? c) && (c <=? 90) then c + 32
  else if (192 <=? c) && (c <=? 222) && negb (c =? 215) then c + 32
  else if c =? 376 then 255
  else if (c =? 258) || (c =? 272) || (c =? 296) || (c =? 360) || (c =? 416) then c + 1
  else if c =? 431 then 432
  else if (7680 <=? c) && (c <=? 7828) && negb (isOdd c) then c + 1
  else if (7840 <=? c) && (c <=? 7934) && negb (isOdd c) then c + 1
  else if c =? 7838 then 223
  else if c =? 8490 then 107
  else if c =? 8491 then 229
  else c.

(** [String.prototype.toLowerCase]: one unit at a time; U+0130 is the
    one unit that lengthens. *)
Definition lowerFull (c : N) : jsstring :=
  if c =? 304 then [105; 775] else [lowerUnit c].

Definition toLowerCase (s : jsstring) : jsstring := flat_map lowerFull s.

(** [String.prototype.toUpperCase]: the units whose upper-case form is
    longer than one unit or falls into ASCII are listed one by one. *)
Definition upperFull (c : N) : jsstring :=
  if c =? 223 then [83; 83]
  else if c =? 305 then [73]
  else if c =? 383 then [83]
  else if c =? 329 then [700; 78]
  else if c =? 496 then [74; 780]
  else if c =? 7830 then [72; 817]
  else if c =? 7831 then [84; 776]
  else if c =? 7832 then [87; 778]
  else if c =? 7833 then [89; 778]
  else if c =? 7834 then [65; 702]
  else if c =? 64256 then [70; 70]
  else if c =? 64257 then [70; 73]
  else if c =? 64258 then [70; 76]
  else if c =? 64259 then [70; 70; 73]
  else if c =? 64260 then [70; 70; 76]
  else if (c =? 64261) || (c =? 64262) then [83; 84]
  else [upperUnit c].

Definition toUpperCase (s : jsstring) : jsstring := flat_map upperFull s.

(** *** String methods *)

Fixpoint trimStart (s : jsstring) : jsstring :=
  match s with
  | c :: s' => if isSpace c then trimStart s' else s
  | [] => []
  end.

Definition trimEnd (s : jsstring) : jsstring := rev (trimStart (rev s)).

Definition trim (s : jsstring) : jsstring := trimEnd (trimStart s).

Fixpoint startsWith (s p : jsstring) : bool :=
  match p, s with
  | [], _ => true
  | x :: p', y :: s' => (x =? y) && startsWith s' p'
  | _ :: _, [] => false
  end.

Definition endsWith (s p : jsstring) : bool := startsWith (rev s) (rev p).

(** [indexOf]: position of the first occurrence, if there is one. *)
Fixpoint indexOf (s p : jsstring) : option nat :=
  if startsWith s p then Some 0%nat
  else match s with
       | [] => None
       | _ :: s' => option_map S (indexOf s' p)
       end.

Definition includes (s p : jsstring) : bool :=
  match indexOf s p with Some _ => true | None => false end.

Fixpoint join (sep : jsstring) (l : list jsstring) : jsstring :=
  match l with
  | [] => []
  | [x] => x
  | x :: l' => x ++ sep ++ join sep l'
  end.

Definition repeat (s : jsstring) (n : nat) : jsstring :=
  List.concat (List.repeat s n).

(** [padEnd] with the default filler, a space.  The target length is a
    JavaScript number: [None] stands for [undefined], which pads
    nothing. *)
Definition padEnd (s : jsstring) (w : option Z) : jsstring :=
  match w with
  | Some n => s ++ List.repeat 32 (Z.to_nat n - List.length s)
  | None => s
  end.

(** Decimal rendering of an integer, as [String(n)] and template
    literals give it. *)
Fixpoint digits (d : Decimal.uint) : jsstring :=
  match d with
  | Decimal.Nil => []
  | Decimal.D0 d' => 48 :: digits d'
  | Decimal.D1 d' => 49 :: digits d'
  | Decimal.D2 d' => 50 :: digits d'
  | Decimal.D3 d' => 51 :: digits d'
  | Decimal.D4 d' => 52 :: digits d'
  | Decimal.D5 d' => 53 :: digits d'
  | Decimal.D6 d' => 54 :: digits d'
  | Decimal.D7 d' => 55 :: digits d'
  | Decimal.D8 d' => 56 :: digits d'
  | Decimal.D9 d' => 57 :: digits d'
  end.

Definition ofZ (z : Z) : jsstring :=
  match z with
  | Z0 => [48]
  | Zpos p => digits (Pos.to_uint p)
  | Zneg p => 45 :: digits (Pos.to_uint p)
  end.

(** The [length] property, as a number. *)
Definition len (s : jsstring) : Z := Z.of_nat (List.length s).

(** Truthiness of a string: the empty string is falsy. *)
Definition truthy (s : jsstring) : bool :=
  match s with [] => false | _ => true end.

End JS.

Import JS.

(** ** Regular expressions *)

Module Regex.

(** The pattern syntax the source uses. *)
Inductive regex : Type :=
| Eps
| Chr (c : N)                          (* a literal character *)
| Dot                                  (* [.] *)
| Space                                (* [\s] *)
| Word                                 (* [\w] *)
| NoneOf (cs : list N)                 (* [[^...]] *)
| Cat (r1 r2 : regex)
| Alt (r1 r2 : regex)
| Rep (min : nat) (max : option nat) (greedy : bool) (r : regex)
| Group (n : nat) (r : regex)          (* capture group number [n], from 1 *)
| Bol                                  (* [^] *)
| Eol                                  (* [$] *)
| NotAhead (r : regex).                (* [(?!...)] *)

Definition Star := Rep 0 None true.
Definition Plus := Rep 1 None true.
Definition Opt := Rep 0 (Some 1%nat) true.
Definition PlusLazy := Rep 1 None false.

Fixpoint seq (rs : list regex) : regex :=
  match rs with
  | [] => Eps
  | [r] => r
  | r :: rs' => Cat r (seq rs')
  end.

Definition word (s : jsstring) : regex := seq (map Chr s).
Definition lit (s : string) : regex := word (js s).

(** A regular expression object: pattern, flags, number of groups. *)
Record RegExp : Type := mkRegExp {
  pattern : regex;
  ignoreCase : bool;
  global : bool;
  ngroups : nat
}.

(** The matcher's state: where the match has got to ([endIndex]), the
    input from there on, and the groups captured so far. *)
Record MatchState : Type := mkMatchState {
  endIndex : nat;
  rest : jsstring;
  captures : list (option jsstring)
}.

Definition MatcherContinuation := MatchState -> option MatchState.

(** [Canonicalize] without the [u] flag: upper-case the unit unless that
    would turn a non-ASCII unit into an ASCII one. *)
Definition canonicalize (ic : bool) (ch : N) : N :=
  if ic then
    let cu := upperUnit ch in
    if (128 <=? ch) && (cu <? 128) then ch else cu
  else ch.

Definition charMatcher (p : N -> bool) (x : MatchState) (k : MatcherContinuation)
  : option MatchState :=
  match rest x with
  | ch :: s' =>
      if p ch then k (mkMatchState (S (endIndex x)) s' (captures x)) else None
  | [] => None
  end.

Fixpoint setNth (A : Type) (n : nat) (v : A) (l : list A) : list A :=
  match l, n with
  | [], _ => []
  | _ :: l', O => v :: l'
  | a :: l', S n' => a :: setNth n' v l'
  end.

(** Group [n] lives at position [n - 1] of [captures]. *)
Definition setCapture (n : nat) (v : option jsstring) (x : MatchState) : MatchState :=
  mkMatchState (endIndex x) (rest x) (setNth (pred n) v (captures x)).

Fixpoint groupsOf (r : regex) : list nat :=
  match r with
  | Cat r1 r2 | Alt r1 r2 => groupsOf r1 ++ groupsOf r2
  | Rep _ _ _ r1 | NotAhead r1 => groupsOf r1
  | Group n r1 => n :: groupsOf r1
  | _ => []
  end.

Definition clearCaptures (gs : list nat) (x : MatchState) : MatchState :=
  fold_right (fun n y => setCapture n None y) x gs.

Definition orElse (a : option MatchState) (b : unit -> option MatchState)
  : option MatchState :=
  match a with Some y => Some y | None => b tt end.

(** [RepeatMatcher].  [fuel] bounds the number of iterations by [min]
    plus the number of units left: once [min] is used up an iteration
    that consumes nothing is rejected, so no run is longer. *)
Fixpoint repeatMatcher (mr : MatchState -> MatcherContinuation -> option MatchState)
    (gs : list nat) (min : nat) (max : option nat) (greedy : bool)
    (c : MatcherContinuation) (fuel : nat) (x : MatchState) : option MatchState :=
  match max with
  | Some O => c x
  | _ =>
      match fuel with
      | O => c x
      | S fuel' =>
          let d := fun y =>
            if Nat.eqb min 0 && Nat.eqb (endIndex y) (endIndex x) then None
            else repeatMatcher mr gs (pred min) (option_map pred max) greedy c fuel' y in
          let xr := clearCaptures gs x in
          if negb (Nat.eqb min 0) then mr xr d
          else if greedy then orElse (mr xr d) (fun _ => c x)
          else orElse (c x) (fun _ => mr xr d)
      end
  end.

(** The matcher of a pattern, in continuation-passing style as in the
    language definition. *)
Fixpoint matcher (ic : bool) (r : regex) (x : MatchState) (k : MatcherContinuation)
  {struct r} : option MatchState :=
  match r with
  | Eps => k x
  | Chr c => charMatcher (fun ch => canonicalize ic ch =? canonicalize ic c) x k
  | Dot => charMatcher (fun ch => negb (isLineTerminator ch)) x k
  | Space => charMatcher isSpace x k
  | Word => charMatcher isWord x k
  | NoneOf cs =>
      charMatcher (fun ch =>
        negb (existsb (fun a => canonicalize ic a =? canonicalize ic ch) cs)) x k
  | Cat r1 r2 => matcher ic r1 x (fun y => matcher ic r2 y k)
  | Alt r1 r2 => orElse (matcher ic r1 x k) (fun _ => matcher ic r2 x k)
  | Rep min max greedy r1 =>
      repeatMatcher (matcher ic r1) (groupsOf r1) min max greedy k
        (min + List.length (rest x)) x
  | Group n r1 =>
      matcher ic r1 x (fun y =>
        k (setCapture n (Some (firstn (endIndex y - endIndex x) (rest x))) y))
  | Bol => if Nat.eqb (endIndex x) 0 then k x else None
  | Eol => match rest x with [] => k x | _ => None end
  | NotAhead r1 =>
      match matcher ic r1 x (fun y => Some y) with
      | Some _ => None
      | None => k x
      end
  end.

(** One attempt at position [i], where [s] is the input from [i] on. *)
Definition matchAt (R : RegExp) (i : nat) (s : jsstring) : option MatchState :=
  matcher (ignoreCase R) (pattern R)
    (mkMatchState i s (List.repeat None (ngroups R))) (fun y => Some y).

(** The result of a successful [exec]: [index], the matched text and the
    groups ([None] for a group that took no part). *)
Record Match : Type := mkMatch {
  index : nat;
  matched : jsstring;
  groups : list (option jsstring)
}.

(** Leftmost match at or after position [i]. *)
Fixpoint searchFrom (R : RegExp) (i : nat) (s : jsstring) : option Match :=
  match matchAt R i s with
  | Some y => Some (mkMatch i (firstn (endIndex y - i) s) (captures y))
  | None =>
      match s with
      | [] => None
      | _ :: s' => searchFrom R (S i) s'
      end
  end.

(** [RegExp.prototype.exec] from [lastIndex = 0]. *)
Definition exec (R : RegExp) (s : jsstring) : option Match := searchFrom R 0 s.

(** [RegExp.prototype.test].  Every global expression of the source is
    used as [test] followed, on success, by [replace], which leaves
    [lastIndex] at 0 again; a failed [test] resets it too.  So each
    [test] of the source starts at 0. *)
Definition test (R : RegExp) (s : jsstring) : bool :=
  match exec R s with Some _ => true | None => false end.

(** [String.prototype.match] with an expression that is not global: the
    array of the whole match and the groups. *)
Definition matchArray (R : RegExp) (s : jsstring) : option (list (option jsstring)) :=
  match exec R s with
  | Some mt => Some (Some (matched mt) :: groups mt)
  | None => None
  end.

(** [String.prototype.replace] with a global expression and a
    replacement text that holds no [$]: every match, left to right and
    without overlap, is replaced.  [skip] counts the units of the
    current match still to be dropped. *)
Fixpoint replaceFrom (R : RegExp) (fix_ : jsstring) (i skip : nat) (s : jsstring)
  : jsstring :=
  match skip with
  | S skip' =>
      match s with
      | [] => []
      | _ :: s' => replaceFrom R fix_ (S i) skip' s'
      end
  | O =>
      match matchAt R i s with
      | Some y =>
          match (endIndex y - i)%nat with
          | O => fix_ ++ match s with
                         | [] => []
                         | c :: s' => c :: replaceFrom R fix_ (S i) 0 s'
                         end
          | S n => fix_ ++ match s with
                           | [] => []
                           | _ :: s' => replaceFrom R fix_ (S i) n s'
                           end
          end
      | None =>
          match s with
          | [] => []
          | c :: s' => c :: replaceFrom R fix_ (S i) 0 s'
          end
      end
  end.

Definition replaceAll (R : RegExp) (fix_ : jsstring) (s : jsstring) : jsstring :=
  replaceFrom R fix_ 0 0 s.

End Regex.

Import Regex.

(** [String.prototype.replace] with a string pattern: the first
    occurrence only, and the replacement text is still a template in
    which [$$], [$&], [$`] and [$'] have their special meaning (a string
    pattern has no groups, so [$1] and the like stand for themselves). *)
Fixpoint getSubstitution (matched before after tpl : jsstring) : jsstring :=
  match tpl with
  | [] => []
  | c :: t =>
      if c =? 36 then
        match t with
        | c2 :: t' =>
            if c2 =? 36 then 36 :: getSubstitution matched before after t'
            else if c2 =? 38 then matched ++ getSubstitution matched before after t'
            else if c2 =? 96 then before ++ getSubstitution matched before after t'
            else if c2 =? 39 then after ++ getSubstitution matched before after t'
            else c :: getSubstitution matched before after t
        | [] => [c]
        end
      else c :: getSubstitution matched before after t
  end.

Definition replaceString (s pat repl : jsstring) : jsstring :=
  match indexOf s pat with
  | None => s
  | Some p =>
      let before := firstn p s in
      let after := skipn (p + List.length pat) s in
      before ++ getSubstitution pat before after repl ++ after
  end.

(** [ToString] of an array element that may be [undefined]. *)
Definition toStringOpt (v : option jsstring) : jsstring :=
  match v with Some s => s | None => js "undefined" end.

(** [split(/\s+/)]: the pieces between the maximal runs of white space;
    a run at either end leaves an empty piece there. *)
Fixpoint splitSpacesAux (cur : jsstring) (inRun : bool) (s : jsstring)
  : list jsstring :=
  match s with
  | [] => [rev cur]
  | c :: s' =>
      if isSpace c then
        if inRun then splitSpacesAux cur true s'
        else rev cur :: splitSpacesAux [] true s'
      else splitSpacesAux (c :: cur) false s'
  end.

Definition splitSpaces (s : jsstring) : list jsstring := splitSpacesAux [] false s.

(** ** Rule tables *)

Definition re_i (r : regex) : RegExp :=
  mkRegExp r true false (List.length (groupsOf r)).

Definition re_gi (r : regex) : RegExp :=
  mkRegExp r true true (List.length (groupsOf r)).

Inductive Level : Type := high | medium.

Record DangerousCommand : Type := mkDangerous {
  d_pattern : RegExp;
  warning : jsstring;
  level : Level
}.

Definition sp : regex := Plus Space.

Definition dangerousCommands : list DangerousCommand :=
  [ mkDangerous
      (re_i (seq [Bol; lit "DROP"; sp; lit "TABLE"; sp]))
      (js "⚠️ NGUY HIỂM: Lệnh này sẽ XÓA VĨNH VIỄN bảng và tất cả dữ liệu!") high;
    mkDangerous
      (re_i (seq [Bol; lit "DROP"; sp; lit "DATABASE"; sp]))
      (js "🚨 CỰC KỲ NGUY HIỂM: Lệnh này sẽ XÓA TOÀN BỘ DATABASE!") high;
    mkDangerous
      (re_i (seq [Bol; lit "DELETE"; sp; lit "FROM"; sp; Plus Word; Star Space;
                  Opt (Chr 59); Star Space; Eol]))
      (js "⚠️ CẢNH BÁO: DELETE không có WHERE sẽ xóa TẤT CẢ dữ liệu!") high;
    mkDangerous
      (re_i (seq [Bol; lit "TRUNCATE"; sp]))
      (js "⚠️ CẢNH BÁO: TRUNCATE sẽ xóa toàn bộ dữ liệu trong bảng!") high;
    mkDangerous
      (re_i (seq [Bol; lit "UPDATE"; sp; Plus Word; sp; lit "SET"; sp;
                  Star (NoneOf [87]); Eol]))
      (js "⚠️ CẢNH BÁO: UPDATE không có WHERE sẽ cập nhật TẤT CẢ hàng!") medium ].

Record Mapping : Type := mkMapping {
  m_pattern : RegExp;
  template : jsstring
}.

(** [(?:với|có|where)] *)
Definition withWord : regex := Alt (lit "với") (Alt (lit "có") (lit "where")).

Definition vietnameseToSQL : list Mapping :=
  [ mkMapping
      (re_i (seq [lit "lấy"; sp; lit "tất"; sp; lit "cả"; sp;
                  Opt (seq [lit "từ"; sp]); Opt (seq [lit "bảng"; sp]);
                  Group 1 (Plus Word)]))
      (js "SELECT * FROM $1");
    mkMapping
      (re_i (seq [lit "đếm"; sp; Opt (seq [lit "số"; sp]);
                  Opt (seq [lit "lượng"; sp]); Opt (seq [lit "trong"; sp]);
                  Opt (seq [lit "bảng"; sp]); Group 1 (Plus Word)]))
      (js "SELECT COUNT(*) FROM $1");
    mkMapping
      (re_i (seq [lit "xem"; sp; Opt (seq [lit "bảng"; sp]); Group 1 (Plus Word)]))
      (js "SELECT * FROM $1");
    mkMapping
      (re_i (seq [lit "hiển"; sp; lit "thị"; sp;
                  Opt (seq [lit "tất"; sp; lit "cả"; sp]);
                  Opt (seq [lit "bảng"; sp]); Group 1 (Plus Word)]))
      (js "SELECT * FROM $1");
    mkMapping
      (re_i (seq [lit "tìm"; sp; Group 1 (Plus Dot); sp; lit "trong"; sp;
                  Group 2 (Plus Word); sp; withWord; sp; Group 3 (Plus Dot)]))
      (js "SELECT $1 FROM $2 WHERE $3");
    mkMapping
      (re_i (seq [lit "sắp"; sp; lit "xếp"; sp; Group 1 (Plus Word); sp;
                  lit "theo"; sp; Group 2 (Plus Word); sp;
                  Alt (lit "tăng") (seq [lit "tăng"; sp; lit "dần"])]))
      (js "SELECT * FROM $1 ORDER BY $2 ASC");
    mkMapping
      (re_i (seq [lit "sắp"; sp; lit "xếp"; sp; Group 1 (Plus Word); sp;
                  lit "theo"; sp; Group 2 (Plus Word); sp;
                  Alt (lit "giảm") (seq [lit "giảm"; sp; lit "dần"])]))
      (js "SELECT * FROM $1 ORDER BY $2 DESC");
    mkMapping
      (re_i (seq [lit "thêm"; sp; Group 1 (Plus Dot); sp; lit "vào"; sp;
                  Group 2 (Plus Word)]))
      (js "INSERT INTO $2 VALUES ($1)");
    mkMapping
      (re_i (seq [lit "xóa"; sp; Opt (seq [lit "từ"; sp]); Group 1 (Plus Word);
                  sp; withWord; sp; Group 2 (Plus Dot)]))
      (js "DELETE FROM $1 WHERE $2") ].

Record Correction : Type := mkCorrection {
  c_pattern : RegExp;
  fix_ : jsstring;
  message : jsstring
}.

Definition sqlCorrections : list Correction :=
  [ mkCorrection (re_gi (lit "SLECT")) (js "SELECT") (js "Sửa lỗi: SLECT → SELECT");
    mkCorrection (re_gi (lit "FORM")) (js "FROM") (js "Sửa lỗi: FORM → FROM");
    mkCorrection (re_gi (seq [lit "WHER"; NotAhead (Chr 69)])) (js "WHERE")
      (js "Sửa lỗi: WHER → WHERE");
    mkCorrection (re_gi (seq [lit "ODER"; sp; lit "BY"])) (js "ORDER BY")
      (js "Sửa lỗi: ODER BY → ORDER BY");
    mkCorrection (re_gi (seq [lit "GRUOP"; sp; lit "BY"])) (js "GROUP BY")
      (js "Sửa lỗi: GRUOP BY → GROUP BY");
    mkCorrection (re_gi (lit "DELTE")) (js "DELETE") (js "Sửa lỗi: DELTE → DELETE");
    mkCorrection (re_gi (lit "UDPATE")) (js "UPDATE") (js "Sửa lỗi: UDPATE → UPDATE");
    mkCorrection (re_gi (lit "INSET")) (js "INSERT") (js "Sửa lỗi: INSET → INSERT");
    mkCorrection (re_gi (lit "VALEUS")) (js "VALUES") (js "Sửa lỗi: VALEUS → VALUES");
    mkCorrection (re_gi (lit "JION")) (js "JOIN") (js "Sửa lỗi: JION → JOIN") ].

(** ** The pure stages of the pipeline *)

Definition specialCommands : list jsstring :=
  map js ["help"; "clear"; "reset"; "tables"; "yes"; "no"; "y"; "n";
          "ai on"; "ai off"; "learn on"; "learn off"]%string.

(** Is the command complete (does it end with [;])? *)
Definition isCommandComplete (text : jsstring) : bool :=
  let trimmed := trim text in
  let lowerTrimmed := toLowerCase trimmed in
  if existsb (fun cmd => JS.eqb lowerTrimmed cmd) specialCommands then true
  else if startsWith lowerTrimmed (js "desc ")
          || startsWith lowerTrimmed (js "describe ") then true
  else if existsb (fun mapping => test (m_pattern mapping) trimmed) vietnameseToSQL
  then true
  else endsWith trimmed (js ";").

(** The loop [for (let i = 1; i < match.length; i++)] over the groups. *)
Fixpoint substituteGroups (sql : jsstring) (i : Z) (gs : list (option jsstring))
  : jsstring :=
  match gs with
  | [] => sql
  | g :: gs' =>
      substituteGroups (replaceString sql (js "$" ++ ofZ i) (toStringOpt g))
        (i + 1)%Z gs'
  end.

Fixpoint convertWith (rules : list Mapping) (text : jsstring) : option jsstring :=
  match rules with
  | [] => None
  | mapping :: rules' =>
      match matchArray (m_pattern mapping) text with
      | Some mt => Some (substituteGroups (template mapping) 1%Z (tl mt) ++ js ";")
      | None => convertWith rules' text
      end
  end.

Definition convertVietnameseToSQL (text : jsstring) : option jsstring :=
  convertWith vietnameseToSQL text.

(** The loop of [fixSQLTypos]: [acc] is the text so far and the messages
    so far. *)
Fixpoint fixWith (rules : list Correction) (acc : jsstring * list jsstring)
  : jsstring * list jsstring :=
  match rules with
  | [] => acc
  | correction :: rules' =>
      let '(fixed, corrections) := acc in
      if test (c_pattern correction) fixed
      then fixWith rules'
             (replaceAll (c_pattern correction) (fix_ correction) fixed,
              corrections ++ [message correction])
      else fixWith rules' acc
  end.

Definition fixSQLTypos (sql : jsstring) : jsstring * list jsstring :=
  fixWith sqlCorrections (sql, []).

Fixpoint checkWith (rules : list DangerousCommand) (sql : jsstring)
  : option DangerousCommand :=
  match rules with
  | [] => None
  | dangerous :: rules' =>
      if test (d_pattern dangerous) (trim sql) then Some dangerous
      else checkWith rules' sql
  end.

Definition checkDangerousCommand (sql : jsstring) : option DangerousCommand :=
  checkWith dangerousCommands sql.

(** ** Explanations, tips and error hints *)

Inductive Mode : Type := easy | technical.

Definition nl : jsstring := [10].

(** Element [i] of a match array, as text. *)
Definition grp (mt : list (option jsstring)) (i : nat) : jsstring :=
  toStringOpt (nth i mt None).

Definition word1 : regex := Group 1 (Plus Word).

Definition re_select : RegExp :=
  re_i (seq [lit "SELECT"; sp; Group 1 (PlusLazy Dot); sp; lit "FROM"]).
Definition re_from : RegExp := re_i (seq [lit "FROM"; sp; word1]).
Definition re_where : RegExp :=
  re_i (seq [lit "WHERE"; sp; Group 1 (PlusLazy Dot);
             Alt (seq [sp; lit "ORDER"])
               (Alt (seq [sp; lit "GROUP"])
                  (Alt (seq [sp; lit "LIMIT"]) (Alt (Chr 59) Eol)))]).
Definition re_order : RegExp :=
  re_i (seq [lit "ORDER"; sp; lit "BY"; sp; word1; Star Space;
             Opt (Group 2 (Alt (lit "ASC") (lit "DESC")))]).
Definition re_group : RegExp := re_i (seq [lit "GROUP"; sp; lit "BY"; sp; word1]).
Definition re_insert : RegExp := re_i (seq [lit "INSERT"; sp; lit "INTO"; sp; word1]).
Definition re_update : RegExp := re_i (seq [lit "UPDATE"; sp; word1]).
Definition re_delete : RegExp := re_i (seq [lit "DELETE"; sp; lit "FROM"; sp; word1]).
Definition re_create : RegExp := re_i (seq [lit "CREATE"; sp; lit "TABLE"; sp; word1]).
Definition re_alter : RegExp := re_i (seq [lit "ALTER"; sp; lit "TABLE"; sp; word1]).

Section Explain.

Variable mode : Mode.

(** One [if (upperSQL.includes(key)) { const m = sql.match(re); if (m) parts.push(...) }]. *)
Definition part (upperSQL sql : jsstring) (key : string) (re : RegExp)
    (f : list (option jsstring) -> jsstring) : list jsstring :=
  if includes upperSQL (js key) then
    match matchArray re sql with
    | Some mt => [f mt]
    | None => []
    end
  else [].

Definition byMode (e t : jsstring) : jsstring :=
  match mode with easy => e | technical => t end.

Definition quoted (s : jsstring) : jsstring := dq ++ s ++ dq.

Definition explainSQL (sql : jsstring) : jsstring :=
  let upperSQL := toUpperCase sql in
  let parts :=
    part upperSQL sql "SELECT" re_select (fun mt =>
      let columns := trim (grp mt 1) in
      byMode
        (js "📋 Lấy " ++ (if JS.eqb columns (js "*") then js "tất cả cột"
                          else js "cột: " ++ columns))
        (js "SELECT: Retrieves " ++ (if JS.eqb columns (js "*") then js "all columns"
                                     else js "columns: " ++ columns)))
    ++ part upperSQL sql "FROM" re_from (fun mt =>
      byMode (js "📁 Từ bảng: " ++ grp mt 1)
             (js "FROM: Source table " ++ quoted (grp mt 1)))
    ++ part upperSQL sql "WHERE" re_where (fun mt =>
      byMode (js "🔍 Điều kiện: " ++ trim (grp mt 1))
             (js "WHERE: Filter condition " ++ quoted (trim (grp mt 1))))
    ++ part upperSQL sql "ORDER BY" re_order (fun mt =>
      let direction :=
        match nth 2 mt None with
        | Some d => if JS.eqb (toUpperCase d) (js "DESC")
                    then js "giảm dần" else js "tăng dần"
        | None => js "tăng dần"
        end in
      byMode (js "📊 Sắp xếp: " ++ grp mt 1 ++ js " (" ++ direction ++ js ")")
             (js "ORDER BY: Sort by " ++ quoted (grp mt 1) ++ js " "
              ++ match nth 2 mt None with
                 | Some d => if truthy d then d else js "ASC"
                 | None => js "ASC"
                 end))
    ++ part upperSQL sql "GROUP BY" re_group (fun mt =>
      byMode (js "📦 Nhóm theo: " ++ grp mt 1)
             (js "GROUP BY: Group rows by " ++ quoted (grp mt 1)))
    ++ (if includes upperSQL (js "JOIN")
        then [byMode (js "🔗 Kết nối các bảng với nhau")
                     (js "JOIN: Combines rows from multiple tables")]
        else [])
    ++ part upperSQL sql "INSERT" re_insert (fun mt =>
      byMode (js "➕ Thêm dữ liệu vào bảng: " ++ grp mt 1)
             (js "INSERT: Add new row(s) to " ++ quoted (grp mt 1)))
    ++ part upperSQL sql "UPDATE" re_update (fun mt =>
      byMode (js "✏️ Cập nhật bảng: " ++ grp mt 1)
             (js "UPDATE: Modify rows in " ++ quoted (grp mt 1)))
    ++ part upperSQL sql "DELETE" re_delete (fun mt =>
      byMode (js "🗑️ Xóa từ bảng: " ++ grp mt 1)
             (js "DELETE: Remove rows from " ++ quoted (grp mt 1)))
    ++ part upperSQL sql "CREATE TABLE" re_create (fun mt =>
      byMode (js "🏗️ Tạo bảng mới: " ++ grp mt 1)
             (js "CREATE TABLE: Creates new table " ++ quoted (grp mt 1)))
    ++ part upperSQL sql "ALTER TABLE" re_alter (fun mt =>
      byMode (js "🔧 Thay đổi cấu trúc bảng: " ++ grp mt 1)
             (js "ALTER TABLE: Modifies table structure " ++ quoted (grp mt 1)))
  in
  join nl parts.

End Explain.

Definition getOptimizationTips (sql : jsstring) : list jsstring :=
  let upperSQL := toUpperCase sql in
  (if includes upperSQL (js "SELECT *")
   then [js "💡 Nên chỉ định cột cụ thể thay vì SELECT * để tăng hiệu suất"] else [])
  ++ (if includes upperSQL (js "SELECT") && negb (includes upperSQL (js "LIMIT"))
         && negb (includes upperSQL (js "COUNT"))
      then [js "💡 Thêm LIMIT để giới hạn kết quả khi test"] else [])
  ++ (if includes upperSQL (js "LIKE") && includes sql (js "'%")
      then [js "💡 LIKE bắt đầu bằng % sẽ không sử dụng INDEX"] else [])
  ++ (if includes upperSQL (js "OR") && includes upperSQL (js "WHERE")
      then [js "💡 OR có thể chậm, xem xét dùng UNION hoặc IN thay thế"] else []).

Definition getErrorHelp (error : jsstring) : option jsstring :=
  if includes error (js "không tồn tại") || includes error (js "not found")
     || includes error (js "no such table")
  then Some (js "💡 Gợi ý: Kiểm tra lại tên bảng/cột. Gõ " ++ quoted (js "tables")
             ++ js " để xem danh sách bảng.")
  else if includes error (js "cú pháp") || includes error (js "Syntax")
          || includes error (js "syntax")
  then Some (js "💡 Gợi ý: Kiểm tra lại cú pháp SQL. Ví dụ: SELECT column FROM table WHERE condition;")
  else None.

(** ** The console's data *)

Inductive EntryType : Type :=
| Input | Continuation | Result | Error | Warning | Info | Ai.

(** A number.  The component never computes with the numbers of a
    result, it only prints them.  So a finite number other than zero
    is given by what Number::toString prints it from: its sign and the
    integers [s] and [n], where [s] holds the decimal digits that tell
    the number apart from its neighbours, [k] is the number of these
    digits, and the number is [s * 10 ^ (n - k)]. *)
Inductive Number : Type :=
| NaN
| Infinite (negative : bool)
| Zero                                   (* [+0] and [-0] print alike *)
| Finite (negative : bool) (s : positive) (n : Z).

(** [String(x)] of a number: Number::toString with radix 10.  With [n]
    from -5 to 21 the digits are written out, padded with zeros or
    with the point in its place; otherwise the number is written with
    an exponent. *)
Definition numberToString (x : Number) : jsstring :=
  match x with
  | NaN => js "NaN"
  | Infinite negative => (if negative then js "-" else []) ++ js "Infinity"
  | Zero => js "0"
  | Finite negative s n =>
      let ds := digits (Pos.to_uint s) in
      let k := len ds in
      (if negative then js "-" else [])
      ++ (if (-5 <=? n)%Z && (n <=? 21)%Z then
            if (k <=? n)%Z then ds ++ JS.repeat (js "0") (Z.to_nat (n - k))
            else if (0 <? n)%Z then
              firstn (Z.to_nat n) ds ++ js "." ++ skipn (Z.to_nat n) ds
            else js "0." ++ JS.repeat (js "0") (Z.to_nat (- n)) ++ ds
          else
            let exponent :=
              (if (n <? 0)%Z then js "-" else js "+") ++ ofZ (Z.abs (n - 1)) in
            match ds with
            | [] => []
            | [d] => [d] ++ js "e" ++ exponent
            | d :: more => [d] ++ js "." ++ more ++ js "e" ++ exponent
            end)
  end.

(** A safe integer (below [2 ^ 53] in absolute value) as a number: all
    its digits count, and [n] is their number. *)
Definition integer (z : Z) : Number :=
  match z with
  | Z0 => Zero
  | Zpos p => Finite false p (len (digits (Pos.to_uint p)))
  | Zneg p => Finite true p (len (digits (Pos.to_uint p)))
  end.

(** A cell of a result: [string | number | null]. *)
Inductive Cell : Type :=
| CStr (s : jsstring)
| CNum (n : Number)
| CNull.

Record Table : Type := mkTable {
  columns : list jsstring;
  rows : list (list Cell)
}.

(** A transcript entry.  The [timestamp] field of the source is never
    read and is left out. *)
Record CommandEntry : Type := mkEntry {
  id : nat;
  type : EntryType;
  content : jsstring;
  table : option Table
}.

(** What the engine's [executeSQL] returns. *)
Record SQLResult : Type := mkResult {
  r_columns : list jsstring;
  r_rows : list (list Cell);
  r_error : option jsstring;
  affectedRows : option Z;
  executionTime : Z
}.

Definition welcomeText : jsstring :=
  js "
╔══════════════════════════════════════════════════════════════════╗
║       🐬 MySQL 8.0 Command Line Client - AI Enhanced            ║
║       Tạo bởi Đạt đờ rao                                         ║
╠══════════════════════════════════════════════════════════════════╣
║  💡 Nhập SQL như MySQL CLI thật:                                 ║
║     • Enter = xuống dòng (tiếp tục nhập)                         ║
║     • Kết thúc bằng ; = thực thi lệnh                            ║
║     • Ctrl+Enter = thực thi ngay                                 ║
║                                                                  ║
║  📚 Gõ " ++ dq ++ js "help" ++ dq ++ js " để xem hướng dẫn                                   ║
╚══════════════════════════════════════════════════════════════════╝
      ".

Definition helpText : jsstring :=
  js "
📚 HƯỚNG DẪN SỬ DỤNG (GIỐNG MYSQL CLI):
═══════════════════════════════════════════════════════════
  
⌨️  CÁCH NHẬP LỆNH:
────────────────────────────────────────────────────────────
  • Enter        = Xuống dòng (tiếp tục nhập)
  • Kết thúc ;   = Thực thi lệnh tự động  
  • Ctrl+Enter   = Thực thi ngay (không cần ;)
  • ↑ / ↓        = Duyệt lịch sử lệnh
  • Ctrl+L       = Xóa màn hình
  • Ctrl+C       = Hủy lệnh đang nhập

📋 LỆNH HỆ THỐNG:
────────────────────────────────────────────────────────────
  help          - Hiển thị hướng dẫn này
  clear         - Xóa màn hình terminal
  reset         - Khôi phục database về ban đầu
  tables        - Xem danh sách các bảng
  desc <table>  - Xem cấu trúc bảng
  ai on/off     - Bật/tắt AI hỗ trợ
  learn on/off  - Bật/tắt chế độ học tập

🗣️  GÕ TIẾNG VIỆT (AI tự chuyển sang SQL):
────────────────────────────────────────────────────────────
  " ++ dq ++ js "lấy tất cả từ students" ++ dq ++ js "
  " ++ dq ++ js "đếm số lượng trong products" ++ dq ++ js "  
  " ++ dq ++ js "sắp xếp employees theo salary giảm dần" ++ dq ++ js "

📝 VÍ DỤ SQL NHIỀU DÒNG:
────────────────────────────────────────────────────────────
  mysql> CREATE TABLE users (
      ->   id INT PRIMARY KEY,
      ->   name VARCHAR(100)
      -> );
      ".

Definition tablesText : jsstring :=
  js "
📊 DANH SÁCH BẢNG:
────────────────────────────────────────
  • students   (id, name, age, grade, class)
  • products   (id, name, price, category, stock)
  • orders     (id, customer_name, product_id, quantity, order_date)
  • employees  (id, name, department, salary, hire_date)
      ".

Definition tableInfo : list (jsstring * list jsstring) :=
  [ (js "students", map js ["id INT PRIMARY KEY"; "name VARCHAR(100)"; "age INT";
                              "grade VARCHAR(10)"; "class VARCHAR(20)"]%string);
    (js "products", map js ["id INT PRIMARY KEY"; "name VARCHAR(100)"; "price INT";
                              "category VARCHAR(50)"; "stock INT"]%string);
    (js "orders", map js ["id INT PRIMARY KEY"; "customer_name VARCHAR(100)";
                            "product_id INT"; "quantity INT"; "order_date DATE"]%string);
    (js "employees", map js ["id INT PRIMARY KEY"; "name VARCHAR(100)";
                               "department VARCHAR(50)"; "salary INT";
                               "hire_date DATE"]%string) ].

(** What [tableInfo[key]] gives: the columns of an own key, [undefined],
    or, for the two lower-case names every object inherits, a value
    that is truthy but has no [map] method. *)
Inductive Property : Type :=
| Columns (cols : list jsstring)
| Inherited
| Undefined.

Fixpoint assoc (key : jsstring) (l : list (jsstring * list jsstring))
  : option (list jsstring) :=
  match l with
  | [] => None
  | (k, v) :: l' => if JS.eqb key k then Some v else assoc key l'
  end.

Definition getProperty (key : jsstring) : Property :=
  match assoc key tableInfo with
  | Some cols => Columns cols
  | None =>
      if JS.eqb key (js "constructor") || JS.eqb key (js "__proto__")
      then Inherited else Undefined
  end.

(** ** The console *)

Section Console.

(** The SQL engine is outside the component: its store is a type [DB],
    [executeSQL] runs a statement against it and [resetDB] restores the
    initial data. *)
Variable DB : Type.
Variable executeSQL : jsstring -> DB -> SQLResult * DB.
Variable resetDB : DB -> DB.
Variable mode : Mode.

(** The component's state: its [useState] cells, the [idCounter] ref and
    the engine's store.  [calls] is a ghost field that lists, oldest
    first, the statements handed to [executeSQL]. *)
Record State : Type := mkState {
  buffer : list jsstring;
  currentLine : jsstring;
  history : list CommandEntry;
  commandHistory : list jsstring;
  historyIndex : Z;
  aiEnabled : bool;
  learningMode : bool;
  showSettings : bool;
  pendingDangerousCommand : option jsstring;
  isMultiLine : bool;
  idCounter : nat;
  db : DB;
  calls : list jsstring
}.

Definition initialState (d : DB) : State :=
  mkState [] [] [] [] (-1) true true false None false 0 d [].

Definition setBuffer (v : list jsstring) (s : State) : State :=
  mkState v (currentLine s) (history s) (commandHistory s) (historyIndex s)
    (aiEnabled s) (learningMode s) (showSettings s) (pendingDangerousCommand s)
    (isMultiLine s) (idCounter s) (db s) (calls s).

Definition setCurrentLine (v : jsstring) (s : State) : State :=
  mkState (buffer s) v (history s) (commandHistory s) (historyIndex s)
    (aiEnabled s) (learningMode s) (showSettings s) (pendingDangerousCommand s)
    (isMultiLine s) (idCounter s) (db s) (calls s).

Definition setHistory (v : list CommandEntry) (s : State) : State :=
  mkState (buffer s) (currentLine s) v (commandHistory s) (historyIndex s)
    (aiEnabled s) (learningMode s) (showSettings s) (pendingDangerousCommand s)
    (isMultiLine s) (idCounter s) (db s) (calls s).

Definition setCommandHistory (v : list jsstring) (s : State) : State :=
  mkState (buffer s) (currentLine s) (history s) v (historyIndex s)
    (aiEnabled s) (learningMode s) (showSettings s) (pendingDangerousCommand s)
    (isMultiLine s) (idCounter s) (db s) (calls s).

Definition setHistoryIndex (v : Z) (s : State) : State :=
  mkState (buffer s) (currentLine s) (history s) (commandHistory s) v
    (aiEnabled s) (learningMode s) (showSettings s) (pendingDangerousCommand s)
    (isMultiLine s) (idCounter s) (db s) (calls s).

Definition setAiEnabled (v : bool) (s : State) : State :=
  mkState (buffer s) (currentLine s) (history s) (commandHistory s) (historyIndex s)
    v (learningMode s) (showSettings s) (pendingDangerousCommand s)
    (isMultiLine s) (idCounter s) (db s) (calls s).

Definition setLearningMode (v : bool) (s : State) : State :=
  mkState (buffer s) (currentLine s) (history s) (commandHistory s) (historyIndex s)
    (aiEnabled s) v (showSettings s) (pendingDangerousCommand s)
    (isMultiLine s) (idCounter s) (db s) (calls s).

Definition setShowSettings (v : bool) (s : State) : State :=
  mkState (buffer s) (currentLine s) (history s) (commandHistory s) (historyIndex s)
    (aiEnabled s) (learningMode s) v (pendingDangerousCommand s)
    (isMultiLine s) (idCounter s) (db s) (calls s).

Definition setPendingDangerousCommand (v : option jsstring) (s : State) : State :=
  mkState (buffer s) (currentLine s) (history s) (commandHistory s) (historyIndex s)
    (aiEnabled s) (learningMode s) (showSettings s) v
    (isMultiLine s) (idCounter s) (db s) (calls s).

Definition setIsMultiLine (v : bool) (s : State) : State :=
  mkState (buffer s) (currentLine s) (history s) (commandHistory s) (historyIndex s)
    (aiEnabled s) (learningMode s) (showSettings s) (pendingDangerousCommand s)
    v (idCounter s) (db s) (calls s).

(** [addEntry]: the next id, appended to the transcript. *)
Definition addEntryWith (t : EntryType) (c : jsstring) (tb : option Table)
    (s : State) : State :=
  mkState (buffer s) (currentLine s)
    (history s ++ [mkEntry (idCounter s) t c tb])
    (commandHistory s) (historyIndex s)
    (aiEnabled s) (learningMode s) (showSettings s) (pendingDangerousCommand s)
    (isMultiLine s) (S (idCounter s)) (db s) (calls s).

Definition addEntry (t : EntryType) (c : jsstring) (s : State) : State :=
  addEntryWith t c None s.

(** The call [executeSQL(sql)]: the store moves on and the call is
    logged. *)
Definition callEngine (sql : jsstring) (s : State) : SQLResult * State :=
  let '(res, d) := executeSQL sql (db s) in
  (res,
   mkState (buffer s) (currentLine s) (history s) (commandHistory s)
     (historyIndex s) (aiEnabled s) (learningMode s) (showSettings s)
     (pendingDangerousCommand s) (isMultiLine s) (idCounter s) d
     (calls s ++ [sql])).

Definition callReset (s : State) : State :=
  mkState (buffer s) (currentLine s) (history s) (commandHistory s)
    (historyIndex s) (aiEnabled s) (learningMode s) (showSettings s)
    (pendingDangerousCommand s) (isMultiLine s) (idCounter s) (resetDB (db s))
    (calls s).

(** The welcome effect, run once the engine is ready. *)
Definition welcome (s : State) : State :=
  match history s with
  | [] => addEntry Info welcomeText s
  | _ => s
  end.

(** An error text is present when it is defined and not empty. *)
Definition errorOf (res : SQLResult) : option jsstring :=
  match r_error res with
  | Some e => if truthy e then Some e else None
  | None => None
  end.

Definition orZero (v : option Z) : Z :=
  match v with Some n => n | None => 0%Z end.

Definition when (b : bool) (f : State -> State) (s : State) : State :=
  if b then f s else s.

Definition runSQL (sql : jsstring) (s : State) : State :=
  let '(res, s1) := callEngine sql s in
  match errorOf res with
  | Some e =>
      let s2 := addEntry Error (js "ERROR: " ++ e) s1 in
      if aiEnabled s then
        match getErrorHelp e with
        | Some errorHelp => addEntry Ai errorHelp s2
        | None => s2
        end
      else s2
  | None =>
      let s2 :=
        if aiEnabled s then
          let explanation := explainSQL mode sql in
          when (truthy explanation)
            (addEntry Ai (js "📝 Giải thích:" ++ nl ++ explanation)) s1
        else s1 in
      let s3 :=
        if negb (Nat.eqb (List.length (r_columns res)) 0)
           && negb (Nat.eqb (List.length (r_rows res)) 0)
        then addEntryWith Result
               (ofZ (Z.of_nat (List.length (r_rows res))) ++ js " row(s) in set ("
                ++ ofZ (executionTime res) ++ js "ms)")
               (Some (mkTable (r_columns res) (r_rows res))) s2
        else addEntry Info
               (js "Query OK, " ++ ofZ (orZero (affectedRows res))
                ++ js " row(s) affected (" ++ ofZ (executionTime res) ++ js "ms)") s2 in
      if learningMode s && aiEnabled s then
        let tips := getOptimizationTips sql in
        match tips with
        | [] => s3
        | _ => addEntry Ai (js "📚 Gợi ý tối ưu:" ++ nl ++ join nl tips) s3
        end
      else s3
  end.

(** The branch for [desc] and [describe].  The second component tells
    whether the handler returned; it is [false] where the source raises
    a [TypeError]. *)
Definition describe (trimmedSQL : jsstring) (s : State) : State * bool :=
  let tableName :=
    option_map (fun t => replaceString t (js ";") [])
      (nth_error (splitSpaces trimmedSQL) 1) in
  let notFound :=
    addEntry Error (js "❌ Bảng " ++ quoted (toStringOpt tableName)
                    ++ js " không tồn tại!") s in
  match tableName with
  | Some name =>
      if truthy name then
        match getProperty (toLowerCase name) with
        | Columns cols =>
            (addEntry Info
               (js "
📋 Cấu trúc bảng: " ++ name ++ js "
────────────────────────────────────────
" ++ join nl (map (fun col => js "  " ++ col) cols) ++ js "
        ") s, true)
        | Inherited => (s, false)
        | Undefined => (notFound, true)
        end
      else (notFound, true)
  | None => (notFound, true)
  end.

Definition isYes (lowerSQL : jsstring) : bool :=
  JS.eqb lowerSQL (js "yes") || JS.eqb lowerSQL (js "y").

Definition isNo (lowerSQL : jsstring) : bool :=
  JS.eqb lowerSQL (js "no") || JS.eqb lowerSQL (js "n").

(** The truthiness test [if (pendingDangerousCommand)]. *)
Definition pendingCommand (s : State) : option jsstring :=
  match pendingDangerousCommand s with
  | Some cmd => if truthy cmd then Some cmd else None
  | None => None
  end.

(** The AI stage of [executeCommand]: translate, correct, classify.  It
    returns the statement to run, or [None] when the statement is held
    for confirmation. *)
Definition aiProcess (trimmedSQL : jsstring) (s : State) : option jsstring * State :=
  let '(sql1, s1) :=
    match convertVietnameseToSQL trimmedSQL with
    | Some convertedSQL =>
        (convertedSQL,
         addEntry Ai (js "🔄 Chuyển đổi tiếng Việt → SQL:" ++ nl ++ js "   "
                      ++ convertedSQL) s)
    | None => (trimmedSQL, s)
    end in
  let '(fixed, corrections) := fixSQLTypos sql1 in
  let '(sql2, s2) :=
    match corrections with
    | [] => (sql1, s1)
    | _ =>
        (fixed,
         addEntry Ai (js "✏️ Sửa lỗi:" ++ nl
                      ++ join nl (map (fun c => js "   • " ++ c) corrections)
                      ++ nl ++ js "   → " ++ fixed) s1)
    end in
  match checkDangerousCommand sql2 with
  | Some dangerous =>
      let s3 := addEntry Warning (warning dangerous) s2 in
      match level dangerous with
      | high =>
          (None,
           addEntry Warning
             (js "⚡ Gõ " ++ quoted (js "yes") ++ js " để xác nhận thực thi hoặc "
              ++ quoted (js "no") ++ js " để hủy")
             (setPendingDangerousCommand (Some sql2) s3))
      | medium => (Some sql2, s3)
      end
  | None => (Some sql2, s2)
  end.

(** The first statement of [executeCommand]: the statement goes to the
    front of the recall list, without duplicates, at most 50 kept. *)
Definition remember (fullSQL : jsstring) (s : State) : State :=
  setHistoryIndex (-1)
    (setCommandHistory
       (firstn 50 (fullSQL :: filter (fun c => negb (JS.eqb c fullSQL))
                                     (commandHistory s))) s).

(** The special commands: [Some] when one of them handled the line. *)
Definition special (trimmedSQL lowerSQL : jsstring) (s : State)
  : option (State * bool) :=
  if JS.eqb lowerSQL (js "help") then Some (addEntry Info helpText s, true)
  else if JS.eqb lowerSQL (js "clear") then Some (setHistory [] s, true)
  else if JS.eqb lowerSQL (js "reset") then
    Some (addEntry Info (js "✅ Database đã được khôi phục về trạng thái ban đầu!")
            (callReset s), true)
  else if JS.eqb lowerSQL (js "tables") then Some (addEntry Info tablesText s, true)
  else if startsWith lowerSQL (js "desc ") || startsWith lowerSQL (js "describe ")
  then Some (describe trimmedSQL s)
  else if JS.eqb lowerSQL (js "ai on") then
    Some (addEntry Info (js "🤖 AI hỗ trợ đã được BẬT") (setAiEnabled true s), true)
  else if JS.eqb lowerSQL (js "ai off") then
    Some (addEntry Info (js "🤖 AI hỗ trợ đã được TẮT") (setAiEnabled false s), true)
  else if JS.eqb lowerSQL (js "learn on") then
    Some (addEntry Info (js "📚 Chế độ học tập đã được BẬT - Sẽ hiển thị gợi ý tối ưu")
            (setLearningMode true s), true)
  else if JS.eqb lowerSQL (js "learn off") then
    Some (addEntry Info (js "📚 Chế độ học tập đã được TẮT") (setLearningMode false s), true)
  else None.

(** The pending dangerous command and a yes/no answer: [Some] when the
    line was taken as the answer. *)
Definition confirmation (lowerSQL : jsstring) (s : State) : option State :=
  match pendingCommand s with
  | Some cmd =>
      if isYes lowerSQL then
        Some (runSQL cmd (setPendingDangerousCommand None s))
      else if isNo lowerSQL then
        Some (addEntry Info (js "❌ Đã hủy lệnh.") (setPendingDangerousCommand None s))
      else None
  | None => None
  end.

(** Process the SQL command: the AI stage if it is on, then [runSQL]. *)
Definition processSQL (trimmedSQL : jsstring) (s : State) : State :=
  if aiEnabled s then
    match aiProcess trimmedSQL s with
    | (Some sqlToExecute, s') => runSQL sqlToExecute s'
    | (None, s') => s'
    end
  else runSQL trimmedSQL s.

(** Execute the final command. *)
Definition executeCommand (fullSQL : jsstring) (s0 : State) : State * bool :=
  let s := remember fullSQL s0 in
  let trimmedSQL := trim fullSQL in
  let lowerSQL := toLowerCase trimmedSQL in
  match special trimmedSQL lowerSQL s with
  | Some r => r
  | None =>
      match confirmation lowerSQL s with
      | Some s' => (s', true)
      | None => (processSQL trimmedSQL s, true)
      end
  end.

(** *** Keys and other events *)

Record KeyboardEvent : Type := mkKey {
  key : jsstring;
  ctrlKey : bool;
  shiftKey : bool
}.

(** [lines.forEach((line, idx) => ...)] for the echo of a statement:
    the first line as [input], the others as [continuation]. *)
Fixpoint forEachLine (keepEmptyFirst : bool) (idx : nat) (lines : list jsstring)
    (s : State) : State :=
  match lines with
  | [] => s
  | line :: lines' =>
      let s' :=
        if truthy line || (keepEmptyFirst && Nat.eqb idx 0)
        then addEntry (if Nat.eqb idx 0 then Input else Continuation) line s
        else s in
      forEachLine keepEmptyFirst (S idx) lines' s'
  end.

Definition clearInput (s : State) : State :=
  setIsMultiLine false (setCurrentLine [] (setBuffer [] s)).

(** Echo, execute, and clear the input unless the execution raised. *)
Definition submit (fullCommand : jsstring) (s : State) : State :=
  let allLines := buffer s ++ [currentLine s] in
  let '(s', returned) := executeCommand fullCommand (forEachLine true 0 allLines s) in
  if returned then clearInput s' else s'.

(** [commandHistory[newIndex]]; the index is in range wherever the
    source reads it, given [historyIndex >= -1]. *)
Definition recall (s : State) (newIndex : Z) : jsstring :=
  nth (Z.to_nat newIndex) (commandHistory s) [].

Definition handleKeyDown (e : KeyboardEvent) (s : State) : State :=
  if JS.eqb (key e) (js "l") && ctrlKey e then setHistory [] s
  else if JS.eqb (key e) (js "c") && ctrlKey e then
    let s1 :=
      if negb (Nat.eqb (List.length (buffer s)) 0) || truthy (currentLine s) then
        let cancelledLines := filter truthy (buffer s ++ [currentLine s]) in
        addEntry Info (js "^C") (forEachLine false 0 cancelledLines s)
      else s in
    clearInput s1
  else if JS.eqb (key e) (js "Enter") && ctrlKey e then
    let fullCommand := trim (join nl (buffer s ++ [currentLine s])) in
    if truthy fullCommand then submit fullCommand s else s
  else if JS.eqb (key e) (js "ArrowUp") && Nat.eqb (List.length (buffer s)) 0
          && JS.eqb (currentLine s) [] then
    if (historyIndex s <? Z.of_nat (List.length (commandHistory s)) - 1)%Z then
      let newIndex := (historyIndex s + 1)%Z in
      setCurrentLine (recall s newIndex) (setHistoryIndex newIndex s)
    else s
  else if JS.eqb (key e) (js "ArrowDown") && Nat.eqb (List.length (buffer s)) 0 then
    if (historyIndex s >? 0)%Z then
      let newIndex := (historyIndex s - 1)%Z in
      setCurrentLine (recall s newIndex) (setHistoryIndex newIndex s)
    else if (historyIndex s =? 0)%Z then
      setCurrentLine [] (setHistoryIndex (-1) s)
    else s
  else if JS.eqb (key e) (js "Enter") && negb (shiftKey e) && negb (ctrlKey e) then
    let fullCommand := join nl (buffer s ++ [currentLine s]) in
    if isCommandComplete fullCommand then submit (trim fullCommand) s
    else setIsMultiLine true (setCurrentLine [] (setBuffer (buffer s ++ [currentLine s]) s))
  else s.

Definition quickExamples : list jsstring :=
  [ js "SELECT * FROM students;";
    js "lấy tất cả từ products";
    js "SELECT name, age" ++ nl ++ js "FROM students" ++ nl ++ js "WHERE age > 20;" ].

Inductive Event : Type :=
| KeyDown (e : KeyboardEvent)
| Change (value : jsstring)
| ToggleAi
| ToggleLearning
| ToggleSettings
| QuickExample (i : nat).

Definition step (s : State) (ev : Event) : State :=
  match ev with
  | KeyDown e => handleKeyDown e s
  | Change value => setCurrentLine value s
  | ToggleAi => setAiEnabled (negb (aiEnabled s)) s
  | ToggleLearning => setLearningMode (negb (learningMode s)) s
  | ToggleSettings => setShowSettings (negb (showSettings s)) s
  | QuickExample i =>
      match nth_error quickExamples i with
      | Some example =>
          if includes example nl then setCurrentLine example (setBuffer [] s)
          else setCurrentLine example s
      | None => s
      end
  end.

Definition run (evs : list Event) (s : State) : State := fold_left step evs s.

Definition Enter : Event := KeyDown (mkKey (js "Enter") false false).
Definition CtrlEnter : Event := KeyDown (mkKey (js "Enter") true false).
Definition ArrowUp : Event := KeyDown (mkKey (js "ArrowUp") false false).
Definition ArrowDown : Event := KeyDown (mkKey (js "ArrowDown") false false).

(** Typing a line and pressing Enter. *)
Definition typeLine (line : jsstring) (s : State) : State :=
  step (step s (Change line)) Enter.

(** ** The table renderer *)

(** [String(cell ?? 'NULL')]; a missing cell is [undefined] and renders
    the same way. *)
Definition cellText (cell : option Cell) : jsstring :=
  match cell with
  | Some (CStr s) => s
  | Some (CNum n) => numberToString n
  | Some CNull | None => js "NULL"
  end.

(** [Math.max] of a list of lengths and further arguments; the maximum
    of no lengths at all is minus infinity, which any further argument
    beats. *)
Definition maxOf (l : list Z) (others : Z) : Z := fold_right Z.max others l.

Definition colWidth (t : Table) (i : nat) (col : jsstring) : Z :=
  maxOf (map (fun row => len (cellText (nth_error row i))) (rows t))
        (Z.max (len col) 4).

Fixpoint mapi (A B : Type) (f : nat -> A -> B) (i : nat) (l : list A) : list B :=
  match l with
  | [] => []
  | a :: l' => f i a :: mapi f (S i) l'
  end.

Definition colWidths (t : Table) : list Z :=
  mapi (fun i col => colWidth t i col) 0 (columns t).

Definition separator (t : Table) : jsstring :=
  js "+" ++ join (js "+") (map (fun w => JS.repeat (js "-") (Z.to_nat (w + 2)))
                                (colWidths t)) ++ js "+".

Definition padCell (t : Table) (i : nat) (text : jsstring) : jsstring :=
  js " " ++ padEnd text (nth_error (colWidths t) i) ++ js " ".

Definition header (t : Table) : jsstring :=
  js "|" ++ join (js "|") (mapi (fun i col => padCell t i col) 0 (columns t))
  ++ js "|".

Definition rowLine (t : Table) (row : list Cell) : jsstring :=
  js "|" ++ join (js "|") (mapi (fun i cell => padCell t i (cellText (Some cell))) 0 row)
  ++ js "|".

(** What [renderTable] puts on the screen, top to bottom. *)
Record Rendered : Type := mkRendered {
  top : jsstring;
  head : jsstring;
  rule : jsstring;
  body : list jsstring;
  bottom : jsstring;
  more : option jsstring
}.

Definition renderTable (t : Table) : Rendered :=
  mkRendered (separator t) (header t) (separator t)
    (map (rowLine t) (firstn 25 (rows t)))
    (separator t)
    (if (25 <? List.length (rows t))%nat
     then Some (js "... và " ++ ofZ (Z.of_nat (List.length (rows t)) - 25)
                ++ js " hàng nữa")
     else None).

End Console.

Arguments js : simpl never.
Arguments trim : simpl never.
Arguments toLowerCase : simpl never.
Arguments toUpperCase : simpl never.
Arguments test : simpl never.
Arguments isCommandComplete : simpl never.
Arguments convertVietnameseToSQL : simpl never.
Arguments fixSQLTypos : simpl never.
Arguments checkDangerousCommand : simpl never.
Arguments explainSQL : simpl never.
Arguments getOptimizationTips : simpl never.
Arguments getErrorHelp : simpl never.

(** ** A stand-in engine for the examples

    One table, [students], with two rows.  [DROP TABLE students] removes
    it, a [SELECT] lists it if it is still there (no row of it under
    [WHERE 1 = 0]), anything else is accepted and changes nothing.  The
    store is the flag that tells whether the table exists. *)

Module Sample.

Definition DB : Type := bool.

Definition students : Table :=
  mkTable [js "id"; js "name"]
    [[CNum (integer 1); CStr (js "Ann")]; [CNum (integer 2); CNull]].

Definition ok : SQLResult := mkResult [] [] None (Some 0%Z) 0.

Definition executeSQL (sql : jsstring) (d : DB) : SQLResult * DB :=
  let upper := toUpperCase (trim sql) in
  if startsWith upper (js "DROP TABLE STUDENTS") then
    if d then (ok, false)
    else (mkResult [] [] (Some (js "no such table: students")) None 0, d)
  else if startsWith upper (js "SELECT") then
    if d then
      if includes upper (js "WHERE 1 = 0")
      then (mkResult (columns students) [] None None 1, d)
      else (mkResult (columns students) (rows students) None None 1, d)
    else (mkResult [] [] (Some (js "no such table: students")) None 0, d)
  else (ok, d).

Definition resetDB (d : DB) : DB := true.

Definition start : State DB := initialState true.

Definition typeLine := typeLine executeSQL resetDB easy.
Definition step := step executeSQL resetDB easy.
Definition run := run executeSQL resetDB easy.

End Sample.

(** * Properties *)

(** ** Equality of strings *)

Lemma eqb_spec (a b : jsstring) : reflect (a = b) (JS.eqb a b).
Proof.
  revert b; induction a as [|x a IH]; destruct b as [|y b]; simpl;
    try (constructor; congruence).
  destruct (N.eqb_spec x y) as [->|Hne]; simpl.
  - destruct (IH b) as [->|Hne]; constructor; congruence.
  - constructor; congruence.
Qed.

Lemma eqb_refl (a : jsstring) : JS.eqb a a = true.
Proof. destruct (eqb_spec a a); congruence. Qed.

Lemma eqb_eq (a b : jsstring) : JS.eqb a b = true <-> a = b.
Proof. destruct (eqb_spec a b); split; congruence. Qed.

Lemma eqb_neq (a b : jsstring) : JS.eqb a b = false <-> a <> b.
Proof. destruct (eqb_spec a b); split; congruence. Qed.

(** ** Statement completeness *)

(** The three ways a text is complete without a terminator. *)
Definition isSpecialCommand (text : jsstring) : bool :=
  existsb (fun cmd => JS.eqb (toLowerCase (trim text)) cmd) specialCommands.

Definition isDescribe (text : jsstring) : bool :=
  startsWith (toLowerCase (trim text)) (js "desc ")
  || startsWith (toLowerCase (trim text)) (js "describe ").

Definition isTranslatable (text : jsstring) : bool :=
  existsb (fun mapping => test (m_pattern mapping) (trim text)) vietnameseToSQL.

Lemma isCommandComplete_cases (text : jsstring) :
  isCommandComplete text =
  isSpecialCommand text || isDescribe text || isTranslatable text
  || endsWith (trim text) (js ";").
Proof.
  unfold isCommandComplete, isSpecialCommand, isDescribe, isTranslatable.
  destruct (existsb _ specialCommands); [reflexivity|].
  destruct (startsWith _ (js "desc ") || startsWith _ (js "describe "));
    [reflexivity|].
  destruct (existsb _ vietnameseToSQL); reflexivity.
Qed.

(** C4.  A text whose trimmed form ends in [;] is complete; a text that
    does not end in [;], is no bare special command, has no [desc] or
    [describe] prefix and matches no translation rule is not complete. *)
Theorem isCommandComplete_terminator (text : jsstring) :
  (endsWith (trim text) (js ";") = true -> isCommandComplete text = true) /\
  (endsWith (trim text) (js ";") = false ->
   isSpecialCommand text = false ->
   isDescribe text = false ->
   isTranslatable text = false ->
   isCommandComplete text = false).
Proof.
  rewrite isCommandComplete_cases; split.
  - intros ->. now rewrite !orb_true_r.
  - intros -> -> -> ->. reflexivity.
Qed.

Lemma isCommandComplete_terminator_witness :
  isCommandComplete (js "SELECT * FROM students WHERE age > 20;  ") = true /\
  isCommandComplete (js "SELECT * FROM students") = false.
Proof.
  split.
  - apply (proj1 (isCommandComplete_terminator _)). vm_compute; reflexivity.
  - apply (proj2 (isCommandComplete_terminator _)); vm_compute; reflexivity.
Defined.

(** ** Typo correction *)

(** No correction pattern occurs in the text. *)
Definition noTypoLeft (sql : jsstring) : bool :=
  forallb (fun c => negb (test (c_pattern c) sql)) sqlCorrections.

Lemma fixWith_clean (rules : list Correction) (sql : jsstring) (cs : list jsstring) :
  forallb (fun c => negb (test (c_pattern c) sql)) rules = true ->
  fixWith rules (sql, cs) = (sql, cs).
Proof.
  induction rules as [|c rules IH]; simpl; [reflexivity|].
  intros H. apply andb_prop in H as [Hc Hrules].
  apply negb_true_iff in Hc. rewrite Hc. now apply IH.
Qed.

Lemma fixWith_grows (rules : list Correction) (acc : jsstring * list jsstring) :
  (List.length (snd acc) <= List.length (snd (fixWith rules acc)))%nat.
Proof.
  revert acc; induction rules as [|c rules IH]; intros [sql cs]; simpl; [lia|].
  destruct (test (c_pattern c) sql).
  - etransitivity; [|apply IH]. simpl. rewrite length_app. simpl. lia.
  - apply (IH (sql, cs)).
Qed.

Lemma fixWith_fires (rules : list Correction) (sql : jsstring) (cs : list jsstring) :
  forallb (fun c => negb (test (c_pattern c) sql)) rules = false ->
  (List.length cs < List.length (snd (fixWith rules (sql, cs))))%nat.
Proof.
  induction rules as [|c rules IH]; simpl; [discriminate|].
  destruct (test (c_pattern c) sql) eqn:Hc; simpl.
  - intros _.
    eapply Nat.lt_le_trans; [|apply fixWith_grows]. simpl.
    rewrite length_app. simpl. lia.
  - apply IH.
Qed.

(** C6 as stated fails: correcting [JIONSET] gives [JOINSET], in which
    the replacement has completed the misspelling [INSET]; a second run
    changes the text again and reports a correction. *)
Lemma fixSQLTypos_not_idempotent :
  fixSQLTypos (js "JIONSET") = (js "JOINSET", [js "Sửa lỗi: JION → JOIN"]) /\
  fixSQLTypos (js "JOINSET") = (js "JOINSERT", [js "Sửa lỗi: INSET → INSERT"]) /\
  fixSQLTypos (fst (fixSQLTypos (js "JIONSET")))
  <> (fst (fixSQLTypos (js "JIONSET")), []).
Proof.
  repeat split; try (vm_compute; reflexivity).
  vm_compute. discriminate.
Qed.

(** ** Translation *)

(** Positional substitution as the specification words it: every
    placeholder [$i] of the template stands for group [i], all at once.
    The templates use one digit. *)
Fixpoint substitutePositional (tpl : jsstring) (gs : list jsstring) : jsstring :=
  match tpl with
  | [] => []
  | c :: t =>
      if c =? 36 then
        match t with
        | d :: t' =>
            if (49 <=? d) && (d <=? 57) then
              nth (N.to_nat (d - 49)) gs [] ++ substitutePositional t' gs
            else c :: substitutePositional t gs
        | [] => [c]
        end
      else c :: substitutePositional t gs
  end.

(** The first rule, in declared order, whose pattern matches. *)
Fixpoint firstMatch (rules : list Mapping) (text : jsstring)
  : option (Mapping * list (option jsstring)) :=
  match rules with
  | [] => None
  | mapping :: rules' =>
      match matchArray (m_pattern mapping) text with
      | Some mt => Some (mapping, tl mt)
      | None => firstMatch rules' text
      end
  end.

Lemma firstMatch_none (rules : list Mapping) (text : jsstring) :
  firstMatch rules text = None <->
  forallb (fun mapping => negb (test (m_pattern mapping) text)) rules = true.
Proof.
  induction rules as [|mapping rules IH]; simpl; [tauto|].
  unfold test, matchArray.
  destruct (exec (m_pattern mapping) text); simpl; [split; discriminate|exact IH].
Qed.

Lemma convertWith_firstMatch (rules : list Mapping) (text : jsstring) :
  convertWith rules text =
  match firstMatch rules text with
  | Some (mapping, gs) => Some (substituteGroups (template mapping) 1%Z gs ++ js ";")
  | None => None
  end.
Proof.
  induction rules as [|mapping rules IH]; simpl; [reflexivity|].
  destruct (matchArray (m_pattern mapping) text); [reflexivity|exact IH].
Qed.

(** C7, the part that holds: the example of the specification, the
    choice of the first matching rule, and the pass-through of a text
    that matches no rule. *)
Lemma convert_first_match_and_pass_through :
  convertVietnameseToSQL (js "lấy tất cả từ products")
  = Some (js "SELECT * FROM products;") /\
  (forall text mapping gs,
     firstMatch vietnameseToSQL text = Some (mapping, gs) ->
     convertVietnameseToSQL text
     = Some (substituteGroups (template mapping) 1%Z gs ++ js ";")) /\
  (forall text,
     forallb (fun mapping => negb (test (m_pattern mapping) text)) vietnameseToSQL
     = true ->
     convertVietnameseToSQL text = None).
Proof.
  split; [vm_compute; reflexivity|]. split.
  - intros text mapping gs H. unfold convertVietnameseToSQL.
    now rewrite convertWith_firstMatch, H.
  - intros text H. unfold convertVietnameseToSQL.
    apply firstMatch_none in H. now rewrite convertWith_firstMatch, H.
Qed.

(** C7, where the code departs from it.  On [tìm $& trong t với x] the
    fifth rule matches with the groups [$&], [t] and [x]; positional
    substitution into its template is [SELECT $& FROM t WHERE x;], but
    the code's [replace] reads [$&] in the captured text as "the matched
    placeholder" and leaves [$1] in place.  On [tìm $2 trong t với x]
    the text put in for [$1] is itself taken for the second
    placeholder. *)
Theorem convert_dollar_in_group :
  firstMatch vietnameseToSQL (js "tìm $& trong t với x")
  = Some (nth 4 vietnameseToSQL (mkMapping (re_i Eps) []),
          [Some (js "$&"); Some (js "t"); Some (js "x")]) /\
  substitutePositional (js "SELECT $1 FROM $2 WHERE $3") [js "$&"; js "t"; js "x"]
  ++ js ";" = js "SELECT $& FROM t WHERE x;" /\
  convertVietnameseToSQL (js "tìm $& trong t với x")
  = Some (js "SELECT $1 FROM t WHERE x;") /\
  substitutePositional (js "SELECT $1 FROM $2 WHERE $3") [js "$2"; js "t"; js "x"]
  ++ js ";" = js "SELECT $2 FROM t WHERE x;" /\
  convertVietnameseToSQL (js "tìm $2 trong t với x")
  = Some (js "SELECT t FROM $2 WHERE x;").
Proof. repeat split; vm_compute; reflexivity. Qed.

(** ** Translation without [$] in the captured text *)

Lemma length_setNth (A : Type) (n : nat) (v : A) (l : list A) :
  List.length (setNth n v l) = List.length l.
Proof.
  revert n; induction l as [|a l IH]; intros [|n]; simpl; auto.
Qed.

Lemma length_clearCaptures (gs : list nat) (x : MatchState) :
  List.length (captures (clearCaptures gs x)) = List.length (captures x).
Proof.
  induction gs as [|n gs IH]; simpl; [reflexivity|].
  now rewrite length_setNth.
Qed.

(** The matcher hands its continuation a state with as many groups as
    it started with. *)
Definition keepsGroups (mr : MatchState -> MatcherContinuation -> option MatchState)
  : Prop :=
  forall x k z, mr x k = Some z ->
    exists y, k y = Some z /\
              List.length (captures y) = List.length (captures x).

Lemma charMatcher_keepsGroups (p : N -> bool) : keepsGroups (charMatcher p).
Proof.
  intros x k z. unfold charMatcher. destruct (rest x) as [|ch s']; [discriminate|].
  destruct (p ch); [|discriminate]. intros H. eexists. split; [exact H|reflexivity].
Qed.

Lemma repeatMatcher_keepsGroups
    (mr : MatchState -> MatcherContinuation -> option MatchState)
    (gs : list nat) (greedy : bool) (c : MatcherContinuation) :
  keepsGroups mr ->
  forall fuel min max x z,
    repeatMatcher mr gs min max greedy c fuel x = Some z ->
    exists y, c y = Some z /\
              List.length (captures y) = List.length (captures x).
Proof.
  intros Hmr. induction fuel as [|fuel IH]; intros min max x z.
  - simpl. destruct max as [[|m]|]; intros H; exists x; auto.
  - cbn [repeatMatcher].
    assert (Stop : c x = Some z ->
              exists y, c y = Some z
                        /\ List.length (captures y) = List.length (captures x))
      by (intros H; exists x; auto).
    assert (Go : forall max',
              mr (clearCaptures gs x)
                 (fun y => if Nat.eqb min 0 && Nat.eqb (endIndex y) (endIndex x)
                           then None
                           else repeatMatcher mr gs (pred min) max' greedy c fuel y)
              = Some z ->
              exists y, c y = Some z
                        /\ List.length (captures y) = List.length (captures x)).
    { intros max' H. apply Hmr in H as (y1 & H & L1).
      destruct (Nat.eqb min 0 && Nat.eqb (endIndex y1) (endIndex x)); [discriminate|].
      apply IH in H as (y & H & L). exists y. split; [exact H|].
      rewrite L, L1. apply length_clearCaptures. }
    destruct max as [[|m]|]; [exact Stop| |];
      (destruct (negb (Nat.eqb min 0)); [apply Go|]);
      (destruct greedy; unfold orElse;
       [ match goal with
         | |- context [match ?a with Some _ => _ | None => _ end] =>
             destruct a eqn:E; [intros [= <-]; now apply (Go _ E)|exact Stop]
         end
       | destruct (c x) eqn:E; [intros [= <-]; now apply Stop|apply Go] ]).
Qed.

Lemma matcher_keepsGroups (ic : bool) (r : regex) : keepsGroups (matcher ic r).
Proof.
  induction r as [|c| | | |cs|r1 IH1 r2 IH2|r1 IH1 r2 IH2|min max greedy r1 IH1
                  |n r1 IH1| | |r1 IH1]; intros x k z; cbn [matcher].
  - intros H. exists x. auto.
  - apply charMatcher_keepsGroups.
  - apply charMatcher_keepsGroups.
  - apply charMatcher_keepsGroups.
  - apply charMatcher_keepsGroups.
  - apply charMatcher_keepsGroups.
  - intros H. apply IH1 in H as (y1 & H & L1). apply IH2 in H as (y & H & L).
    exists y. split; [exact H|congruence].
  - unfold orElse. destruct (matcher ic r1 x k) eqn:E.
    + intros [= <-]. now apply IH1.
    + apply IH2.
  - now apply repeatMatcher_keepsGroups.
  - intros H. apply IH1 in H as (y1 & H & L1). eexists. split; [exact H|].
    cbn. rewrite length_setNth. exact L1.
  - destruct (Nat.eqb (endIndex x) 0); [|discriminate]. intros H. exists x. auto.
  - destruct (rest x); [|discriminate]. intros H. exists x. auto.
  - destruct (matcher ic r1 x _); [discriminate|]. intros H. exists x. auto.
Qed.

Lemma searchFrom_groups (R : RegExp) (s : jsstring) (i : nat) (mt : Match) :
  searchFrom R i s = Some mt -> List.length (groups mt) = ngroups R.
Proof.
  revert i; induction s as [|c s IH]; intros i; cbn [searchFrom];
    destruct (matchAt R i _) as [y|] eqn:E;
    try discriminate; try apply IH;
    intros [= <-]; cbn [groups];
    unfold matchAt in E; apply matcher_keepsGroups in E as (y' & [= ->] & L);
    rewrite L; cbn; apply repeat_length.
Qed.

Lemma firstMatch_in (rules : list Mapping) (text : jsstring) (mapping : Mapping)
    (gs : list (option jsstring)) :
  firstMatch rules text = Some (mapping, gs) ->
  In mapping rules /\ List.length gs = ngroups (m_pattern mapping).
Proof.
  induction rules as [|m rules IH]; simpl; [discriminate|].
  unfold matchArray, exec. destruct (searchFrom (m_pattern m) 0 text) as [mt|] eqn:E.
  - intros [= <- <-]. split; [now left|]. cbn [tl].
    now apply searchFrom_groups in E.
  - intros H. apply IH in H as [H L]. split; [now right|exact L].
Qed.

(** A text without [$]. *)
Definition plain (t : jsstring) : bool := forallb (fun c => negb (c =? 36)) t.

(** No placeholder [$d] in [a], and no [$] at its end. *)
Fixpoint noPlaceholder (d : N) (a : jsstring) : bool :=
  match a with
  | [] => true
  | c :: a' =>
      negb ((c =? 36) && match a' with
                         | c' :: _ => c' =? d
                         | [] => true
                         end)
      && noPlaceholder d a'
  end.

Lemma plain_noPlaceholder (d : N) (a : jsstring) :
  plain a = true -> noPlaceholder d a = true.
Proof.
  induction a as [|c a IH]; simpl; [reflexivity|]. intros H.
  apply andb_prop in H as [Hc Ha]. apply negb_true_iff in Hc.
  rewrite Hc. simpl. now apply IH.
Qed.

Lemma noPlaceholder_app (d : N) (u v : jsstring) :
  noPlaceholder d u = true -> noPlaceholder d v = true ->
  noPlaceholder d (u ++ v) = true.
Proof.
  intros Hu Hv. induction u as [|c u IH]; [exact Hv|].
  cbn [app noPlaceholder] in *. apply andb_prop in Hu as [Hc Hu].
  rewrite (IH Hu), andb_true_r.
  destruct (c =? 36); [|reflexivity]. cbn [andb] in *.
  destruct u as [|c' u]; [discriminate|exact Hc].
Qed.

Lemma getSubstitution_plain (m b a t : jsstring) :
  plain t = true -> getSubstitution m b a t = t.
Proof.
  induction t as [|c t IH]; simpl; [reflexivity|]. intros H.
  apply andb_prop in H as [Hc Ht]. apply negb_true_iff in Hc.
  rewrite Hc. f_equal. now apply IH.
Qed.

Lemma indexOf_noPlaceholder (d : N) (a b : jsstring) :
  noPlaceholder d a = true ->
  indexOf (a ++ 36 :: d :: b) [36; d] = Some (List.length a).
Proof.
  induction a as [|c a IH]; intros H.
  - cbn [app indexOf startsWith List.length]. rewrite !N.eqb_refl.
    destruct b; reflexivity.
  - cbn [app indexOf noPlaceholder startsWith] in *.
    apply andb_prop in H as [Hc Ha]. rewrite (IH Ha).
    assert (E : (36 =? c) && startsWith (a ++ 36 :: d :: b) [d] = false).
    { rewrite (N.eqb_sym 36 c). destruct (c =? 36); [|reflexivity].
      cbn [andb] in *. destruct a as [|c' a]; [discriminate|].
      cbn [app startsWith]. rewrite (N.eqb_sym d c').
      apply negb_true_iff in Hc. now rewrite Hc. }
    rewrite E. reflexivity.
Qed.

(** One step of the loop: the placeholder is replaced where it stands. *)
Lemma replaceString_placeholder (d : N) (a b g : jsstring) :
  noPlaceholder d a = true ->
  plain g = true ->
  replaceString (a ++ 36 :: d :: b) [36; d] g = a ++ g ++ b.
Proof.
  intros Ha Hg. unfold replaceString. rewrite indexOf_noPlaceholder by exact Ha.
  cbv zeta. cbn [List.length]. rewrite getSubstitution_plain by exact Hg.
  rewrite firstn_app, firstn_all, Nat.sub_diag, firstn_0, app_nil_r.
  rewrite skipn_app, skipn_all2 by lia.
  replace (List.length a + 2 - List.length a)%nat with 2%nat by lia.
  reflexivity.
Qed.

Ltac plain_piece :=
  repeat first
    [ assumption
    | vm_compute; reflexivity
    | apply plain_noPlaceholder; assumption
    | match goal with
      | |- noPlaceholder _ (_ ++ _) = true => apply noPlaceholder_app
      end ].

(** The templates of the table, each with groups that hold no [$]. *)
Definition positional (tpl : jsstring) (gs : list jsstring) : Prop :=
  forallb plain gs = true ->
  substituteGroups tpl 1%Z (map (fun g => Some g) gs)
  = substitutePositional tpl gs.

Ltac split_plain :=
  unfold positional; cbn [forallb]; intros Hgs;
  repeat match goal with
         | H : _ && _ = true |- _ => apply andb_prop in H as [? ?]
         end;
  cbn [map substituteGroups toStringOpt];
  replace (js "$" ++ ofZ 1) with [36; 49] by (vm_compute; reflexivity).

Lemma template_select (g1 : jsstring) : positional (js "SELECT * FROM $1") [g1].
Proof.
  split_plain.
  replace (js "SELECT * FROM $1") with (js "SELECT * FROM " ++ 36 :: 49 :: [])
    by (vm_compute; reflexivity).
  rewrite replaceString_placeholder by plain_piece. vm_compute; reflexivity.
Qed.

Lemma template_count (g1 : jsstring) :
  positional (js "SELECT COUNT(*) FROM $1") [g1].
Proof.
  split_plain.
  replace (js "SELECT COUNT(*) FROM $1")
    with (js "SELECT COUNT(*) FROM " ++ 36 :: 49 :: [])
    by (vm_compute; reflexivity).
  rewrite replaceString_placeholder by plain_piece. vm_compute; reflexivity.
Qed.

Lemma template_where (g1 g2 g3 : jsstring) :
  positional (js "SELECT $1 FROM $2 WHERE $3") [g1; g2; g3].
Proof.
  split_plain.
  replace (js "$" ++ ofZ (1 + 1)) with [36; 50] by (vm_compute; reflexivity).
  replace (js "$" ++ ofZ (1 + 1 + 1)) with [36; 51] by (vm_compute; reflexivity).
  replace (js "SELECT $1 FROM $2 WHERE $3")
    with (js "SELECT " ++ 36 :: 49 :: js " FROM $2 WHERE $3")
    by (vm_compute; reflexivity).
  rewrite replaceString_placeholder by plain_piece.
  replace (js " FROM $2 WHERE $3") with (js " FROM " ++ 36 :: 50 :: js " WHERE $3")
    by (vm_compute; reflexivity).
  rewrite (app_assoc g1), (app_assoc (js "SELECT ")).
  rewrite replaceString_placeholder by plain_piece.
  replace (js " WHERE $3") with (js " WHERE " ++ 36 :: 51 :: [])
    by (vm_compute; reflexivity).
  rewrite (app_assoc g2), (app_assoc _ (g2 ++ _)).
  rewrite replaceString_placeholder by plain_piece.
  rewrite <- !app_assoc. vm_compute; reflexivity.
Qed.

Lemma template_order_asc (g1 g2 : jsstring) :
  positional (js "SELECT * FROM $1 ORDER BY $2 ASC") [g1; g2].
Proof.
  split_plain.
  replace (js "$" ++ ofZ (1 + 1)) with [36; 50] by (vm_compute; reflexivity).
  replace (js "SELECT * FROM $1 ORDER BY $2 ASC")
    with (js "SELECT * FROM " ++ 36 :: 49 :: js " ORDER BY $2 ASC")
    by (vm_compute; reflexivity).
  rewrite replaceString_placeholder by plain_piece.
  replace (js " ORDER BY $2 ASC")
    with (js " ORDER BY " ++ 36 :: 50 :: js " ASC")
    by (vm_compute; reflexivity).
  rewrite (app_assoc g1), (app_assoc (js "SELECT * FROM ")).
  rewrite replaceString_placeholder by plain_piece.
  rewrite <- !app_assoc. vm_compute; reflexivity.
Qed.

Lemma template_order_desc (g1 g2 : jsstring) :
  positional (js "SELECT * FROM $1 ORDER BY $2 DESC") [g1; g2].
Proof.
  split_plain.
  replace (js "$" ++ ofZ (1 + 1)) with [36; 50] by (vm_compute; reflexivity).
  replace (js "SELECT * FROM $1 ORDER BY $2 DESC")
    with (js "SELECT * FROM " ++ 36 :: 49 :: js " ORDER BY $2 DESC")
    by (vm_compute; reflexivity).
  rewrite replaceString_placeholder by plain_piece.
  replace (js " ORDER BY $2 DESC")
    with (js " ORDER BY " ++ 36 :: 50 :: js " DESC")
    by (vm_compute; reflexivity).
  rewrite (app_assoc g1), (app_assoc (js "SELECT * FROM ")).
  rewrite replaceString_placeholder by plain_piece.
  rewrite <- !app_assoc. vm_compute; reflexivity.
Qed.

Lemma template_insert (g1 g2 : jsstring) :
  positional (js "INSERT INTO $2 VALUES ($1)") [g1; g2].
Proof.
  split_plain.
  replace (js "$" ++ ofZ (1 + 1)) with [36; 50] by (vm_compute; reflexivity).
  replace (js "INSERT INTO $2 VALUES ($1)")
    with (js "INSERT INTO $2 VALUES (" ++ 36 :: 49 :: js ")")
    by (vm_compute; reflexivity).
  rewrite replaceString_placeholder by plain_piece.
  replace (js "INSERT INTO $2 VALUES (" ++ g1 ++ js ")")
    with (js "INSERT INTO " ++ 36 :: 50 :: js " VALUES (" ++ g1 ++ js ")")
    by (vm_compute; reflexivity).
  rewrite replaceString_placeholder by plain_piece. vm_compute; reflexivity.
Qed.

Lemma template_delete (g1 g2 : jsstring) :
  positional (js "DELETE FROM $1 WHERE $2") [g1; g2].
Proof.
  split_plain.
  replace (js "$" ++ ofZ (1 + 1)) with [36; 50] by (vm_compute; reflexivity).
  replace (js "DELETE FROM $1 WHERE $2")
    with (js "DELETE FROM " ++ 36 :: 49 :: js " WHERE $2")
    by (vm_compute; reflexivity).
  rewrite replaceString_placeholder by plain_piece.
  replace (js " WHERE $2") with (js " WHERE " ++ 36 :: 50 :: [])
    by (vm_compute; reflexivity).
  rewrite (app_assoc g1), (app_assoc (js "DELETE FROM ")).
  rewrite replaceString_placeholder by plain_piece.
  rewrite <- !app_assoc. vm_compute; reflexivity.
Qed.

Lemma substituteGroups_toString (os : list (option jsstring)) (tpl : jsstring)
    (i : Z) :
  substituteGroups tpl i os
  = substituteGroups tpl i (map (fun g => Some g) (map toStringOpt os)).
Proof.
  revert tpl i; induction os as [|o os IH]; intros tpl i; [reflexivity|].
  cbn [map substituteGroups toStringOpt]. apply IH.
Qed.

Lemma forallb_plain_toString (os : list (option jsstring)) :
  forallb plain (map toStringOpt os)
  = forallb (fun g => plain (toStringOpt g)) os.
Proof.
  induction os as [|o os IH]; [reflexivity|]. cbn [map forallb]. now rewrite IH.
Qed.

(** Where no captured text holds a [$], the code substitutes the
    groups of the first matching rule positionally into its template
    and appends the terminator. *)
Theorem convert_positional_without_dollar (text : jsstring) (mapping : Mapping)
    (gs : list (option jsstring)) :
  firstMatch vietnameseToSQL text = Some (mapping, gs) ->
  forallb (fun g => plain (toStringOpt g)) gs = true ->
  convertVietnameseToSQL text
  = Some (substitutePositional (template mapping) (map toStringOpt gs) ++ js ";").
Proof.
  intros Hm Hgs. unfold convertVietnameseToSQL.
  rewrite convertWith_firstMatch, Hm. f_equal. f_equal.
  apply firstMatch_in in Hm as [Hin Hlen].
  rewrite substituteGroups_toString. rewrite <- forallb_plain_toString in Hgs.
  unfold vietnameseToSQL in Hin. cbn [In] in Hin.
  repeat match type of Hin with
         | _ \/ _ => destruct Hin as [Hin|Hin]
         end;
    try contradiction; subst mapping; cbn [template];
    vm_compute in Hlen;
    repeat (destruct gs as [|? gs]; try discriminate Hlen);
    cbn [map] in *.
  - now apply template_select.
  - now apply template_count.
  - now apply template_select.
  - now apply template_select.
  - now apply template_where.
  - now apply template_order_asc.
  - now apply template_order_desc.
  - now apply template_insert.
  - now apply template_delete.
Qed.

Lemma convert_positional_without_dollar_witness :
  convertVietnameseToSQL (js "sắp xếp employees theo salary giảm dần")
  = Some (js "SELECT * FROM employees ORDER BY salary DESC;").
Proof.
  rewrite (@convert_positional_without_dollar
             (js "sắp xếp employees theo salary giảm dần")
             (nth 6 vietnameseToSQL (mkMapping (re_i Eps) []))
             [Some (js "employees"); Some (js "salary")]).
  - vm_compute; reflexivity.
  - vm_compute; reflexivity.
  - vm_compute; reflexivity.
Defined.

(** ** Table rendering *)

Lemma maxOf_floor (l : list Z) (o : Z) : (o <= maxOf l o)%Z.
Proof. induction l as [|x l IH]; simpl; lia. Qed.

Lemma maxOf_bound (l : list Z) (o x : Z) : In x l -> (x <= maxOf l o)%Z.
Proof.
  induction l as [|y l IH]; simpl; [tauto|].
  intros [->|H]; [lia|]. specialize (IH H). lia.
Qed.

Lemma maxOf_attained (l : list Z) (o : Z) : maxOf l o = o \/ In (maxOf l o) l.
Proof.
  induction l as [|y l IH]; simpl; [now left|].
  destruct (Z.max_spec y (maxOf l o)) as [[_ ->]|[_ ->]]; [|now right; left].
  destruct IH as [->|IH]; [now left|now right; right].
Qed.

Lemma nth_error_mapi (A B : Type) (f : nat -> A -> B) (l : list A) (k i : nat) :
  nth_error (mapi f k l) i = option_map (f (k + i)%nat) (nth_error l i).
Proof.
  revert k i; induction l as [|a l IH]; intros k [|i]; simpl; try reflexivity.
  - now rewrite Nat.add_0_r.
  - rewrite IH. now rewrite Nat.add_succ_r.
Qed.

Lemma colWidths_nth (t : Table) (i : nat) :
  nth_error (colWidths t) i = option_map (colWidth t i) (nth_error (columns t) i).
Proof. unfold colWidths. now rewrite nth_error_mapi. Qed.

(** The width of a column is the greatest of its header's length, the
    lengths of its cells over all rows, and 4. *)
Lemma colWidth_is_max (t : Table) (i : nat) (col : jsstring) :
  let w := colWidth t i col in
  (len col <= w)%Z /\ (4 <= w)%Z /\
  (forall row, In row (rows t) -> (len (cellText (nth_error row i)) <= w)%Z) /\
  (w = len col \/ w = 4%Z \/
   exists row, In row (rows t) /\ w = len (cellText (nth_error row i))).
Proof.
  unfold colWidth. cbv zeta.
  set (lens := map (fun row => len (cellText (nth_error row i))) (rows t)).
  pose proof (maxOf_floor lens (Z.max (len col) 4)) as Hf.
  repeat split; try lia.
  - intros row Hrow. apply maxOf_bound. unfold lens.
    apply (in_map (fun row => len (cellText (nth_error row i)))), Hrow.
  - destruct (maxOf_attained lens (Z.max (len col) 4)) as [->|Hin].
    + destruct (Z.max_spec (len col) 4) as [[_ ->]|[_ ->]]; tauto.
    + right; right. unfold lens in Hin at 2. apply in_map_iff in Hin.
      destruct Hin as [row [Hw Hrow]]. exists row. split; [exact Hrow|].
      symmetry. exact Hw.
Qed.


Lemma renderTable_example :
  let r := renderTable Sample.students in
  top r = js "+------+------+" /\
  head r = js "| id   | name |" /\
  body r = [js "| 1    | Ann  |"; js "| 2    | NULL |"] /\
  bottom r = js "+------+------+" /\
  more r = None.
Proof. repeat split; vm_compute; reflexivity. Qed.

(** ** Anchored danger patterns *)

(** [w] is a prefix of [t] up to case. *)
Fixpoint prefixCI (w t : jsstring) : Prop :=
  match w, t with
  | [], _ => True
  | c :: w', ch :: t' =>
      canonicalize true ch = canonicalize true c /\ prefixCI w' t'
  | _ :: _, [] => False
  end.

Lemma matcher_Chr (ic : bool) (c : N) (x : MatchState) (k : MatcherContinuation)
    (z : MatchState) :
  matcher ic (Chr c) x k = Some z ->
  exists ch s', rest x = ch :: s' /\
    canonicalize ic ch = canonicalize ic c /\
    k (mkMatchState (S (endIndex x)) s' (captures x)) = Some z.
Proof.
  simpl. unfold charMatcher. destruct (rest x) as [|ch s']; [discriminate|].
  destruct (N.eqb_spec (canonicalize ic ch) (canonicalize ic c)); [|discriminate].
  intros H. now exists ch, s'.
Qed.

Lemma matcher_word (w : jsstring) (x : MatchState) (k : MatcherContinuation)
    (z : MatchState) :
  matcher true (word w) x k = Some z -> prefixCI w (rest x).
Proof.
  revert x k. induction w as [|c w IH]; intros x k; [simpl; trivial|].
  destruct w as [|c' w].
  - intros H. apply matcher_Chr in H as (ch & s' & -> & Hc & _). simpl. tauto.
  - change (word (c :: c' :: w)) with (Cat (Chr c) (word (c' :: w))).
    cbn [matcher]. intros H.
    apply matcher_Chr in H as (ch & s' & Hx & Hc & H).
    apply IH in H. rewrite Hx. simpl in *. tauto.
Qed.

Lemma searchFrom_anchored (r : regex) (ic g : bool) (n i : nat) (s : jsstring) :
  searchFrom (mkRegExp (Cat Bol r) ic g n) (S i) s = None.
Proof.
  revert i; induction s as [|c s IH]; intros i; simpl; [reflexivity|apply IH].
Qed.

Lemma test_anchored_word (w : jsstring) (r : regex) (g : bool) (n : nat)
    (t : jsstring) :
  test (mkRegExp (Cat Bol (Cat (word w) r)) true g n) t = true -> prefixCI w t.
Proof.
  unfold test, exec. destruct t as [|c t]; cbn [searchFrom].
  - unfold matchAt. cbn [matcher pattern ignoreCase endIndex Nat.eqb].
    destruct (matcher true (word w) _ _) eqn:E; [|discriminate].
    intros _. now apply matcher_word in E.
  - unfold matchAt. cbn [matcher pattern ignoreCase endIndex Nat.eqb].
    destruct (matcher true (word w) _ _) eqn:E.
    + intros _. now apply matcher_word in E.
    + now rewrite searchFrom_anchored.
Qed.

Ltac no_eq := apply N.eqb_neq; lia.
Ltac no_le := apply N.leb_gt; lia.

(** The case mappings below 128 are those of ASCII. *)
Lemma upperUnit_ascii (ch : N) :
  ch < 128 ->
  upperUnit ch = if (97 <=? ch) && (ch <=? 122) then ch - 32 else ch.
Proof.
  intros H. unfold upperUnit.
  destruct ((97 <=? ch) && (ch <=? 122)); [reflexivity|].
  replace (ch =? 181) with false by (symmetry; no_eq).
  replace (224 <=? ch) with false by (symmetry; no_le).
  replace (ch =? 255) with false by (symmetry; no_eq).
  replace (ch =? 259) with false by (symmetry; no_eq).
  replace (ch =? 273) with false by (symmetry; no_eq).
  replace (ch =? 297) with false by (symmetry; no_eq).
  replace (ch =? 361) with false by (symmetry; no_eq).
  replace (ch =? 417) with false by (symmetry; no_eq).
  replace (ch =? 432) with false by (symmetry; no_eq).
  replace (7681 <=? ch) with false by (symmetry; no_le).
  replace (7841 <=? ch) with false by (symmetry; no_le).
  reflexivity.
Qed.

Lemma lowerFull_ascii (ch : N) :
  ch < 128 ->
  lowerFull ch = [if (65 <=? ch) && (ch <=? 90) then ch + 32 else ch].
Proof.
  intros H. unfold lowerFull, lowerUnit.
  replace (ch =? 304) with false by (symmetry; no_eq).
  destruct ((65 <=? ch) && (ch <=? 90)); [reflexivity|].
  replace (192 <=? ch) with false by (symmetry; no_le).
  replace (ch =? 376) with false by (symmetry; no_eq).
  replace (ch =? 258) with false by (symmetry; no_eq).
  replace (ch =? 272) with false by (symmetry; no_eq).
  replace (ch =? 296) with false by (symmetry; no_eq).
  replace (ch =? 360) with false by (symmetry; no_eq).
  replace (ch =? 416) with false by (symmetry; no_eq).
  replace (ch =? 431) with false by (symmetry; no_eq).
  replace (7680 <=? ch) with false by (symmetry; no_le).
  replace (7840 <=? ch) with false by (symmetry; no_le).
  replace (ch =? 7838) with false by (symmetry; no_eq).
  replace (ch =? 8490) with false by (symmetry; no_eq).
  replace (ch =? 8491) with false by (symmetry; no_eq).
  reflexivity.
Qed.

(** With the [i] flag a unit below 128 is matched by units below 128
    only. *)
Lemma canonicalize_ascii (ch : N) :
  canonicalize true ch < 128 -> ch < 128.
Proof.
  unfold canonicalize.
  destruct (N.leb_spec 128 ch) as [Hge|Hlt]; [|intros _; exact Hlt].
  cbn [andb]. destruct (N.ltb_spec (upperUnit ch) 128); lia.
Qed.

(** Up to case, an upper-case ASCII letter is matched by itself and by
    its lower-case form only; both are lower-cased to the latter. *)
Lemma canonicalize_letter (ch c : N) :
  65 <= c <= 90 ->
  canonicalize true ch = canonicalize true c ->
  lowerFull ch = [c + 32].
Proof.
  intros Hc.
  assert (Ec : canonicalize true c = c).
  { unfold canonicalize. rewrite upperUnit_ascii by lia.
    replace (97 <=? c) with false by (symmetry; no_le).
    replace (128 <=? c) with false by (symmetry; no_le). reflexivity. }
  rewrite Ec. intros E.
  assert (Hch : ch < 128) by (apply canonicalize_ascii; lia).
  rewrite lowerFull_ascii by exact Hch.
  unfold canonicalize in E. rewrite upperUnit_ascii in E by exact Hch.
  replace (128 <=? ch) with false in E by (symmetry; no_le). cbn [andb] in E.
  destruct (N.leb_spec 97 ch), (N.leb_spec ch 122), (N.leb_spec 65 ch),
    (N.leb_spec ch 90); cbn [andb] in *; f_equal; lia.
Qed.

Lemma toLowerCase_cons (c : N) (t : jsstring) :
  toLowerCase (c :: t) = lowerFull c ++ toLowerCase t.
Proof. reflexivity. Qed.

Lemma prefixCI_lower (w t : jsstring) :
  Forall (fun c => 65 <= c <= 90) w ->
  prefixCI w t ->
  exists l, toLowerCase t = map (fun c => c + 32) w ++ l.
Proof.
  revert t; induction w as [|c w IH]; intros t Hw H.
  - now exists (toLowerCase t).
  - destruct t as [|ch t]; [contradiction|]. destruct H as [Hc H].
    inversion Hw as [|? ? Hc' Hw']; subst.
    destruct (IH t Hw' H) as [l El]. exists l.
    rewrite toLowerCase_cons, El, (@canonicalize_letter ch c Hc' Hc). reflexivity.
Qed.

(** A line is a console command when [special] handles it. *)
Definition isBuiltin (lowerSQL : jsstring) : bool :=
  JS.eqb lowerSQL (js "help") || JS.eqb lowerSQL (js "clear")
  || JS.eqb lowerSQL (js "reset") || JS.eqb lowerSQL (js "tables")
  || startsWith lowerSQL (js "desc ") || startsWith lowerSQL (js "describe ")
  || JS.eqb lowerSQL (js "ai on") || JS.eqb lowerSQL (js "ai off")
  || JS.eqb lowerSQL (js "learn on") || JS.eqb lowerSQL (js "learn off").

(** The high-severity patterns start with [DROP], [DELETE] or
    [TRUNCATE]. *)
Lemma high_prefix (sql : jsstring) (d : DangerousCommand) :
  checkDangerousCommand sql = Some d ->
  level d = high ->
  prefixCI (js "DROP") (trim sql) \/ prefixCI (js "DELETE") (trim sql)
  \/ prefixCI (js "TRUNCATE") (trim sql).
Proof.
  unfold checkDangerousCommand, dangerousCommands. cbn [checkWith d_pattern].
  repeat match goal with
         | |- context [if test ?R ?t then _ else _] =>
             let E := fresh "E" in
             destruct (test R t) eqn:E;
             [ first
                 [ intros _ _; left;
                   exact (@test_anchored_word (js "DROP") _ _ _ _ E)
                 | intros _ _; right; left;
                   exact (@test_anchored_word (js "DELETE") _ _ _ _ E)
                 | intros _ _; right; right;
                   exact (@test_anchored_word (js "TRUNCATE") _ _ _ _ E)
                 | intros [= <-]; discriminate ]
             | clear E ]
         end.
  discriminate.
Qed.

(** A statement of high severity is no console command and no yes/no
    answer. *)
Lemma high_not_command (sql : jsstring) (d : DangerousCommand) :
  checkDangerousCommand sql = Some d ->
  level d = high ->
  isBuiltin (toLowerCase (trim sql)) = false /\
  JS.eqb (toLowerCase (trim sql)) (js "yes") = false /\
  JS.eqb (toLowerCase (trim sql)) (js "y") = false /\
  JS.eqb (toLowerCase (trim sql)) (js "no") = false /\
  JS.eqb (toLowerCase (trim sql)) (js "n") = false.
Proof.
  intros Hd Hl.
  assert (Hup : forall w, forallb (fun c => (65 <=? c) && (c <=? 90)) w = true ->
                          Forall (fun c => 65 <= c <= 90) w).
  { intros w Hw. apply Forall_forall. intros c Hc.
    rewrite forallb_forall in Hw. specialize (Hw c Hc).
    apply andb_prop in Hw as [H1 H2].
    apply N.leb_le in H1. apply N.leb_le in H2. lia. }
  destruct (@high_prefix sql d Hd Hl) as [H|[H|H]];
    apply prefixCI_lower in H; try (apply Hup; vm_compute; reflexivity);
    destruct H as [l ->]; repeat split; vm_compute; reflexivity.
Qed.

(** ** The console's state machine *)

Section ConsoleProperties.

Variable DB : Type.
Variable executeSQL : jsstring -> DB -> SQLResult * DB.
Variable resetDB : DB -> DB.
Variable mode : Mode.

Local Abbreviation run_sql := (runSQL executeSQL mode).
Local Abbreviation execute := (executeCommand executeSQL resetDB mode).
Local Abbreviation process := (processSQL executeSQL mode).
Local Abbreviation confirm := (confirmation executeSQL mode).
Local Abbreviation special_ := (special resetDB).
Local Abbreviation submit_ := (submit executeSQL resetDB mode).
Local Abbreviation key_down := (handleKeyDown executeSQL resetDB mode).
Local Abbreviation step_ := (step executeSQL resetDB mode).
Local Abbreviation run_ := (run executeSQL resetDB mode).
Local Abbreviation type_line := (typeLine executeSQL resetDB mode).

(** [s'] has the transcript of [s] followed by entries whose types
    satisfy [P]. *)
Definition appended (P : EntryType -> Prop) (s s' : State DB) : Prop :=
  exists new, history s' = history s ++ new /\ Forall (fun e => P (type e)) new.

Lemma appended_refl (P : EntryType -> Prop) (s s' : State DB) :
  history s' = history s -> appended P s s'.
Proof. intros H. exists []. rewrite app_nil_r. auto. Qed.

Lemma appended_trans (P : EntryType -> Prop) (s1 s2 s3 : State DB) :
  appended P s1 s2 -> appended P s2 s3 -> appended P s1 s3.
Proof.
  intros [n1 [H1 F1]] [n2 [H2 F2]]. exists (n1 ++ n2).
  rewrite H2, H1, app_assoc. split; [reflexivity|]. apply Forall_app; auto.
Qed.

Lemma appended_weaken (P Q : EntryType -> Prop) (s s' : State DB) :
  (forall t, P t -> Q t) -> appended P s s' -> appended Q s s'.
Proof.
  intros HPQ [n [H F]]. exists n. split; [exact H|].
  eapply Forall_impl; [|exact F]. intros e. apply HPQ.
Qed.

Lemma appended_addEntry (P : EntryType -> Prop) (t : EntryType) (c : jsstring)
    (tb : option Table) (s : State DB) :
  P t -> appended P s (addEntryWith t c tb s).
Proof. intros H. exists [mkEntry (idCounter s) t c tb]. simpl. auto. Qed.

(** The fields [runSQL] and [addEntry] leave alone. *)
Definition sameInput (s s' : State DB) : Prop :=
  buffer s' = buffer s /\ currentLine s' = currentLine s /\
  commandHistory s' = commandHistory s /\ historyIndex s' = historyIndex s /\
  aiEnabled s' = aiEnabled s /\ learningMode s' = learningMode s /\
  pendingDangerousCommand s' = pendingDangerousCommand s.

Lemma sameInput_refl (s : State DB) : sameInput s s.
Proof. repeat split. Qed.

Lemma sameInput_trans (s1 s2 s3 : State DB) :
  sameInput s1 s2 -> sameInput s2 s3 -> sameInput s1 s3.
Proof.
  unfold sameInput. intros (?&?&?&?&?&?&?) (?&?&?&?&?&?&?).
  repeat split; congruence.
Qed.

Ltac proj :=
  cbn [buffer currentLine history commandHistory historyIndex aiEnabled
       learningMode showSettings pendingDangerousCommand isMultiLine idCounter
       db calls clearInput setIsMultiLine setCurrentLine setBuffer setHistory
       setCommandHistory setHistoryIndex setAiEnabled setLearningMode
       setShowSettings setPendingDangerousCommand addEntry addEntryWith
       callReset remember].

Ltac break_match :=
  match goal with
  | |- context [match ?x with _ => _ end] => destruct x eqn:?
  end.

(** What [runSQL] does to the state, whatever the engine answers. *)
Lemma runSQL_frame (sql : jsstring) (s : State DB) :
  let s' := run_sql sql s in
  calls s' = calls s ++ [sql] /\
  db s' = snd (executeSQL sql (db s)) /\
  sameInput s s' /\
  appended (fun t => t = Error \/ t = Ai \/ t = Result \/ t = Info) s s' /\
  (aiEnabled s = false ->
   appended (fun t => t = Error \/ t = Result \/ t = Info) s s').
Proof.
  unfold runSQL, callEngine, when, sameInput.
  destruct (executeSQL sql (db s)) as [res d]. cbv zeta.
  destruct (aiEnabled s) eqn:Hai, (learningMode s) eqn:Hlm; cbn [andb];
    repeat break_match; cbn;
    repeat split; try discriminate; try congruence;
    try (intros _);
    repeat first
      [ apply appended_refl; reflexivity
      | eapply appended_trans; [|apply appended_addEntry; tauto] ].
Qed.

(** The input line and the recall list, which only [remember] and the
    key handler write. *)
Definition sameLine (s s' : State DB) : Prop :=
  buffer s' = buffer s /\ currentLine s' = currentLine s /\
  commandHistory s' = commandHistory s /\ historyIndex s' = historyIndex s.

Lemma sameLine_trans (s1 s2 s3 : State DB) :
  sameLine s1 s2 -> sameLine s2 s3 -> sameLine s1 s3.
Proof. unfold sameLine. intros (?&?&?&?) (?&?&?&?). repeat split; congruence. Qed.

Lemma sameInput_sameLine (s s' : State DB) : sameInput s s' -> sameLine s s'.
Proof. unfold sameInput, sameLine. tauto. Qed.

Definition isHigh (sql : jsstring) : bool :=
  match checkDangerousCommand sql with
  | Some d => match level d with high => true | medium => false end
  | None => false
  end.

Lemma isHigh_truthy (sql : jsstring) : isHigh sql = true -> truthy sql = true.
Proof. destruct sql; [vm_compute; discriminate|reflexivity]. Qed.

Lemma special_none (t l : jsstring) (s : State DB) :
  isBuiltin l = false -> special_ t l s = None.
Proof.
  unfold isBuiltin, special. intros H.
  repeat (apply orb_false_iff in H; destruct H as [H ?]).
  repeat match goal with E : _ = false |- _ => rewrite E; clear E end.
  reflexivity.
Qed.

Lemma special_some (t l : jsstring) (s : State DB) :
  isBuiltin l = true -> exists r, special_ t l s = Some r.
Proof.
  unfold isBuiltin, special. intros H.
  repeat match goal with
         | |- context [if ?b then _ else _] =>
             destruct b eqn:?; [eexists; reflexivity|]
         end.
  repeat match goal with
         | E : _ || _ = false |- _ => apply orb_false_iff in E; destruct E
         end.
  repeat match goal with E : _ = false |- _ => rewrite E in H; clear E end.
  discriminate H.
Qed.

(** A console command reaches neither the engine's [executeSQL] nor the
    held statement; only [ai off] turns the AI stage off. *)
Lemma special_frame (t l : jsstring) (s s' : State DB) (b : bool) :
  special_ t l s = Some (s', b) ->
  sameLine s s' /\ calls s' = calls s /\
  pendingDangerousCommand s' = pendingDangerousCommand s /\
  (JS.eqb l (js "ai off") = false -> aiEnabled s = true -> aiEnabled s' = true).
Proof.
  unfold special, describe, sameLine.
  repeat break_match; intros [= <- <-]; cbn; repeat split; congruence.
Qed.

(** The AI stage lets a statement through only if it is not of high
    severity; a statement of high severity is held. *)
Lemma aiProcess_spec (t : jsstring) (s : State DB) :
  let r := aiProcess t s in
  sameLine s (snd r) /\ calls (snd r) = calls s /\ db (snd r) = db s /\
  aiEnabled (snd r) = aiEnabled s /\ learningMode (snd r) = learningMode s /\
  match fst r with
  | Some sql =>
      isHigh sql = false /\
      pendingDangerousCommand (snd r) = pendingDangerousCommand s
  | None => exists sql, isHigh sql = true /\ truthy sql = true /\
                        pendingDangerousCommand (snd r) = Some sql
  end.
Proof.
  unfold aiProcess, sameLine, isHigh.
  destruct (convertVietnameseToSQL t) as [converted|];
    match goal with
    | |- context [fixSQLTypos ?x] => destruct (fixSQLTypos x) as [fixed [|c cs]]
    end;
    match goal with
    | |- context [checkDangerousCommand ?x] =>
        destruct (checkDangerousCommand x) as [[p w [|]]|] eqn:E
    end; cbn; rewrite ?E; cbn; repeat split; try reflexivity;
    match goal with
    | |- exists sql, _ => eexists; rewrite E; cbn; repeat split
    end;
    apply isHigh_truthy; unfold isHigh; rewrite E; reflexivity.
Qed.

(** *** Results without rows *)

Definition queryOK (res : SQLResult) : jsstring :=
  js "Query OK, " ++ ofZ (orZero (affectedRows res)) ++ js " row(s) affected ("
  ++ ofZ (executionTime res) ++ js "ms)".

(** C10.  When the engine reports no error and the result has columns
    but no rows, [runSQL] appends the informational entry
    [Query OK, N row(s) affected (..ms)], around it at most assistant
    notes, and no tabular-result entry. *)
Theorem runSQL_columns_without_rows (sql : jsstring) (s : State DB)
    (res : SQLResult) (d : DB) :
  executeSQL sql (db s) = (res, d) ->
  errorOf res = None ->
  r_columns res <> [] ->
  r_rows res = [] ->
  exists pre post n,
    history (run_sql sql s)
    = history s ++ pre ++ [mkEntry n Info (queryOK res) None] ++ post /\
    Forall (fun e => type e = Ai) pre /\
    Forall (fun e => type e = Ai) post /\
    Forall (fun e => type e <> Result) (pre ++ [mkEntry n Info (queryOK res) None] ++ post).
Proof.
  intros Hexec Herr _ Hrows.
  unfold runSQL, callEngine, when, queryOK. rewrite Hexec, Herr, Hrows.
  cbn [List.length Nat.eqb negb andb]. rewrite andb_false_r.
  destruct (aiEnabled s), (learningMode s); cbn [andb];
    repeat break_match; cbn; rewrite <- ?app_assoc; cbn [app].
  all: try (eexists [], [], _; cbn; split; [reflexivity|];
            repeat split; repeat constructor; discriminate).
  all: try (eexists [_], [], _; cbn; split; [reflexivity|];
            repeat split; repeat constructor; discriminate).
  all: try (eexists [], [_], _; cbn; split; [reflexivity|];
            repeat split; repeat constructor; discriminate).
  all: try (eexists [_], [_], _; cbn; split; [reflexivity|];
            repeat split; repeat constructor; discriminate).
Qed.

(** *** The rendered table and the stored result *)


(** How [String] prints numbers: integers, a fraction, and the numbers
    from [10 ^ 21] on, which are written with an exponent. *)
Lemma numberToString_examples :
  numberToString (integer 42) = js "42" /\
  numberToString (integer (-7)) = js "-7" /\
  numberToString (Finite false 25 1) = js "2.5" /\
  numberToString (Finite false 1 (-5)) = js "0.000001" /\
  numberToString (Finite false 1 (-6)) = js "1e-7" /\
  numberToString (Finite false 1 21) = js "100000000000000000000" /\
  numberToString (Finite false 1 22) = js "1e+21" /\
  numberToString (Finite false 1152921504606847 19) = js "1152921504606847000".
Proof. repeat split; vm_compute; reflexivity. Qed.





(** *** Dispatch with the AI stage off *)

Lemma remember_frame (x : jsstring) (s : State DB) :
  let s' := remember x s in
  buffer s' = buffer s /\ currentLine s' = currentLine s /\
  history s' = history s /\ aiEnabled s' = aiEnabled s /\
  learningMode s' = learningMode s /\
  pendingDangerousCommand s' = pendingDangerousCommand s /\
  db s' = db s /\ calls s' = calls s /\ historyIndex s' = (-1)%Z /\
  commandHistory s'
  = firstn 50 (x :: filter (fun c => negb (JS.eqb c x)) (commandHistory s)).
Proof. cbn. repeat split. Qed.

(** A line that is no console command goes to the confirmation step
    and, unless it answers a held statement, to [processSQL]. *)
Lemma execute_statement (x : jsstring) (s : State DB) :
  isBuiltin (toLowerCase (trim x)) = false ->
  execute x s
  = (match confirm (toLowerCase (trim x)) (remember x s) with
     | Some s' => s'
     | None => process (trim x) (remember x s)
     end, true).
Proof.
  intros H. unfold executeCommand. cbv zeta. rewrite special_none by exact H.
  destruct (confirm _ _); reflexivity.
Qed.

Lemma confirmation_other (l : jsstring) (s : State DB) :
  isYes l = false -> isNo l = false -> confirm l s = None.
Proof.
  intros Hy Hn. unfold confirmation. rewrite Hy, Hn.
  destruct (pendingCommand s); reflexivity.
Qed.

(** C3.  With the AI stage off, a statement that matches a danger rule
    of high severity is handed to the engine at once: the call is made
    with the trimmed statement, nothing is held for confirmation and
    the entries appended are those of [runSQL], none of them a
    warning. *)
Theorem ai_off_executes_high_severity (stmt : jsstring) (d : DangerousCommand)
    (s : State DB) :
  aiEnabled s = false ->
  checkDangerousCommand stmt = Some d ->
  level d = high ->
  let s' := fst (execute stmt s) in
  calls s' = calls s ++ [trim stmt] /\
  db s' = snd (executeSQL (trim stmt) (db s)) /\
  pendingDangerousCommand s' = pendingDangerousCommand s /\
  appended (fun t => t = Error \/ t = Result \/ t = Info) s s'.
Proof.
  intros Hai Hd Hl.
  destruct (@high_not_command stmt d Hd Hl) as (Hb & Hy1 & Hy2 & Hn1 & Hn2).
  cbv zeta. rewrite execute_statement by exact Hb. cbn [fst].
  rewrite confirmation_other by (unfold isYes, isNo; rewrite ?Hy1, ?Hy2, ?Hn1, ?Hn2; reflexivity).
  unfold processSQL. cbn [aiEnabled remember setHistoryIndex setCommandHistory].
  rewrite Hai.
  destruct (runSQL_frame (trim stmt) (remember stmt s)) as (Hc & Hdb & Hin & _ & Hap).
  destruct Hin as (_&_&_&_&_&_&Hp).
  repeat split; try assumption.
  apply Hap. exact Hai.
Qed.

(** *** What a dispatch leaves alone *)

Lemma sameLine_addEntry (t : EntryType) (c : jsstring) (tb : option Table)
    (s : State DB) : sameLine s (addEntryWith t c tb s).
Proof. repeat split. Qed.

(** A yes executes the held statement, a no drops it; both empty the
    slot. *)
Lemma confirmation_frame (l : jsstring) (s s' : State DB) :
  confirm l s = Some s' ->
  sameLine s s' /\ aiEnabled s' = aiEnabled s /\
  pendingDangerousCommand s' = None /\
  exists cmd, pendingCommand s = Some cmd /\
    ((isYes l = true /\ calls s' = calls s ++ [cmd] /\
      db s' = snd (executeSQL cmd (db s))) \/
     (isYes l = false /\ isNo l = true /\ calls s' = calls s /\ db s' = db s /\
      history s' = history s ++ [mkEntry (idCounter s) Info (js "❌ Đã hủy lệnh.") None])).
Proof.
  unfold confirmation. destruct (pendingCommand s) as [cmd|]; [|discriminate].
  destruct (isYes l) eqn:Hy; [|destruct (isNo l) eqn:Hn; [|discriminate]].
  - intros [= <-].
    destruct (runSQL_frame cmd (setPendingDangerousCommand None s))
      as (Hc & Hdb & Hin & _).
    destruct Hin as (?&?&?&?&?&?&?).
    repeat split; try assumption. exists cmd. split; [reflexivity|]. left.
    repeat split; assumption.
  - intros [= <-]. repeat split. exists cmd. split; [reflexivity|]. right.
    repeat split.
Qed.

(** The slot after a statement went through [processSQL]: as before,
    or holding a statement of high severity. *)
Definition slotAfter (s s' : State DB) : Prop :=
  pendingDangerousCommand s' = pendingDangerousCommand s \/
  exists sql, isHigh sql = true /\ truthy sql = true /\
              pendingDangerousCommand s' = Some sql.

Lemma process_frame (t : jsstring) (s : State DB) :
  let s' := process t s in
  sameLine s s' /\ aiEnabled s' = aiEnabled s /\ slotAfter s s' /\
  exists l, calls s' = calls s ++ l /\
            (aiEnabled s = true -> Forall (fun c => isHigh c = false) l).
Proof.
  unfold processSQL. destruct (aiEnabled s) eqn:Hai.
  - pose proof (aiProcess_spec t s) as H. cbv zeta in H.
    destruct (aiProcess t s) as [[sql|] s1]; cbn [fst snd] in H;
      destruct H as (Hl & Hc & Hdb & Ha & Hlm & H).
    + destruct H as [Hh Hp].
      destruct (runSQL_frame sql s1) as (Hc' & _ & Hin & _).
      pose proof (sameInput_sameLine Hin) as Hl'.
      destruct Hin as (_&_&_&_&Ha'&_&Hp').
      cbv zeta. repeat split; try (eapply sameLine_trans; eassumption); try congruence.
      * left. congruence.
      * exists [sql]. split; [congruence|]. intros _. repeat constructor. exact Hh.
    + destruct H as (sql & Hh & Ht & Hp).
      cbv zeta. repeat split; try apply Hl; try congruence.
      * right. exists sql. auto.
      * exists []. rewrite app_nil_r. split; [exact Hc|]. intros _. constructor.
  - destruct (runSQL_frame t s) as (Hc & _ & Hin & _).
    pose proof (sameInput_sameLine Hin) as Hl.
    destruct Hin as (_&_&_&_&Ha&_&Hp).
    cbv zeta. repeat split; try apply Hl; try congruence.
    + left. exact Hp.
    + exists [t]. split; [exact Hc|]. intros [=].
Qed.

(** The recall list after a dispatch. *)
Definition recallList (x : jsstring) (h : list jsstring) : list jsstring :=
  firstn 50 (x :: filter (fun c => negb (JS.eqb c x)) h).

Lemma execute_line (x : jsstring) (s : State DB) :
  let s' := fst (execute x s) in
  buffer s' = buffer s /\ currentLine s' = currentLine s /\
  commandHistory s' = recallList x (commandHistory s) /\
  historyIndex s' = (-1)%Z.
Proof.
  assert (G : forall s' : State DB, sameLine (remember x s) s' ->
              buffer s' = buffer s /\ currentLine s' = currentLine s /\
              commandHistory s' = recallList x (commandHistory s) /\
              historyIndex s' = (-1)%Z).
  { intros s' (H1 & H2 & H3 & H4). rewrite H1, H2, H3, H4. repeat split. }
  cbv zeta. apply G. unfold executeCommand. cbv zeta.
  destruct (special_ _ _ _) as [[s1 b]|] eqn:Es.
  - cbn [fst]. apply (special_frame _ _ _ Es).
  - destruct (confirm _ _) as [s1|] eqn:Ec; cbn [fst].
    + apply (confirmation_frame _ _ Ec).
    + apply process_frame.
Qed.

(** *** The recall list *)

Definition differs (x : jsstring) : jsstring -> bool :=
  fun c => negb (JS.eqb c x).

Lemma differs_true (x c : jsstring) : differs x c = true <-> c <> x.
Proof. unfold differs. rewrite negb_true_iff. apply eqb_neq. Qed.

Lemma filter_differs_notin (x : jsstring) (h : list jsstring) :
  ~ In x h -> filter (differs x) h = h.
Proof.
  induction h as [|a h IH]; simpl; [reflexivity|]. intros H.
  destruct (differs x a) eqn:E.
  - f_equal. apply IH. tauto.
  - exfalso. apply H. left. unfold differs in E.
    apply negb_false_iff, eqb_eq in E. exact E.
Qed.

Lemma filter_differs_length (x : jsstring) (h : list jsstring) :
  NoDup h -> In x h -> S (List.length (filter (differs x) h)) = List.length h.
Proof.
  induction 1 as [|a h Ha Hh IH]; simpl; [tauto|]. intros [->|Hin].
  - unfold differs at 1. rewrite eqb_refl. cbn [negb].
    now rewrite filter_differs_notin.
  - assert (E : differs x a = true).
    { apply differs_true. intros ->. contradiction. }
    rewrite E. simpl. now rewrite IH.
Qed.

Lemma NoDup_firstn (A : Type) (n : nat) (l : list A) : NoDup l -> NoDup (firstn n l).
Proof.
  revert n; induction l as [|a l IH]; intros [|n] H; simpl; try constructor.
  - inversion H as [|? ? Ha Hl]; subst. intros Hin. apply Ha.
    apply (In_nth_error) in Hin. destruct Hin as [k Hk].
    rewrite <- (firstn_skipn n l). apply in_or_app. left.
    eapply nth_error_In. exact Hk.
  - inversion H; subst. now apply IH.
Qed.

Lemma NoDup_cons_filter (x : jsstring) (h : list jsstring) :
  NoDup h -> NoDup (x :: filter (differs x) h).
Proof.
  intros H. constructor.
  - rewrite filter_In. intros [_ E]. apply differs_true in E. congruence.
  - now apply NoDup_filter.
Qed.

Lemma recallList_invariant (x : jsstring) (h : list jsstring) :
  NoDup h -> NoDup (recallList x h) /\ (List.length (recallList x h) <= 50)%nat.
Proof.
  intros H. unfold recallList. split.
  - apply NoDup_firstn. now apply NoDup_cons_filter.
  - rewrite length_firstn. lia.
Qed.

(** Re-submitting a statement of the list moves it to the front. *)
Lemma recallList_move_to_front (x : jsstring) (h : list jsstring) :
  NoDup h -> (List.length h <= 50)%nat -> In x h ->
  recallList x h = x :: filter (differs x) h /\
  List.length (recallList x h) = List.length h /\
  count_occ (list_eq_dec N.eq_dec) (recallList x h) x = 1%nat.
Proof.
  intros Hnd Hlen Hin.
  pose proof (@filter_differs_length x h Hnd Hin) as Hf.
  assert (E : recallList x h = x :: filter (differs x) h).
  { unfold recallList. fold (differs x). apply firstn_all2. simpl. lia. }
  rewrite E. repeat split.
  - simpl. exact Hf.
  - simpl. destruct (list_eq_dec N.eq_dec x x) as [_|Hne]; [|congruence].
    f_equal. apply count_occ_not_In. rewrite filter_In. intros [_ Hd].
    apply differs_true in Hd. congruence.
Qed.

(** The statements of a list, each once, in the order of the list. *)
Fixpoint distinct (l : list jsstring) : list jsstring :=
  match l with
  | [] => []
  | x :: l' => x :: filter (differs x) (distinct l')
  end.

Lemma NoDup_distinct (l : list jsstring) : NoDup (distinct l).
Proof.
  induction l as [|x l IH]; simpl; [constructor|]. now apply NoDup_cons_filter.
Qed.

Lemma firstn_filter_differs (x : jsstring) (D : list jsstring) (n : nat) :
  NoDup D ->
  firstn n (filter (differs x) (firstn (S n) D)) = firstn n (filter (differs x) D).
Proof.
  intros H. revert n. induction H as [|a D Ha HD IH]; intros n; [reflexivity|].
  cbn [firstn filter]. destruct (differs x a) eqn:E.
  - destruct n as [|n]; [reflexivity|]. cbn [firstn]. f_equal. apply IH.
  - unfold differs in E. apply negb_false_iff, eqb_eq in E. subst a.
    rewrite (@filter_differs_notin x D Ha).
    assert (Hn : ~ In x (firstn n D)).
    { intros Hin. apply Ha. rewrite <- (firstn_skipn n D).
      apply in_or_app. now left. }
    rewrite (@filter_differs_notin x (firstn n D) Hn).
    rewrite firstn_firstn. now rewrite Nat.min_id.
Qed.

(** *** Events *)

(** The fields only a dispatch or a toggle can change. *)
Definition sameSession (s s' : State DB) : Prop :=
  commandHistory s' = commandHistory s /\ aiEnabled s' = aiEnabled s /\
  learningMode s' = learningMode s /\
  pendingDangerousCommand s' = pendingDangerousCommand s /\
  db s' = db s /\ calls s' = calls s.

Lemma sameSession_refl (s : State DB) : sameSession s s.
Proof. repeat split. Qed.

Lemma forEachLine_frame (b : bool) (lines : list jsstring) (i : nat) (s : State DB) :
  let s' := forEachLine b i lines s in
  sameSession s s' /\ buffer s' = buffer s /\ currentLine s' = currentLine s /\
  appended (fun t => t = Input \/ t = Continuation) s s'.
Proof.
  revert i s; induction lines as [|line lines IH]; intros i s; cbn [forEachLine].
  - repeat split. now apply appended_refl.
  - cbv zeta.
    match goal with
    | |- context [forEachLine b (S i) lines ?s1] =>
        destruct (IH (S i) s1) as ((H1&H2&H3&H4&H5&H6) & H7 & H8 & H9);
        assert (F : sameSession s s1 /\ buffer s1 = buffer s
                    /\ currentLine s1 = currentLine s
                    /\ appended (fun t => t = Input \/ t = Continuation) s s1)
    end.
    { destruct (truthy line || (b && Nat.eqb i 0)).
      - repeat split. apply appended_addEntry. destruct (Nat.eqb i 0); tauto.
      - repeat split. now apply appended_refl. }
    destruct F as ((F1&F2&F3&F4&F5&F6) & F7 & F8 & F9).
    unfold sameSession. repeat split; try congruence.
    eapply appended_trans; eassumption.
Qed.

(** The echo of the statement that is about to be dispatched. *)
Definition echo (s : State DB) : State DB :=
  forEachLine true 0 (buffer s ++ [currentLine s]) s.

Lemma submit_echo (x : jsstring) (s : State DB) :
  submit_ x s
  = let r := execute x (echo s) in
    if snd r then clearInput (fst r) else fst r.
Proof.
  unfold submit, echo. destruct (execute x _) as [s' b]. reflexivity.
Qed.

Lemma submit_session (x : jsstring) (s : State DB) :
  sameSession (fst (execute x (echo s))) (submit_ x s).
Proof.
  rewrite submit_echo. cbv zeta. destruct (snd _); repeat split.
Qed.

(** The statement an event hands to [executeCommand], if it does. *)
Definition dispatched (ev : Event) (s : State DB) : option jsstring :=
  match ev with
  | KeyDown e =>
      if JS.eqb (key e) (js "l") && ctrlKey e then None
      else if JS.eqb (key e) (js "c") && ctrlKey e then None
      else if JS.eqb (key e) (js "Enter") && ctrlKey e then
        let fullCommand := trim (join nl (buffer s ++ [currentLine s])) in
        if truthy fullCommand then Some fullCommand else None
      else if JS.eqb (key e) (js "ArrowUp") && Nat.eqb (List.length (buffer s)) 0
              && JS.eqb (currentLine s) [] then None
      else if JS.eqb (key e) (js "ArrowDown") && Nat.eqb (List.length (buffer s)) 0
      then None
      else if JS.eqb (key e) (js "Enter") && negb (shiftKey e) && negb (ctrlKey e) then
        let fullCommand := join nl (buffer s ++ [currentLine s]) in
        if isCommandComplete fullCommand then Some (trim fullCommand) else None
      else None
  | _ => None
  end.

(** An event either dispatches a statement or leaves the session as it
    is, but for the AI toggle, which flips the flag. *)
Lemma step_cases (ev : Event) (s : State DB) :
  match dispatched ev s with
  | Some x => step_ s ev = submit_ x s
  | None =>
      commandHistory (step_ s ev) = commandHistory s /\
      pendingDangerousCommand (step_ s ev) = pendingDangerousCommand s /\
      db (step_ s ev) = db s /\ calls (step_ s ev) = calls s /\
      (ev <> ToggleAi -> aiEnabled (step_ s ev) = aiEnabled s)
  end.
Proof.
  destruct ev as [e|v| | | |i]; cbn [dispatched step].
  - unfold handleKeyDown.
    destruct (JS.eqb (key e) (js "l") && ctrlKey e); [repeat split|].
    destruct (JS.eqb (key e) (js "c") && ctrlKey e).
    { destruct (negb _ || truthy _).
      - destruct (forEachLine_frame false
                    (filter truthy (buffer s ++ [currentLine s])) 0 s)
          as ((H1&H2&H3&H4&H5&H6) & _).
        proj. repeat split; try assumption. intros _. assumption.
      - repeat split. }
    destruct (JS.eqb (key e) (js "Enter") && ctrlKey e).
    { cbv zeta. destruct (truthy _); [reflexivity|repeat split]. }
    destruct (JS.eqb (key e) (js "ArrowUp") && _ && _).
    { destruct (_ <? _)%Z; repeat split. }
    destruct (JS.eqb (key e) (js "ArrowDown") && _).
    { destruct (_ >? _)%Z; [repeat split|]. destruct (_ =? _)%Z; repeat split. }
    destruct (JS.eqb (key e) (js "Enter") && _ && _); [|repeat split].
    cbv zeta. destruct (isCommandComplete _); [reflexivity|repeat split].
  - repeat split.
  - repeat split. congruence.
  - repeat split.
  - repeat split.
  - destruct (nth_error quickExamples i); [|repeat split].
    destruct (includes _ _); repeat split.
Qed.

(** C8.  In every state the console reaches, the recall list has no
    duplicates and at most 50 entries; a dispatch puts its statement at
    the front, and if the statement was in the list already it is moved
    there and the list keeps its length; after a run of dispatches from
    an empty list, the list is the first 50 of the distinct statements,
    the latest first. *)
Theorem recall_history_invariant :
  (forall (d : DB) (evs : list Event),
     let h := commandHistory (run_ evs (initialState d)) in
     NoDup h /\ (List.length h <= 50)%nat) /\
  (forall (x : jsstring) (s : State DB),
     let h := commandHistory s in
     let h' := commandHistory (fst (execute x s)) in
     h' = firstn 50 (x :: filter (fun c => negb (JS.eqb c x)) h) /\
     hd_error h' = Some x /\
     (NoDup h -> (List.length h <= 50)%nat -> In x h ->
      h' = x :: filter (fun c => negb (JS.eqb c x)) h /\
      List.length h' = List.length h /\
      count_occ (list_eq_dec N.eq_dec) h' x = 1%nat)) /\
  (forall (xs : list jsstring) (s : State DB),
     commandHistory s = [] ->
     commandHistory (fold_left (fun s x => fst (execute x s)) xs s)
     = firstn 50 (distinct (rev xs))).
Proof.
  split; [|split].
  - intros d evs. cbv zeta.
    assert (G : forall s : State DB,
               NoDup (commandHistory s) /\ (List.length (commandHistory s) <= 50)%nat ->
               NoDup (commandHistory (run_ evs s))
               /\ (List.length (commandHistory (run_ evs s)) <= 50)%nat).
    { unfold run. induction evs as [|ev evs IH]; intros s Hs; [exact Hs|].
      cbn [fold_left]. apply IH.
      pose proof (step_cases ev s) as Hc.
      destruct (dispatched ev s) as [x|].
      - rewrite Hc. destruct (submit_session x s) as (E & _). rewrite E.
        destruct (execute_line x (echo s)) as (_ & _ & E' & _). rewrite E'.
        destruct (forEachLine_frame true (buffer s ++ [currentLine s]) 0 s)
          as ((E'' & _) & _).
        unfold echo. rewrite E''. apply recallList_invariant. apply Hs.
      - destruct Hc as (E & _). rewrite E. exact Hs. }
    apply G. cbn. split; [constructor|lia].
  - intros x s. cbv zeta.
    destruct (execute_line x s) as (_ & _ & E & _). rewrite E.
    split; [reflexivity|]. split; [reflexivity|].
    intros Hnd Hlen Hin. now apply recallList_move_to_front.
  - intros xs. induction xs as [|x xs IH] using rev_ind; intros s Hs.
    + exact Hs.
    + rewrite fold_left_app. cbn [fold_left].
      destruct (execute_line x (fold_left (fun s x => fst (execute x s)) xs s))
        as (_ & _ & E & _).
      rewrite E, (IH s Hs), rev_app_distr. cbn [rev app distinct].
      unfold recallList. fold (differs x). change 50%nat with (S 49).
      rewrite !firstn_cons. f_equal.
      apply firstn_filter_differs, NoDup_distinct.
Qed.

(** *** Trimming twice *)

Lemma trimStart_trimStart (s : jsstring) : trimStart (trimStart s) = trimStart s.
Proof.
  induction s as [|c s IH]; [reflexivity|]. simpl.
  destruct (isSpace c) eqn:E; [exact IH|]. simpl. now rewrite E.
Qed.

Lemma trimStart_snoc (u : jsstring) (c : N) :
  isSpace c = false -> exists v, trimStart (u ++ [c]) = v ++ [c].
Proof.
  intros Hc. induction u as [|a u IH]; simpl.
  - rewrite Hc. now exists [].
  - destruct (isSpace a); [exact IH|]. now exists (a :: u).
Qed.

Lemma trimStart_trimEnd (s : jsstring) :
  trimStart (trimEnd (trimStart s)) = trimEnd (trimStart s).
Proof.
  assert (G : forall t, trimStart t = t -> trimStart (trimEnd t) = trimEnd t).
  { intros [|c t] Ht; [reflexivity|].
    assert (Hc : isSpace c = false).
    { simpl in Ht. destruct (isSpace c) eqn:E; [|reflexivity].
      exfalso. assert (L : (List.length (trimStart t) <= List.length t)%nat).
      { clear. induction t as [|a t IH]; simpl; [lia|].
        destruct (isSpace a); simpl; lia. }
      rewrite Ht in L. simpl in L. lia. }
    unfold trimEnd. cbn [rev].
    destruct (@trimStart_snoc (rev t) c Hc) as [v ->].
    rewrite rev_app_distr. simpl. now rewrite Hc. }
  apply G, trimStart_trimStart.
Qed.

Lemma trim_trim (s : jsstring) : trim (trim s) = trim s.
Proof.
  unfold trim. rewrite trimStart_trimEnd. unfold trimEnd.
  now rewrite rev_involutive, trimStart_trimStart.
Qed.

(** *** Typing a line and pressing Enter *)

Lemma keys_differ :
  JS.eqb (js "Enter") (js "ArrowUp") = false /\
  JS.eqb (js "Enter") (js "ArrowDown") = false /\
  JS.eqb (js "ArrowUp") (js "l") = false /\
  JS.eqb (js "ArrowUp") (js "c") = false /\
  JS.eqb (js "ArrowUp") (js "Enter") = false /\
  JS.eqb (js "ArrowUp") (js "ArrowDown") = false /\
  JS.eqb (js "ArrowDown") (js "l") = false /\
  JS.eqb (js "ArrowDown") (js "c") = false /\
  JS.eqb (js "ArrowDown") (js "Enter") = false /\
  JS.eqb (js "ArrowDown") (js "ArrowUp") = false.
Proof. repeat split; vm_compute; reflexivity. Qed.

Lemma typeLine_complete (line : jsstring) (s : State DB) :
  buffer s = [] ->
  isCommandComplete line = true ->
  type_line line s = submit_ (trim line) (setCurrentLine line s).
Proof.
  intros Hb Hc. unfold typeLine, Enter. cbn [step]. unfold handleKeyDown.
  cbn [key ctrlKey shiftKey buffer currentLine setCurrentLine].
  rewrite Hb. cbn [app join]. rewrite !andb_false_r.
  destruct keys_differ as (E1 & E2 & _). rewrite E1, E2. cbn [andb].
  rewrite eqb_refl. cbn [negb andb]. now rewrite Hc.
Qed.

Lemma typeLine_incomplete (line : jsstring) (s : State DB) :
  buffer s = [] ->
  isCommandComplete line = false ->
  type_line line s
  = setIsMultiLine true (setCurrentLine [] (setBuffer [line] (setCurrentLine line s))).
Proof.
  intros Hb Hc. unfold typeLine, Enter. cbn [step]. unfold handleKeyDown.
  cbn [key ctrlKey shiftKey buffer currentLine setCurrentLine].
  rewrite Hb. cbn [app join]. rewrite !andb_false_r.
  destruct keys_differ as (E1 & E2 & _). rewrite E1, E2. cbn [andb].
  rewrite eqb_refl. cbn [negb andb]. now rewrite Hc.
Qed.

Lemma isNo_cases (l : jsstring) : isNo l = true -> l = js "no" \/ l = js "n".
Proof.
  unfold isNo. intros H. apply orb_prop in H as [H|H];
    apply eqb_eq in H; auto.
Qed.

Lemma isYes_cases (l : jsstring) : isYes l = true -> l = js "yes" \/ l = js "y".
Proof.
  unfold isYes. intros H. apply orb_prop in H as [H|H];
    apply eqb_eq in H; auto.
Qed.

(** An answer is complete without a terminator and is no console
    command. *)
Lemma answer_complete (reply : jsstring) :
  isYes (toLowerCase (trim reply)) = true \/ isNo (toLowerCase (trim reply)) = true ->
  isCommandComplete reply = true /\ isBuiltin (toLowerCase (trim reply)) = false.
Proof.
  intros H. rewrite isCommandComplete_cases. unfold isSpecialCommand.
  destruct H as [H|H]; [apply isYes_cases in H|apply isNo_cases in H];
    destruct H as [-> | ->]; split; vm_compute; reflexivity.
Qed.

(** What a dispatched line does to the session, read off the state the
    dispatch starts from. *)
Lemma submit_execute (x : jsstring) (s : State DB) :
  let s' := submit_ x s in
  let e := fst (execute x (echo s)) in
  calls s' = calls e /\ db s' = db e /\
  pendingDangerousCommand s' = pendingDangerousCommand e /\
  aiEnabled s' = aiEnabled e /\ commandHistory s' = commandHistory e /\
  history s' = history e.
Proof.
  cbv zeta. rewrite submit_echo. cbv zeta. destruct (snd _); repeat split.
Qed.

Lemma echo_frame (s : State DB) :
  sameSession s (echo s) /\ buffer (echo s) = buffer s /\
  currentLine (echo s) = currentLine s /\
  appended (fun t => t = Input \/ t = Continuation) s (echo s).
Proof. apply forEachLine_frame. Qed.

Lemma pendingCommand_echo (s : State DB) : pendingCommand (echo s) = pendingCommand s.
Proof.
  destruct (echo_frame s) as ((_&_&_&H&_) & _). unfold pendingCommand. now rewrite H.
Qed.

(** The answers to a held statement, typed at an empty prompt. *)
Lemma typeLine_no (reply cmd : jsstring) (s : State DB) :
  buffer s = [] ->
  pendingCommand s = Some cmd ->
  isNo (toLowerCase (trim reply)) = true ->
  let s' := type_line reply s in
  calls s' = calls s /\ db s' = db s /\ pendingDangerousCommand s' = None.
Proof.
  intros Hb Hp Hn.
  destruct (@answer_complete reply (or_intror Hn)) as [Hc Hnb].
  assert (Hy : isYes (toLowerCase (trim reply)) = false).
  { apply isNo_cases in Hn as [-> | ->]; vm_compute; reflexivity. }
  cbv zeta. rewrite typeLine_complete by assumption.
  set (s0 := setCurrentLine reply s).
  destruct (submit_execute (trim reply) s0) as (E1 & E2 & E3 & _).
  rewrite E1, E2, E3.
  rewrite execute_statement by (rewrite trim_trim; exact Hnb). cbn [fst].
  rewrite trim_trim.
  destruct (confirm _ _) as [s1|] eqn:Ec.
  - destruct (confirmation_frame _ _ Ec)
      as (_ & _ & Hp1 & cmd' & _ & [[Hy' _]|(_ & _ & Hc1 & Hd1 & _)]);
      [congruence|].
    destruct (echo_frame s0) as ((_&_&_&_&Hd&Hcl) & _).
    repeat split; [rewrite Hc1|rewrite Hd1|exact Hp1]; proj; assumption.
  - exfalso. unfold confirmation in Ec.
    assert (Hp' : pendingCommand (remember (trim reply) (echo s0)) = Some cmd).
    { unfold pendingCommand. proj.
      destruct (echo_frame s0) as ((_&_&_&Hpe&_) & _). rewrite Hpe. exact Hp. }
    rewrite Hp', Hy, Hn in Ec. discriminate.
Qed.

Lemma typeLine_yes (reply cmd : jsstring) (s : State DB) :
  buffer s = [] ->
  pendingCommand s = Some cmd ->
  isYes (toLowerCase (trim reply)) = true ->
  let s' := type_line reply s in
  calls s' = calls s ++ [cmd] /\ db s' = snd (executeSQL cmd (db s)) /\
  pendingDangerousCommand s' = None.
Proof.
  intros Hb Hp Hy.
  destruct (@answer_complete reply (or_introl Hy)) as [Hc Hnb].
  cbv zeta. rewrite typeLine_complete by assumption.
  set (s0 := setCurrentLine reply s).
  destruct (submit_execute (trim reply) s0) as (E1 & E2 & E3 & _).
  rewrite E1, E2, E3.
  rewrite execute_statement by (rewrite trim_trim; exact Hnb). cbn [fst].
  rewrite trim_trim.
  assert (Hp' : pendingCommand (remember (trim reply) (echo s0)) = Some cmd).
  { unfold pendingCommand. proj.
    destruct (echo_frame s0) as ((_&_&_&Hpe&_) & _). rewrite Hpe. exact Hp. }
  destruct (confirm _ _) as [s1|] eqn:Ec.
  - destruct (confirmation_frame _ _ Ec)
      as (_ & _ & Hp1 & cmd' & Hcmd & [(_ & Hc1 & Hd1)|(Hy' & _)]);
      [|congruence].
    assert (cmd' = cmd) by congruence. subst cmd'.
    destruct (echo_frame s0) as ((_&_&_&_&Hd&Hcl) & _).
    repeat split; [rewrite Hc1|rewrite Hd1|exact Hp1]; proj;
      [rewrite Hcl|rewrite Hd]; reflexivity.
  - exfalso. unfold confirmation in Ec. rewrite Hp', Hy in Ec. discriminate.
Qed.

(** *** Holding a statement of high severity *)

Lemma pendingCommand_some (cmd : jsstring) (s : State DB) :
  pendingDangerousCommand s = Some cmd -> truthy cmd = true ->
  pendingCommand s = Some cmd.
Proof. unfold pendingCommand. now intros -> ->. Qed.

(** With the AI stage on, a complete statement that needs no
    translation and no correction and is of high severity is held: the
    engine is not called and the statement waits in the slot. *)
Lemma typeLine_held (stmt : jsstring) (s : State DB) :
  aiEnabled s = true ->
  buffer s = [] ->
  isCommandComplete stmt = true ->
  convertVietnameseToSQL (trim stmt) = None ->
  snd (fixSQLTypos (trim stmt)) = [] ->
  isHigh (trim stmt) = true ->
  let s' := type_line stmt s in
  calls s' = calls s /\ db s' = db s /\ aiEnabled s' = true /\ buffer s' = [] /\
  pendingDangerousCommand s' = Some (trim stmt).
Proof.
  intros Hai Hb Hc Hconv Hfix Hhigh.
  assert (Hd : exists d, checkDangerousCommand (trim stmt) = Some d /\ level d = high).
  { unfold isHigh in Hhigh. destruct (checkDangerousCommand (trim stmt)) as [d|];
      [|discriminate]. exists d. split; [reflexivity|].
    destruct (level d); [reflexivity|discriminate]. }
  destruct Hd as (d & Hd & Hl).
  assert (Hd' : checkDangerousCommand (trim (trim stmt)) = Some d)
    by (now rewrite trim_trim).
  destruct (@high_not_command (trim stmt) d Hd Hl) as (Hnb & Hy1 & Hy2 & Hn1 & Hn2).
  rewrite trim_trim in *.
  cbv zeta. rewrite typeLine_complete by assumption.
  set (s0 := setCurrentLine stmt s).
  rewrite submit_echo. cbv zeta.
  rewrite execute_statement by (rewrite trim_trim; exact Hnb).
  cbn [fst snd]. rewrite trim_trim.
  rewrite confirmation_other
    by (unfold isYes, isNo; rewrite ?Hy1, ?Hy2, ?Hn1, ?Hn2; reflexivity).
  destruct (echo_frame s0) as ((_ & Hae & _ & _ & Hde & Hce) & _).
  assert (Hai0 : aiEnabled s0 = true) by exact Hai.
  unfold processSQL. proj. rewrite Hae, Hai0.
  unfold aiProcess. rewrite Hconv.
  destruct (fixSQLTypos (trim stmt)) as [fixed cs]. cbn [snd] in Hfix. subst cs.
  rewrite Hd, Hl. proj. rewrite Hce, Hde, Hae.
  repeat split; assumption.
Qed.

(** With the AI stage on, a dispatch that is neither a yes nor [ai off]
    calls the engine with statements that are not of high severity
    only, and leaves the AI stage on. *)
Lemma execute_safe (x : jsstring) (s : State DB) :
  aiEnabled s = true ->
  isYes (toLowerCase (trim x)) = false ->
  JS.eqb (toLowerCase (trim x)) (js "ai off") = false ->
  let s' := fst (execute x s) in
  aiEnabled s' = true /\
  exists l, calls s' = calls s ++ l /\ Forall (fun c => isHigh c = false) l.
Proof.
  intros Hai Hy Hoff. cbv zeta. unfold executeCommand. cbv zeta.
  destruct (special_ _ _ _) as [[s1 b]|] eqn:Es; cbn [fst].
  - destruct (special_frame _ _ _ Es) as (_ & Hc & _ & Ha).
    split; [now apply Ha|]. exists []. rewrite app_nil_r. split; [exact Hc|constructor].
  - destruct (confirm _ _) as [s1|] eqn:Ec; cbn [fst].
    + destruct (confirmation_frame _ _ Ec)
        as (_ & Ha & _ & cmd & _ & [(Hy' & _)|(_ & _ & Hc & _)]); [congruence|].
      split; [rewrite Ha; exact Hai|].
      exists []. rewrite app_nil_r. split; [exact Hc|constructor].
    + destruct (process_frame (trim x) (remember x s)) as (_ & Ha & _ & l & Hc & Hl).
      split; [rewrite Ha; exact Hai|].
      exists l. split; [exact Hc|]. apply Hl. exact Hai.
Qed.

(** A run of events in which the AI stage is not switched off and no
    dispatched line is a yes. *)
Fixpoint unconfirmed (evs : list Event) (s : State DB) : Prop :=
  match evs with
  | [] => True
  | ev :: evs' =>
      ev <> ToggleAi /\
      (forall x, dispatched ev s = Some x ->
                 isYes (toLowerCase (trim x)) = false /\
                 JS.eqb (toLowerCase (trim x)) (js "ai off") = false) /\
      unconfirmed evs' (step_ s ev)
  end.

Lemma unconfirmed_safe (evs : list Event) (s : State DB) :
  aiEnabled s = true ->
  unconfirmed evs s ->
  exists l, calls (run_ evs s) = calls s ++ l /\ Forall (fun c => isHigh c = false) l.
Proof.
  revert s. induction evs as [|ev evs IH]; intros s Hai Hu.
  - exists []. rewrite app_nil_r. split; [reflexivity|constructor].
  - destruct Hu as (Hev & Hx & Hu). unfold run. cbn [fold_left].
    pose proof (step_cases ev s) as Hc.
    assert (G : aiEnabled (step_ s ev) = true /\
                exists l, calls (step_ s ev) = calls s ++ l
                          /\ Forall (fun c => isHigh c = false) l).
    { destruct (dispatched ev s) as [x|].
      - destruct (Hx x eq_refl) as [Hy Hoff]. rewrite Hc.
        destruct (submit_execute x s) as (E1 & _ & _ & E4 & _). rewrite E1, E4.
        destruct (echo_frame s) as ((_ & Hae & _ & _ & _ & Hce) & _).
        rewrite <- Hce.
        apply execute_safe; try assumption. now rewrite Hae.
      - destruct Hc as (_ & _ & _ & Hcl & Ha). split; [rewrite Ha; assumption|].
        exists []. rewrite app_nil_r. split; [exact Hcl|constructor]. }
    destruct G as (Hai' & l1 & Hl1 & F1).
    destruct (IH _ Hai' Hu) as (l2 & Hl2 & F2).
    exists (l1 ++ l2). unfold run in Hl2. rewrite Hl2, Hl1, app_assoc.
    split; [reflexivity|]. apply Forall_app. auto.
Qed.

Definition dropStudents : jsstring := js "DROP TABLE students;".

(** C1.  With the AI stage on, [DROP TABLE students;] typed at an empty
    prompt is held: the engine is not called and the store is as
    before.  From there, no run of events that neither answers yes nor
    switches the AI stage off hands the statement to the engine.  A no
    empties the slot without a call, so that any later query sees the
    store as it was; a yes hands the held statement to the engine. *)
Theorem confirmation_gating (s : State DB) :
  aiEnabled s = true ->
  buffer s = [] ->
  let s1 := type_line dropStudents s in
  (calls s1 = calls s /\ db s1 = db s /\
   pendingDangerousCommand s1 = Some dropStudents) /\
  (forall evs, unconfirmed evs s1 ->
     exists l, calls (run_ evs s1) = calls s ++ l /\ ~ In dropStudents l) /\
  (forall reply, isNo (toLowerCase (trim reply)) = true ->
     let s2 := type_line reply s1 in
     calls s2 = calls s /\ db s2 = db s /\ pendingDangerousCommand s2 = None /\
     forall q, executeSQL q (db s2) = executeSQL q (db s)) /\
  (forall reply, isYes (toLowerCase (trim reply)) = true ->
     let s2 := type_line reply s1 in
     calls s2 = calls s ++ [dropStudents] /\
     db s2 = snd (executeSQL dropStudents (db s)) /\
     pendingDangerousCommand s2 = None).
Proof.
  intros Hai Hb.
  assert (Ht : trim dropStudents = dropStudents) by (vm_compute; reflexivity).
  assert (H1 : isCommandComplete dropStudents = true) by (vm_compute; reflexivity).
  assert (H2 : convertVietnameseToSQL (trim dropStudents) = None)
    by (vm_compute; reflexivity).
  assert (H3 : snd (fixSQLTypos (trim dropStudents)) = [])
    by (vm_compute; reflexivity).
  assert (H4 : isHigh (trim dropStudents) = true) by (vm_compute; reflexivity).
  destruct (@typeLine_held dropStudents s Hai Hb H1 H2 H3 H4)
    as (Hc & Hd & Hai1 & Hb1 & Hp).
  rewrite Ht in Hp. cbv zeta.
  assert (Hp1 : pendingCommand (type_line dropStudents s) = Some dropStudents).
  { apply pendingCommand_some; [exact Hp|reflexivity]. }
  split; [|split; [|split]].
  - auto.
  - intros evs Hu. destruct (unconfirmed_safe _ _ Hai1 Hu) as (l & Hl & F).
    exists l. rewrite Hl, Hc. split; [reflexivity|].
    intros Hin. rewrite Forall_forall in F. specialize (F _ Hin).
    rewrite <- Ht, H4 in F. discriminate.
  - intros reply Hn.
    destruct (@typeLine_no reply dropStudents _ Hb1 Hp1 Hn) as (E1 & E2 & E3).
    repeat split; try congruence.
  - intros reply Hy.
    destruct (@typeLine_yes reply dropStudents _ Hb1 Hp1 Hy) as (E1 & E2 & E3).
    repeat split; congruence.
Qed.

(** *** A line dispatched while a statement is held *)


(** *** Recalling earlier statements *)

(** C5, where the code departs from it.  With an empty prompt and the
    recall list [B; A; ...], Arrow Up shows [B]; a second Arrow Up
    changes nothing, because the key is handled only while the current
    line is empty; Arrow Down then empties the line.  [A] is shown only
    if the line is emptied by hand before the second Arrow Up. *)
Theorem arrow_up_twice_stays (a b : jsstring) (rest : list jsstring) (s : State DB) :
  buffer s = [] ->
  currentLine s = [] ->
  historyIndex s = (-1)%Z ->
  commandHistory s = b :: a :: rest ->
  b <> [] ->
  let s1 := step_ s ArrowUp in
  let s2 := step_ s1 ArrowUp in
  currentLine s1 = b /\ historyIndex s1 = 0%Z /\
  s2 = s1 /\ currentLine s2 = b /\
  currentLine (step_ s2 ArrowDown) = [] /\
  historyIndex (step_ s2 ArrowDown) = (-1)%Z /\
  currentLine (step_ (step_ s1 (Change [])) ArrowUp) = a.
Proof.
  intros Hb Hc Hi Hh Hne.
  destruct keys_differ as (_ & _ & U1 & U2 & U3 & U4 & D1 & D2 & D3 & D4).
  assert (L0 : (-1 <? Z.of_nat (S (S (List.length rest))) - 1)%Z = true)
    by (apply Z.ltb_lt; lia).
  assert (L1 : (0 <? Z.of_nat (S (S (List.length rest))) - 1)%Z = true)
    by (apply Z.ltb_lt; lia).
  assert (E1 : step_ s ArrowUp
               = setCurrentLine b (setHistoryIndex 0 s)).
  { unfold ArrowUp. cbn [step]. unfold handleKeyDown.
    cbn [key ctrlKey shiftKey]. rewrite Hb, Hc, Hi, Hh, U1, U2, U3.
    cbn [andb List.length Nat.eqb]. rewrite eqb_refl. cbn [andb JS.eqb].
    rewrite L0. unfold recall. rewrite Hh. reflexivity. }
  cbv zeta. rewrite E1.
  assert (Hb' : JS.eqb b [] = false) by (now apply eqb_neq).
  assert (E2 : step_ (setCurrentLine b (setHistoryIndex 0 s)) ArrowUp
               = setCurrentLine b (setHistoryIndex 0 s)).
  { unfold ArrowUp. cbn [step]. unfold handleKeyDown.
    cbn [key ctrlKey shiftKey]. proj. rewrite Hb, Hb', U1, U2, U3, U4.
    cbn [andb List.length Nat.eqb]. rewrite eqb_refl, !andb_false_r.
    reflexivity. }
  rewrite E2. repeat split.
  - unfold ArrowDown. cbn [step]. unfold handleKeyDown.
    cbn [key ctrlKey shiftKey]. proj. rewrite Hb, D1, D2, D3, D4.
    cbn [andb List.length Nat.eqb]. rewrite eqb_refl. reflexivity.
  - unfold ArrowDown. cbn [step]. unfold handleKeyDown.
    cbn [key ctrlKey shiftKey]. proj. rewrite Hb, D1, D2, D3, D4.
    cbn [andb List.length Nat.eqb]. rewrite eqb_refl. reflexivity.
  - unfold ArrowUp. cbn [step]. unfold handleKeyDown.
    cbn [key ctrlKey shiftKey]. proj. rewrite Hb, Hh, U1, U2, U3.
    cbn [andb List.length Nat.eqb]. rewrite eqb_refl. cbn [andb JS.eqb].
    rewrite L1. unfold recall. proj. rewrite Hh. reflexivity.
Qed.

(** *** Reachable states *)

(** The states the console can be in: the initial one, and what the
    welcome effect and the events make of a reachable state. *)
Inductive reachable (d : DB) : State DB -> Prop :=
| reachable_init : reachable d (initialState d)
| reachable_welcome (s : State DB) : reachable d s -> reachable d (welcome s)
| reachable_step (s : State DB) (ev : Event) :
    reachable d s -> reachable d (step_ s ev).

(** *** The numbering of the transcript *)

(** The ids of [l] increase strictly, from [lo] at least and below
    [hi]. *)
Fixpoint between (lo : nat) (l : list CommandEntry) (hi : nat) : Prop :=
  match l with
  | [] => (lo <= hi)%nat
  | e :: l' => (lo <= id e)%nat /\ between (S (id e)) l' hi
  end.

Definition numbered (s : State DB) : Prop :=
  between 0 (history s) (idCounter s).

Lemma between_snoc (lo hi : nat) (l : list CommandEntry) (t : EntryType)
    (c : jsstring) (tb : option Table) :
  between lo l hi -> between lo (l ++ [mkEntry hi t c tb]) (S hi).
Proof.
  revert lo; induction l as [|e l IH]; intros lo; cbn [between app id].
  - intros H. split; [exact H|]. constructor.
  - intros [H1 H2]. split; [exact H1|]. now apply IH.
Qed.

Lemma between_le (lo hi : nat) (l : list CommandEntry) :
  between lo l hi -> (lo <= hi)%nat.
Proof.
  revert lo; induction l as [|e l IH]; intros lo; cbn [between]; [trivial|].
  intros [H1 H2]. apply IH in H2. lia.
Qed.

Lemma between_weaken (lo lo' hi : nat) (l : list CommandEntry) :
  (lo' <= lo)%nat -> between lo l hi -> between lo' l hi.
Proof. destruct l; cbn [between]; intros H; [lia|]. intros [H1 H2]. split; [lia|exact H2]. Qed.

Lemma between_bounds (lo hi : nat) (l : list CommandEntry) :
  between lo l hi -> Forall (fun e => (lo <= id e < hi)%nat) l.
Proof.
  revert lo; induction l as [|e l IH]; intros lo; cbn [between]; [constructor|].
  intros [H1 H2]. pose proof (between_le _ _ _ H2) as Hle.
  constructor; [lia|]. apply IH in H2.
  eapply Forall_impl; [|exact H2]. cbn. intros a Ha. lia.
Qed.

Lemma between_increasing (lo hi : nat) (l : list CommandEntry) (i j : nat)
    (e1 e2 : CommandEntry) :
  between lo l hi -> (i < j)%nat ->
  nth_error l i = Some e1 -> nth_error l j = Some e2 -> (id e1 < id e2)%nat.
Proof.
  revert lo i j; induction l as [|e l IH]; intros lo i j Hb Hij H1 H2.
  - destruct i; discriminate.
  - destruct Hb as [Hlo Hb]. destruct j as [|j]; [lia|]. cbn in H2.
    destruct i as [|i].
    + injection H1 as <-. apply between_bounds in Hb.
      rewrite Forall_forall in Hb. apply nth_error_In in H2.
      specialize (Hb _ H2). cbn in Hb. lia.
    + cbn in H1. apply (IH (S (id e)) i j); try assumption. lia.
Qed.

Lemma between_NoDup (lo hi : nat) (l : list CommandEntry) :
  between lo l hi -> NoDup (map id l).
Proof.
  revert lo; induction l as [|e l IH]; intros lo; cbn [between map]; [constructor|].
  intros [H1 H2]. constructor; [|now apply (IH (S (id e)))].
  intros Hin. apply in_map_iff in Hin as (e' & He & Hin).
  apply between_bounds in H2. rewrite Forall_forall in H2.
  specialize (H2 _ Hin). cbn in H2. lia.
Qed.

Lemma numbered_addEntry (t : EntryType) (c : jsstring) (tb : option Table)
    (s : State DB) :
  numbered s -> numbered (addEntryWith t c tb s).
Proof. apply between_snoc. Qed.

Lemma numbered_clear (s s' : State DB) :
  history s' = [] -> idCounter s' = idCounter s -> numbered s -> numbered s'.
Proof. unfold numbered. intros -> -> H. cbn. lia. Qed.

Ltac numbering :=
  repeat first
    [ assumption
    | apply numbered_addEntry
    | match goal with
      | H : numbered ?s |- numbered _ =>
          solve [ exact H | apply (@numbered_clear s); [reflexivity|reflexivity|exact H] ]
      end ].

Lemma numbered_runSQL (sql : jsstring) (s : State DB) :
  numbered s -> numbered (run_sql sql s).
Proof.
  intros H. unfold runSQL, callEngine, when.
  destruct (executeSQL sql (db s)) as [res d]. cbv zeta.
  assert (H1 : numbered
            (mkState (buffer s) (currentLine s) (history s) (commandHistory s)
               (historyIndex s) (aiEnabled s) (learningMode s) (showSettings s)
               (pendingDangerousCommand s) (isMultiLine s) (idCounter s) d
               (calls s ++ [sql]))) by exact H.
  repeat break_match; numbering.
Qed.

Lemma numbered_special (t l : jsstring) (s s' : State DB) (b : bool) :
  special_ t l s = Some (s', b) -> numbered s -> numbered s'.
Proof.
  unfold special, describe. intros E H. revert E.
  repeat break_match; intros [= <- <-]; numbering.
Qed.

Lemma numbered_confirmation (l : jsstring) (s s' : State DB) :
  confirm l s = Some s' -> numbered s -> numbered s'.
Proof.
  unfold confirmation. intros E H. revert E.
  repeat break_match; try discriminate; intros [= <-].
  - apply numbered_runSQL. exact H.
  - numbering.
Qed.

Lemma numbered_aiProcess (t : jsstring) (s : State DB) :
  numbered s -> numbered (snd (aiProcess t s)).
Proof.
  intros H. unfold aiProcess.
  destruct (convertVietnameseToSQL t) as [converted|];
    match goal with
    | |- context [fixSQLTypos ?x] => destruct (fixSQLTypos x) as [fixed [|c cs]]
    end;
    match goal with
    | |- context [checkDangerousCommand ?x] =>
        destruct (checkDangerousCommand x) as [[p w [|]]|]
    end; cbn [snd level]; numbering.
Qed.

Lemma numbered_process (t : jsstring) (s : State DB) :
  numbered s -> numbered (process t s).
Proof.
  intros H. unfold processSQL. destruct (aiEnabled s).
  - pose proof (@numbered_aiProcess t s H) as H1.
    destruct (aiProcess t s) as [[sql|] s1]; cbn [snd] in H1; [|exact H1].
    now apply numbered_runSQL.
  - now apply numbered_runSQL.
Qed.

Lemma numbered_execute (x : jsstring) (s : State DB) :
  numbered s -> numbered (fst (execute x s)).
Proof.
  intros H. unfold executeCommand. cbv zeta.
  assert (H0 : numbered (remember x s)) by exact H.
  destruct (special_ _ _ _) as [[s1 b]|] eqn:Es.
  - exact (@numbered_special _ _ _ _ _ Es H0).
  - destruct (confirm _ _) as [s1|] eqn:Ec; cbn [fst].
    + exact (@numbered_confirmation _ _ _ Ec H0).
    + now apply numbered_process.
Qed.

Lemma numbered_forEachLine (b : bool) (lines : list jsstring) (i : nat)
    (s : State DB) :
  numbered s -> numbered (forEachLine b i lines s).
Proof.
  revert i s; induction lines as [|line lines IH]; intros i s H; cbn [forEachLine];
    [exact H|].
  cbv zeta. apply IH. destruct (truthy line || _); numbering.
Qed.

Lemma numbered_submit (x : jsstring) (s : State DB) :
  numbered s -> numbered (submit_ x s).
Proof.
  intros H. rewrite submit_echo. cbv zeta.
  pose proof (@numbered_execute x _ (@numbered_forEachLine true (buffer s ++ [currentLine s]) 0 s H)) as H1.
  fold (echo s) in H1. destruct (snd _); exact H1.
Qed.

Lemma numbered_step (s : State DB) (ev : Event) :
  numbered s -> numbered (step_ s ev).
Proof.
  intros H. destruct ev as [e|v| | | |i]; cbn [step]; try exact H.
  - unfold handleKeyDown.
    repeat match goal with
           | |- context [if ?b then _ else _] => destruct b
           end;
      try exact H; try (now apply numbered_submit);
      try (apply (@numbered_clear s); [reflexivity|reflexivity|exact H]).
    change (numbered (addEntry Info (js "^C")
              (forEachLine false 0 (filter truthy (buffer s ++ [currentLine s])) s))).
    apply numbered_addEntry, numbered_forEachLine, H.
  - destruct (nth_error quickExamples i); [|exact H].
    destruct (includes _ _); exact H.
Qed.

Lemma numbered_reachable (d : DB) (s : State DB) : reachable d s -> numbered s.
Proof.
  induction 1 as [|s Hs IH|s ev Hs IH].
  - cbn. lia.
  - unfold welcome. destruct (history s) eqn:E; [|exact IH].
    now apply numbered_addEntry.
  - now apply numbered_step.
Qed.

(** Every transcript entry has an id of its own.  In every reachable
    state the ids of the transcript are pairwise different, increase
    from top to bottom and lie below the counter the next entry is
    numbered from; this holds across [clear] and Ctrl+L, which empty the
    transcript but leave the counter where it is. *)
Theorem transcript_ids_increase (d : DB) (s : State DB) :
  reachable d s ->
  NoDup (map id (history s)) /\
  (forall i j e1 e2, (i < j)%nat ->
     nth_error (history s) i = Some e1 -> nth_error (history s) j = Some e2 ->
     (id e1 < id e2)%nat) /\
  Forall (fun e => (id e < idCounter s)%nat) (history s).
Proof.
  intros H. apply numbered_reachable in H. unfold numbered in H.
  split; [|split].
  - eapply between_NoDup, H.
  - intros i j e1 e2. now apply (@between_increasing 0 (idCounter s) (history s)).
  - apply between_bounds in H. eapply Forall_impl; [|exact H].
    cbn. intros a Ha. lia.
Qed.

(** *** The engine, event by event *)

Lemma special_store (t l : jsstring) (s s' : State DB) (b : bool) :
  special_ t l s = Some (s', b) ->
  calls s' = calls s /\
  (db s' = db s \/ (l = js "reset" /\ db s' = resetDB (db s))).
Proof.
  unfold special, describe.
  destruct (JS.eqb l (js "help")); [intros [= <- <-]; cbn; auto|].
  destruct (JS.eqb l (js "clear")); [intros [= <- <-]; cbn; auto|].
  destruct (eqb_spec l (js "reset")) as [El|_]; [intros [= <- <-]; cbn; auto|].
  repeat break_match; intros [= <- <-]; cbn; auto.
Qed.

Lemma execute_store (x : jsstring) (s : State DB) :
  let s' := fst (execute x s) in
  (calls s' = calls s /\ db s' = db s) \/
  (calls s' = calls s /\ db s' = resetDB (db s)
   /\ toLowerCase (trim x) = js "reset") \/
  (exists q, calls s' = calls s ++ [q] /\ db s' = snd (executeSQL q (db s))).
Proof.
  cbv zeta. unfold executeCommand. cbv zeta.
  destruct (special_ _ _ _) as [[s1 b]|] eqn:Es; cbn [fst].
  - destruct (special_store _ _ _ Es) as (Hc & [Hd|[Hl Hd]]).
    + left. auto.
    + right; left. auto.
  - destruct (confirm _ _) as [s1|] eqn:Ec; cbn [fst].
    + destruct (confirmation_frame _ _ Ec)
        as (_ & _ & _ & cmd & _ & [(_ & Hc & Hd)|(_ & _ & Hc & Hd & _)]).
      * right; right. exists cmd. auto.
      * left. auto.
    + unfold processSQL. change (aiEnabled (remember x s)) with (aiEnabled s).
      destruct (aiEnabled s).
      * pose proof (aiProcess_spec (trim x) (remember x s)) as H. cbv zeta in H.
        destruct (aiProcess (trim x) (remember x s)) as [[sql|] s1];
          cbn [fst snd] in H; destruct H as (_ & Hc & Hd & _).
        -- destruct (runSQL_frame sql s1) as (Hc' & Hd' & _).
           right; right. exists sql. rewrite Hc', Hd', Hc, Hd. auto.
        -- left. auto.
      * destruct (runSQL_frame (trim x) (remember x s)) as (Hc & Hd & _).
        right; right. exists (trim x). auto.
Qed.

(** One event, at most one dealing with the engine.  An event that
    dispatches no statement leaves the store and the list of calls as
    they are; a dispatch leaves them as they are, or restores the
    initial data (the line [reset], and no call), or makes exactly one
    call of [executeSQL], whose store is the new store. *)
Theorem one_engine_interaction_per_event (s : State DB) (ev : Event) :
  let s' := step_ s ev in
  (dispatched ev s = None -> calls s' = calls s /\ db s' = db s) /\
  ((calls s' = calls s /\ db s' = db s) \/
   (calls s' = calls s /\ db s' = resetDB (db s) /\
    exists x, dispatched ev s = Some x /\ toLowerCase (trim x) = js "reset") \/
   (exists q, calls s' = calls s ++ [q] /\ db s' = snd (executeSQL q (db s)))).
Proof.
  cbv zeta. pose proof (step_cases ev s) as Hc.
  destruct (dispatched ev s) as [x|].
  - split; [discriminate|]. rewrite Hc.
    destruct (submit_execute x s) as (E1 & E2 & _). rewrite E1, E2.
    destruct (echo_frame s) as ((_ & _ & _ & _ & Hd & Hcl) & _).
    rewrite <- Hd, <- Hcl.
    destruct (execute_store x (echo s)) as [H|[(H1 & H2 & H3)|H]].
    + left. exact H.
    + right; left. split; [exact H1|]. split; [exact H2|]. exists x. auto.
    + right; right. exact H.
  - destruct Hc as (_ & _ & Hd & Hcl & _). split; [auto|]. left. auto.
Qed.

(** *** The statement held for confirmation *)

Definition heldHigh (s : State DB) : Prop :=
  forall c, pendingDangerousCommand s = Some c -> isHigh c = true.

Lemma execute_slot (x : jsstring) (s : State DB) :
  heldHigh s -> heldHigh (fst (execute x s)).
Proof.
  intros H. unfold executeCommand. cbv zeta.
  assert (H0 : heldHigh (remember x s)) by exact H.
  destruct (special_ _ _ _) as [[s1 b]|] eqn:Es; cbn [fst].
  - destruct (special_frame _ _ _ Es) as (_ & _ & Hp & _).
    intros c. rewrite Hp. apply H0.
  - destruct (confirm _ _) as [s1|] eqn:Ec; cbn [fst].
    + destruct (confirmation_frame _ _ Ec) as (_ & _ & Hp & _).
      intros c. rewrite Hp. discriminate.
    + destruct (process_frame (trim x) (remember x s))
        as (_ & _ & [Hp|(sql & Hh & _ & Hp)] & _); intros c; rewrite Hp.
      * apply H0.
      * now intros [= <-].
Qed.

Lemma heldHigh_step (s : State DB) (ev : Event) :
  heldHigh s -> heldHigh (step_ s ev).
Proof.
  intros H. pose proof (step_cases ev s) as Hc.
  destruct (dispatched ev s) as [x|].
  - rewrite Hc. destruct (submit_execute x s) as (_ & _ & E & _).
    intros c. rewrite E. apply execute_slot.
    destruct (echo_frame s) as ((_ & _ & _ & Hp & _) & _).
    intros c'. rewrite Hp. apply H.
  - destruct Hc as (_ & Hp & _). intros c. rewrite Hp. apply H.
Qed.

Lemma heldHigh_reachable (d : DB) (s : State DB) : reachable d s -> heldHigh s.
Proof.
  induction 1 as [|s Hs IH|s ev Hs IH].
  - intros c. discriminate.
  - unfold welcome. destruct (history s); exact IH.
  - now apply heldHigh_step.
Qed.

(** Only statements of high severity are ever held.  In every reachable
    state the statement in the confirmation slot, if there is one, is
    not empty and is classified [high] by [checkDangerousCommand]; a
    [yes] hands exactly that statement to the engine and empties the
    slot. *)
Theorem held_statement_is_high (d : DB) (s : State DB) :
  reachable d s ->
  forall c, pendingDangerousCommand s = Some c ->
    isHigh c = true /\ c <> [] /\
    forall reply, isYes (toLowerCase (trim reply)) = true ->
      calls (fst (execute reply s)) = calls s ++ [c] /\
      db (fst (execute reply s)) = snd (executeSQL c (db s)) /\
      pendingDangerousCommand (fst (execute reply s)) = None.
Proof.
  intros Hr c Hc. apply heldHigh_reachable in Hr.
  pose proof (Hr c Hc) as Hh. pose proof (isHigh_truthy _ Hh) as Ht.
  split; [exact Hh|]. split; [intros ->; discriminate Ht|].
  intros reply Hy.
  assert (Hb : isBuiltin (toLowerCase (trim reply)) = false).
  { apply isYes_cases in Hy as [-> | ->]; vm_compute; reflexivity. }
  rewrite execute_statement by exact Hb. cbn [fst].
  assert (Hp : pendingCommand (remember reply s) = Some c).
  { apply pendingCommand_some; [exact Hc|exact Ht]. }
  unfold confirmation. rewrite Hp, Hy.
  destruct (runSQL_frame c (setPendingDangerousCommand None (remember reply s)))
    as (H1 & H2 & Hin & _).
  destruct Hin as (_&_&_&_&_&_&H3). auto.
Qed.

(** *** The position in the recall list *)

Definition indexInRange (s : State DB) : Prop :=
  (-1 <= historyIndex s < Z.of_nat (List.length (commandHistory s)))%Z.

Lemma forEachLine_index (b : bool) (lines : list jsstring) (i : nat) (s : State DB) :
  historyIndex (forEachLine b i lines s) = historyIndex s.
Proof.
  revert i s; induction lines as [|line lines IH]; intros i s; cbn [forEachLine];
    [reflexivity|].
  cbv zeta. rewrite IH. destruct (truthy line || _); reflexivity.
Qed.

Lemma submit_index (x : jsstring) (s : State DB) :
  historyIndex (submit_ x s) = (-1)%Z.
Proof.
  rewrite submit_echo. cbv zeta.
  destruct (execute_line x (echo s)) as (_ & _ & _ & H).
  destruct (snd _); exact H.
Qed.

Lemma indexInRange_step (s : State DB) (ev : Event) :
  indexInRange s -> indexInRange (step_ s ev).
Proof.
  unfold indexInRange. intros H.
  assert (Hsub : forall x, (-1 <= historyIndex (submit_ x s)
                  < Z.of_nat (List.length (commandHistory (submit_ x s))))%Z).
  { intros x. rewrite submit_index. lia. }
  destruct ev as [e|v| | | |i]; cbn [step]; try exact H.
  - unfold handleKeyDown.
    destruct (JS.eqb (key e) (js "l") && ctrlKey e); [exact H|].
    destruct (JS.eqb (key e) (js "c") && ctrlKey e).
    { destruct (negb _ || truthy _); [|exact H]. proj.
      rewrite forEachLine_index.
      destruct (forEachLine_frame false
                  (filter truthy (buffer s ++ [currentLine s])) 0 s)
        as ((E & _) & _).
      rewrite E. exact H. }
    destruct (JS.eqb (key e) (js "Enter") && ctrlKey e).
    { cbv zeta. destruct (truthy _); [apply Hsub|exact H]. }
    destruct (JS.eqb (key e) (js "ArrowUp") && _ && _).
    { destruct (Z.ltb_spec (historyIndex s)
                  (Z.of_nat (List.length (commandHistory s)) - 1)); [|exact H].
      proj. lia. }
    destruct (JS.eqb (key e) (js "ArrowDown") && _).
    { destruct (Z.gtb_spec (historyIndex s) 0); [proj; lia|].
      destruct (Z.eqb_spec (historyIndex s) 0); [proj; lia|exact H]. }
    destruct (JS.eqb (key e) (js "Enter") && _ && _); [|exact H].
    cbv zeta. destruct (isCommandComplete _); [apply Hsub|exact H].
  - destruct (nth_error quickExamples i); [|exact H].
    destruct (includes _ _); exact H.
Qed.

Lemma indexInRange_reachable (d : DB) (s : State DB) :
  reachable d s -> indexInRange s.
Proof.
  induction 1 as [|s Hs IH|s ev Hs IH].
  - unfold indexInRange. cbn. lia.
  - unfold welcome. destruct (history s); exact IH.
  - now apply indexInRange_step.
Qed.

(** The recall never reads outside the list.  In every reachable state
    the position in the recall list is [-1] (not browsing) or the index
    of an entry; and an arrow key that moves the position either leaves
    the list ([-1], empty line) or puts the entry at the new position
    into the input line. *)
Theorem recall_index_in_range (d : DB) (s : State DB) :
  reachable d s ->
  (-1 <= historyIndex s < Z.of_nat (List.length (commandHistory s)))%Z /\
  forall ev, ev = ArrowUp \/ ev = ArrowDown ->
    let s' := step_ s ev in
    s' = s \/
    (historyIndex s' = (-1)%Z /\ currentLine s' = []) \/
    ((0 <= historyIndex s')%Z /\
     nth_error (commandHistory s') (Z.to_nat (historyIndex s'))
     = Some (currentLine s')).
Proof.
  intros Hr. apply indexInRange_reachable in Hr. split; [exact Hr|].
  unfold indexInRange in Hr.
  destruct keys_differ as (_ & _ & U1 & U2 & U3 & U4 & D1 & D2 & D3 & D4).
  assert (Hnth : forall k, (0 <= k < Z.of_nat (List.length (commandHistory s)))%Z ->
            nth_error (commandHistory s) (Z.to_nat k) = Some (recall s k)).
  { intros k Hk. unfold recall. apply nth_error_nth'. lia. }
  intros ev [-> | ->]; cbv zeta.
  - unfold ArrowUp. cbn [step]. unfold handleKeyDown.
    cbn [key ctrlKey shiftKey]. rewrite U1, U2, U3. cbn [andb].
    rewrite eqb_refl. cbn [andb].
    destruct (Nat.eqb (List.length (buffer s)) 0 && JS.eqb (currentLine s) []).
    + destruct (Z.ltb_spec (historyIndex s)
                  (Z.of_nat (List.length (commandHistory s)) - 1)); [|now left].
      right; right. proj. split; [lia|]. apply Hnth. lia.
    + rewrite U4. cbn [andb]. now left.
  - unfold ArrowDown. cbn [step]. unfold handleKeyDown.
    cbn [key ctrlKey shiftKey]. rewrite D1, D2, D3, D4. cbn [andb].
    rewrite eqb_refl. cbn [andb].
    destruct (Nat.eqb (List.length (buffer s)) 0); [|now left].
    destruct (Z.gtb_spec (historyIndex s) 0).
    + right; right. proj. split; [lia|]. apply Hnth. lia.
    + destruct (Z.eqb_spec (historyIndex s) 0); [|now left].
      right; left. proj. auto.
Qed.

(** *** The keys that submit, continue and cancel *)

Definition CtrlC : Event := KeyDown (mkKey (js "c") true false).

Lemma control_keys_differ :
  JS.eqb (js "Enter") (js "l") = false /\
  JS.eqb (js "Enter") (js "c") = false /\
  JS.eqb (js "c") (js "l") = false.
Proof. repeat split; vm_compute; reflexivity. Qed.

Lemma enter_key (s : State DB) :
  step_ s Enter
  = if isCommandComplete (join nl (buffer s ++ [currentLine s]))
    then submit_ (trim (join nl (buffer s ++ [currentLine s]))) s
    else setIsMultiLine true
           (setCurrentLine [] (setBuffer (buffer s ++ [currentLine s]) s)).
Proof.
  unfold Enter. cbn [step]. unfold handleKeyDown. cbn [key ctrlKey shiftKey].
  rewrite !andb_false_r. destruct keys_differ as (E1 & E2 & _). rewrite E1, E2.
  cbn [andb]. rewrite eqb_refl. reflexivity.
Qed.

Lemma ctrl_enter_key (s : State DB) :
  step_ s CtrlEnter
  = if truthy (trim (join nl (buffer s ++ [currentLine s])))
    then submit_ (trim (join nl (buffer s ++ [currentLine s]))) s
    else s.
Proof.
  unfold CtrlEnter. cbn [step]. unfold handleKeyDown. cbn [key ctrlKey shiftKey].
  destruct control_keys_differ as (E1 & E2 & _). rewrite E1, E2.
  cbn [andb]. rewrite eqb_refl. reflexivity.
Qed.

(** A text that trims to nothing is not complete. *)
Lemma blank_incomplete (text : jsstring) :
  trim text = [] -> isCommandComplete text = false.
Proof.
  intros E. rewrite isCommandComplete_cases.
  unfold isSpecialCommand, isDescribe, isTranslatable. rewrite E.
  vm_compute; reflexivity.
Qed.

(** What an entry shows: its type and its text. *)
Definition shown (e : CommandEntry) : EntryType * jsstring := (type e, content e).

(** The echo of lines after the first: the ones that are not empty, as
    continuation lines. *)
Lemma forEachLine_continuation (b : bool) (lines : list jsstring) (i : nat)
    (s : State DB) :
  map shown (history (forEachLine b (S i) lines s))
  = map shown (history s)
    ++ map (fun l => (Continuation, l)) (filter truthy lines).
Proof.
  revert i s; induction lines as [|line lines IH]; intros i s; cbn [forEachLine].
  - cbn. now rewrite app_nil_r.
  - cbv zeta. rewrite IH. cbn [Nat.eqb]. rewrite andb_false_r, orb_false_r.
    cbn [filter]. destruct (truthy line); [|reflexivity].
    cbn. rewrite map_app, <- app_assoc. reflexivity.
Qed.

(** The echo of a statement: its first line as [input], even when it is
    empty, and the other lines that are not empty as [continuation]. *)
Lemma echo_shown (s : State DB) :
  map shown (history (echo s))
  = map shown (history s)
    ++ match buffer s ++ [currentLine s] with
       | [] => []
       | first :: others =>
           (Input, first) :: map (fun l => (Continuation, l)) (filter truthy others)
       end.
Proof.
  unfold echo. destruct (buffer s ++ [currentLine s]) as [|first others].
  - cbn. now rewrite app_nil_r.
  - cbn [forEachLine]. cbv zeta. rewrite forEachLine_continuation.
    rewrite orb_true_r. cbn. rewrite map_app, <- app_assoc. reflexivity.
Qed.

(** Buffered lines: the state after [lines] went to the buffer. *)
Definition buffered (lines : list jsstring) (s : State DB) : State DB :=
  setIsMultiLine true (setCurrentLine [] (setBuffer (buffer s ++ lines) s)).

Lemma typeLine_buffered (lines : list jsstring) (s : State DB) :
  lines <> [] ->
  (forall k, (k < List.length lines)%nat ->
     isCommandComplete (join nl (buffer s ++ firstn (S k) lines)) = false) ->
  fold_left (fun s l => type_line l s) lines s = buffered lines s.
Proof.
  induction lines as [|line lines IH] using rev_ind; [congruence|].
  intros _ H. rewrite fold_left_app. cbn [fold_left].
  assert (Hlast : isCommandComplete (join nl (buffer s ++ lines ++ [line])) = false).
  { specialize (H (List.length lines)).
    rewrite (firstn_all2 (n := S (List.length lines)) (lines ++ [line])) in H
      by (rewrite length_app; cbn; lia).
    apply H. rewrite length_app. cbn. lia. }
  destruct lines as [|l0 lines].
  - cbn [fold_left app] in *. unfold typeLine. cbn [step]. rewrite enter_key.
    cbn [buffer currentLine setCurrentLine]. rewrite Hlast. reflexivity.
  - rewrite IH; [|discriminate|].
    + unfold typeLine. cbn [step]. rewrite enter_key.
      unfold buffered. proj. rewrite <- app_assoc, Hlast. reflexivity.
    + intros k Hk. specialize (H k). rewrite length_app in H.
      rewrite firstn_app in H.
      replace (S k - List.length (l0 :: lines))%nat with 0%nat in H by lia.
      rewrite firstn_0, app_nil_r in H. apply H. lia.
Qed.

(** Ctrl+C cancels the input and nothing else.  The buffer and the
    input line are emptied and continuation is left; the engine, the
    recall list and its position, the held statement and the switches
    stay as they are.  If there was any input, its non-empty lines are
    echoed, followed by [^C]; otherwise the transcript is as before. *)
Theorem ctrl_c_cancels_input (s : State DB) :
  let s' := step_ s CtrlC in
  (buffer s' = [] /\ currentLine s' = [] /\ isMultiLine s' = false) /\
  (calls s' = calls s /\ db s' = db s /\ commandHistory s' = commandHistory s /\
   historyIndex s' = historyIndex s /\
   pendingDangerousCommand s' = pendingDangerousCommand s /\
   aiEnabled s' = aiEnabled s /\ learningMode s' = learningMode s) /\
  map shown (history s')
  = map shown (history s)
    ++ (if negb (Nat.eqb (List.length (buffer s)) 0) || truthy (currentLine s)
        then match filter truthy (buffer s ++ [currentLine s]) with
             | [] => []
             | first :: others =>
                 (Input, first) :: map (fun l => (Continuation, l)) others
             end ++ [(Info, js "^C")]
        else []).
Proof.
  cbv zeta. unfold CtrlC. cbn [step]. unfold handleKeyDown. cbn [key ctrlKey shiftKey].
  destruct control_keys_differ as (_ & _ & E). rewrite E. cbn [andb].
  rewrite eqb_refl. cbn [andb].
  destruct (negb (Nat.eqb (List.length (buffer s)) 0) || truthy (currentLine s)).
  - set (lines := filter truthy (buffer s ++ [currentLine s])).
    destruct (forEachLine_frame false lines 0 s)
      as ((H1 & H2 & H3 & H4 & H5 & H6) & _).
    pose proof (forEachLine_index false lines 0 s) as H7.
    split; [repeat split|]. split; [proj; repeat split; assumption|].
    proj. rewrite map_app, app_assoc. cbn [map shown type content]. f_equal.
    assert (Hl : filter truthy lines = lines).
    { unfold lines. clear. induction (buffer s ++ [currentLine s]) as [|a l IH];
        [reflexivity|]. cbn [filter]. destruct (truthy a) eqn:Ea; [|exact IH].
      cbn [filter]. rewrite Ea. now rewrite IH. }
    destruct lines as [|first others] eqn:El.
    + cbn. now rewrite app_nil_r.
    + cbn [forEachLine]. cbv zeta. rewrite forEachLine_continuation.
      cbn [filter] in Hl. destruct (truthy first) eqn:Ef.
      * injection Hl as Hl. rewrite Hl. cbn. rewrite map_app, <- app_assoc.
        reflexivity.
      * exfalso.
        assert (Hin : In first (filter truthy (first :: others)))
          by (cbn [filter]; rewrite Ef, Hl; now left).
        apply filter_In in Hin. destruct Hin as [_ Hin]. congruence.
  - split; [repeat split|]. split; [repeat split|].
    proj. now rewrite app_nil_r.
Qed.

(** *** The verdicts of the AI stage *)

(** The statement the AI stage arrives at: the translation if there is
    one, then its correction if a correction rule fired. *)
Definition prepared (t : jsstring) : jsstring :=
  let sql1 := match convertVietnameseToSQL t with
              | Some convertedSQL => convertedSQL
              | None => t
              end in
  match snd (fixSQLTypos sql1) with
  | [] => sql1
  | _ => fst (fixSQLTypos sql1)
  end.

(** The one rule of medium severity is the one for [UPDATE]. *)
Lemma medium_is_update (sql : jsstring) (d : DangerousCommand) :
  checkDangerousCommand sql = Some d ->
  level d = medium ->
  warning d = js "⚠️ CẢNH BÁO: UPDATE không có WHERE sẽ cập nhật TẤT CẢ hàng!".
Proof.
  unfold checkDangerousCommand, dangerousCommands. cbn [checkWith d_pattern].
  repeat match goal with
         | |- context [if test ?R ?t then _ else _] =>
             destruct (test R t);
             [ intros [= <-]; first [discriminate|reflexivity] | ]
         end.
  discriminate.
Qed.

Lemma aiProcess_medium (t : jsstring) (s : State DB) (d : DangerousCommand) :
  checkDangerousCommand (prepared t) = Some d ->
  level d = medium ->
  exists pre n s1,
    aiProcess t s = (Some (prepared t), s1) /\
    history s1 = history s ++ pre ++ [mkEntry n Warning (warning d) None] /\
    Forall (fun e => type e = Ai) pre /\
    calls s1 = calls s /\ db s1 = db s /\
    pendingDangerousCommand s1 = pendingDangerousCommand s /\
    aiEnabled s1 = aiEnabled s.
Proof.
  unfold aiProcess, prepared.
  destruct (convertVietnameseToSQL t) as [converted|]; cbv zeta;
    match goal with
    | |- context [fixSQLTypos ?x] => destruct (fixSQLTypos x) as [fixed [|c cs]]
    end; cbn [fst snd]; intros Hd Hl; rewrite Hd, Hl.
  - eexists [_], _, _. split; [reflexivity|]. cbn. rewrite <- app_assoc.
    repeat split. repeat constructor.
  - eexists [_; _], _, _. split; [reflexivity|]. cbn. rewrite <- !app_assoc.
    repeat split. repeat constructor.
  - eexists [], _, _. split; [reflexivity|]. cbn. repeat split. constructor.
  - eexists [_], _, _. split; [reflexivity|]. cbn. rewrite <- app_assoc.
    repeat split. repeat constructor.
Qed.

(** A statement of medium severity is warned about and executed at
    once.  With the AI stage on, when the translated and corrected
    statement is classified [medium] (an [UPDATE] without [WHERE]), the
    warning is put into the transcript, the statement goes to the
    engine in the same dispatch and nothing is held for confirmation. *)
Theorem medium_severity_warns_and_executes (t : jsstring) (s : State DB)
    (d : DangerousCommand) :
  aiEnabled s = true ->
  checkDangerousCommand (prepared t) = Some d ->
  level d = medium ->
  let s' := process t s in
  calls s' = calls s ++ [prepared t] /\
  db s' = snd (executeSQL (prepared t) (db s)) /\
  pendingDangerousCommand s' = pendingDangerousCommand s /\
  warning d = js "⚠️ CẢNH BÁO: UPDATE không có WHERE sẽ cập nhật TẤT CẢ hàng!" /\
  exists pre post n,
    history s' = history s ++ pre ++ [mkEntry n Warning (warning d) None] ++ post /\
    Forall (fun e => type e = Ai) pre /\
    Forall (fun e => type e <> Warning) post.
Proof.
  intros Hai Hd Hl. cbv zeta. unfold processSQL. rewrite Hai.
  destruct (aiProcess_medium t s Hd Hl)
    as (pre & n & s1 & E & Hh & Hpre & Hc & Hdb & Hp & Ha).
  rewrite E.
  destruct (runSQL_frame (prepared t) s1) as (Hc' & Hdb' & Hin & [post [Hpost F]] & _).
  destruct Hin as (_&_&_&_&_&_&Hp').
  split; [congruence|]. split; [congruence|]. split; [congruence|].
  split; [exact (medium_is_update _ Hd Hl)|].
  exists pre, post, n. split.
  - rewrite Hpost, Hh, <- !app_assoc. reflexivity.
  - split; [exact Hpre|]. eapply Forall_impl; [|exact F].
    cbn. intros e [H|[H|[H|H]]]; rewrite H; discriminate.
Qed.

(** *** With the AI stage off *)

Lemma runSQL_ai_off (sql : jsstring) (s : State DB) :
  aiEnabled s = false ->
  exists e, history (run_sql sql s) = history s ++ [e] /\
            id e = idCounter s /\
            (type e = Error \/ type e = Result \/ type e = Info).
Proof.
  intros Hai. unfold runSQL, callEngine, when.
  destruct (executeSQL sql (db s)) as [res d]. cbv zeta. rewrite Hai.
  rewrite andb_false_r.
  repeat break_match; cbn; eexists; repeat split; cbn; auto.
Qed.

(** With the AI stage off the line goes to the engine as it was typed.
    A line that is no console command and no answer to a held statement
    is handed to [executeSQL] trimmed but otherwise unchanged, be it a
    Vietnamese phrase, a misspelt or a dangerous statement; the
    transcript grows by exactly one entry, the engine's error, result
    or acknowledgement, and nothing is held. *)
Theorem ai_off_sends_line_verbatim (x : jsstring) (s : State DB) :
  aiEnabled s = false ->
  isBuiltin (toLowerCase (trim x)) = false ->
  pendingCommand s = None \/
  (isYes (toLowerCase (trim x)) = false /\ isNo (toLowerCase (trim x)) = false) ->
  let s' := fst (execute x s) in
  calls s' = calls s ++ [trim x] /\
  db s' = snd (executeSQL (trim x) (db s)) /\
  pendingDangerousCommand s' = pendingDangerousCommand s /\
  exists e, history s' = history s ++ [e] /\ id e = idCounter s /\
            (type e = Error \/ type e = Result \/ type e = Info).
Proof.
  intros Hai Hb Hans. cbv zeta. rewrite execute_statement by exact Hb. cbn [fst].
  assert (Ec : confirm (toLowerCase (trim x)) (remember x s) = None).
  { destruct Hans as [Hp|[Hy Hn]].
    - unfold confirmation.
      change (pendingCommand (remember x s)) with (pendingCommand s).
      now rewrite Hp.
    - now apply confirmation_other. }
  rewrite Ec. unfold processSQL.
  change (aiEnabled (remember x s)) with (aiEnabled s). rewrite Hai.
  destruct (runSQL_frame (trim x) (remember x s)) as (Hc & Hd & Hin & _).
  destruct Hin as (_&_&_&_&_&_&Hp).
  split; [exact Hc|]. split; [exact Hd|]. split; [exact Hp|].
  apply (@runSQL_ai_off (trim x) (remember x s)). exact Hai.
Qed.

(** *** What a dispatch puts into the transcript *)

(** The request to answer yes or no. *)
Definition confirmPrompt : jsstring :=
  js "⚡ Gõ " ++ quoted (js "yes") ++ js " để xác nhận thực thi hoặc "
  ++ quoted (js "no") ++ js " để hủy".

(** [s'] has the transcript of [s] followed by entries that satisfy
    [P]. *)
Definition added (P : CommandEntry -> Prop) (s s' : State DB) : Prop :=
  exists new, history s' = history s ++ new /\ Forall P new.

Lemma added_refl (P : CommandEntry -> Prop) (s s' : State DB) :
  history s' = history s -> added P s s'.
Proof. intros H. exists []. rewrite app_nil_r. auto. Qed.

Lemma added_trans (P : CommandEntry -> Prop) (s1 s2 s3 : State DB) :
  added P s1 s2 -> added P s2 s3 -> added P s1 s3.
Proof.
  intros (l1 & H1 & F1) (l2 & H2 & F2). exists (l1 ++ l2).
  rewrite H2, H1, app_assoc. split; [reflexivity|]. now apply Forall_app.
Qed.

Lemma added_addEntryWith (P : CommandEntry -> Prop) (t : EntryType) (c : jsstring)
    (tb : option Table) (s : State DB) :
  P (mkEntry (idCounter s) t c tb) -> added P s (addEntryWith t c tb s).
Proof. intros H. exists [mkEntry (idCounter s) t c tb]. split; [reflexivity|]. auto. Qed.

(** The units of a decimal numeral are digits or the sign. *)
Lemma digits_units (d : Decimal.uint) : Forall (fun c => c < 58) (digits d).
Proof. induction d; cbn; constructor; auto; lia. Qed.

Lemma ofZ_units (z : Z) : Forall (fun c => c < 58) (ofZ z).
Proof.
  destruct z; cbn; [repeat constructor; lia|apply digits_units|].
  constructor; [lia|apply digits_units].
Qed.

(** The text of an entry that starts with a numeral, then a letter or a
    blank, is not the request. *)
Lemma numeral_not_prompt (z : Z) (c : N) (x : jsstring) :
  c < 128 -> ofZ z ++ c :: x <> confirmPrompt.
Proof.
  intros Hc H. apply (f_equal (hd 0)) in H.
  pose proof (ofZ_units z) as F. destruct (ofZ z) as [|d ds].
  - cbn in H. vm_compute in H. subst c. vm_compute in Hc. discriminate.
  - inversion F; subst. cbn [app hd] in H. vm_compute in H. subst d.
    match goal with X : _ < 58 |- _ => vm_compute in X; discriminate end.
Qed.

Definition notPrompt (e : CommandEntry) : Prop := content e <> confirmPrompt.

Ltac other_text :=
  let H := fresh in
  intros H; apply (f_equal (hd 0)) in H; vm_compute in H; discriminate H.

Lemma getErrorHelp_text (e h : jsstring) : getErrorHelp e = Some h -> h <> confirmPrompt.
Proof.
  unfold getErrorHelp.
  destruct (_ || _); [intros [= <-]; other_text|].
  destruct (_ || _); [intros [= <-]; other_text|discriminate].
Qed.

(** [runSQL] never asks for confirmation. *)
Lemma runSQL_texts (sql : jsstring) (s : State DB) :
  added (fun e => type e <> Warning /\ notPrompt e) s (run_sql sql s).
Proof.
  unfold runSQL, when, notPrompt.
  destruct (callEngine executeSQL sql s) as [res s1] eqn:E.
  assert (H1 : history s1 = history s).
  { unfold callEngine in E. destruct (executeSQL sql (db s)).
    injection E as <- <-. reflexivity. }
  apply added_trans with (s2 := s1); [now apply added_refl|]. clear E H1.
  assert (R : forall x y, ofZ x ++ js " row(s) in set (" ++ y <> confirmPrompt).
  { intros x y. change (js " row(s) in set (" ++ y) with (32 :: js "row(s) in set (" ++ y).
    apply numeral_not_prompt. lia. }
  destruct (errorOf res) as [e|].
  - eapply added_trans with (s2 := addEntry Error (js "ERROR: " ++ e) s1).
    + apply added_addEntryWith. cbn. split; [discriminate|other_text].
    + destruct (aiEnabled s); [|now apply added_refl].
      destruct (getErrorHelp e) as [h|] eqn:E; [|now apply added_refl].
      apply added_addEntryWith. cbn. split; [discriminate|].
      eapply getErrorHelp_text, E.
  - cbv zeta.
    match goal with
    | |- added _ _ (if ?c then _ else ?s3) =>
        assert (A3 : added (fun e => type e <> Warning /\ content e <> confirmPrompt)
                       s1 s3)
    end.
    { match goal with
      | |- added _ _ (if _ then addEntryWith _ _ _ ?mid else _) =>
          apply added_trans with (s2 := mid)
      end.
      - destruct (aiEnabled s); [|now apply added_refl].
        destruct (truthy _); [|now apply added_refl].
        apply added_addEntryWith. cbn. split; [discriminate|other_text].
      - destruct (_ && _).
        + apply added_addEntryWith. cbn. split; [discriminate|apply R].
        + apply added_addEntryWith. cbn. split; [discriminate|other_text]. }
    destruct (learningMode s && aiEnabled s); [|exact A3].
    destruct (getOptimizationTips sql); [exact A3|].
    eapply added_trans; [exact A3|].
    apply added_addEntryWith. cbn. split; [discriminate|other_text].
Qed.


(** The AI stage, by what the danger rules say of the statement it
    prepared: the notes of the translation and of the corrections, then
    the warning, then for a statement of high severity the request. *)
Lemma aiProcess_outcome (t : jsstring) (s : State DB) :
  exists pre s1,
    aiProcess t s = (if isHigh (prepared t) then None else Some (prepared t), s1) /\
    Forall (fun e => type e = Ai /\ notPrompt e) pre /\
    calls s1 = calls s /\ db s1 = db s /\ aiEnabled s1 = aiEnabled s /\
    learningMode s1 = learningMode s /\ sameLine s s1 /\
    let n := (idCounter s + List.length pre)%nat in
    match checkDangerousCommand (prepared t) with
    | None =>
        history s1 = history s ++ pre /\
        pendingDangerousCommand s1 = pendingDangerousCommand s
    | Some d =>
        match level d with
        | medium =>
            history s1 = history s ++ pre ++ [mkEntry n Warning (warning d) None] /\
            pendingDangerousCommand s1 = pendingDangerousCommand s
        | high =>
            history s1
            = history s ++ pre
              ++ [mkEntry n Warning (warning d) None;
                  mkEntry (S n) Warning confirmPrompt None] /\
            pendingDangerousCommand s1 = Some (prepared t)
        end
    end.
Proof.
  unfold aiProcess, prepared, isHigh, sameLine, notPrompt.
  destruct (convertVietnameseToSQL t) as [converted|]; cbv zeta;
    match goal with
    | |- context [fixSQLTypos ?x] => destruct (fixSQLTypos x) as [fixed [|c cs]]
    end; cbn [fst snd];
    match goal with
    | |- context [checkDangerousCommand ?x] =>
        destruct (checkDangerousCommand x) as [[p w [|]]|]
    end; cbn [level warning].
  all: match goal with
       | |- context [addEntry Ai ?a (addEntry Ai ?b ?s0)] =>
           exists [mkEntry (idCounter s0) Ai b None; mkEntry (S (idCounter s0)) Ai a None]
       | |- context [addEntry Ai ?a ?s0] => exists [mkEntry (idCounter s0) Ai a None]
       | |- _ => exists []
       end.
  all: eexists; split; [reflexivity|].
  all: split; [repeat constructor; cbn; other_text|].
  all: cbn; rewrite <- ?app_assoc, ?Nat.add_0_r, ?Nat.add_1_r; cbn [app];
       rewrite ?app_nil_r; repeat split; repeat f_equal; lia.
Qed.

(** The ordinary route of a statement.  With the AI stage on a
    statement of high severity is held and asked about; any other
    statement goes to the engine, and nothing asks. *)
Lemma process_outcome (t : jsstring) (s : State DB) :
  let s' := process t s in
  sameLine s s' /\
  (aiEnabled s = false ->
   calls s' = calls s ++ [t] /\ db s' = snd (executeSQL t (db s)) /\
   pendingDangerousCommand s' = pendingDangerousCommand s /\
   added (fun e => type e <> Warning /\ notPrompt e) s s') /\
  (aiEnabled s = true -> isHigh (prepared t) = false ->
   calls s' = calls s ++ [prepared t] /\
   db s' = snd (executeSQL (prepared t) (db s)) /\
   pendingDangerousCommand s' = pendingDangerousCommand s /\
   added notPrompt s s') /\
  (aiEnabled s = true -> isHigh (prepared t) = true ->
   calls s' = calls s /\ db s' = db s /\
   pendingDangerousCommand s' = Some (prepared t) /\
   exists pre d n,
     checkDangerousCommand (prepared t) = Some d /\
     history s'
     = history s ++ pre ++ [mkEntry n Warning (warning d) None;
                            mkEntry (S n) Warning confirmPrompt None] /\
     Forall (fun e => type e = Ai /\ notPrompt e) pre).
Proof.
  cbv zeta. unfold processSQL.
  destruct (aiEnabled s) eqn:Hai.
  - destruct (aiProcess_outcome t s)
      as (pre & s1 & E & Fpre & Hc & Hd & Ha & Hl & Hline & Hh).
    rewrite E. cbv zeta in Hh.
    split; [|split; [discriminate|split]].
    + destruct (isHigh (prepared t)); [exact Hline|].
      destruct (runSQL_frame (prepared t) s1) as (_ & _ & Hin & _).
      eapply sameLine_trans; [exact Hline|]. now apply sameInput_sameLine.
    + intros _ Hh'. rewrite Hh'.
      destruct (runSQL_frame (prepared t) s1) as (C & D & Hin & _).
      destruct Hin as (_&_&_&_&_&_&Hp).
      assert (Hs1 : pendingDangerousCommand s1 = pendingDangerousCommand s /\
                    added notPrompt s s1).
      { unfold isHigh in Hh'.
        destruct (checkDangerousCommand (prepared t)) as [d|] eqn:Ec.
        - destruct (level d) eqn:El; [discriminate|]. destruct Hh as [Hh Hp1].
          split; [exact Hp1|]. eexists. split; [exact Hh|].
          apply Forall_app. split.
          + eapply Forall_impl; [|exact Fpre]. cbn. tauto.
          + constructor; [|constructor]. unfold notPrompt. cbn.
            rewrite (medium_is_update _ Ec El). intros H.
            apply (f_equal (hd 0)) in H. vm_compute in H. discriminate H.
        - destruct Hh as [Hh Hp1]. split; [exact Hp1|]. eexists. split; [exact Hh|].
          eapply Forall_impl; [|exact Fpre]. cbn. tauto. }
      destruct Hs1 as [Hp1 A1].
      split; [congruence|]. split; [congruence|]. split; [congruence|].
      eapply added_trans; [exact A1|].
      destruct (runSQL_texts (prepared t) s1) as (new & Hn & Fn).
      exists new. split; [exact Hn|]. eapply Forall_impl; [|exact Fn]. cbn. tauto.
    + intros _ Hh'. rewrite Hh'. unfold isHigh in Hh'.
      destruct (checkDangerousCommand (prepared t)) as [d|] eqn:Ec; [|discriminate].
      destruct (level d) eqn:El; [|discriminate]. destruct Hh as [Hh Hp1].
      split; [exact Hc|]. split; [exact Hd|]. split; [exact Hp1|].
      exists pre, d, (idCounter s + List.length pre)%nat. auto.
  - destruct (runSQL_frame t s) as (C & D & Hin & _).
    split; [now apply sameInput_sameLine|].
    split; [|split; discriminate].
    intros _. destruct Hin as (_&_&_&_&_&_&Hp).
    split; [exact C|]. split; [exact D|]. split; [exact Hp|].
    apply runSQL_texts.
Qed.



(** *** What a submitted text does *)

(** A console command other than [clear] adds to the transcript. *)
Lemma special_grows (t l : jsstring) (s s' : State DB) (b : bool) :
  special_ t l s = Some (s', b) ->
  JS.eqb l (js "clear") = false ->
  exists more, history s' = history s ++ more.
Proof.
  unfold special, describe. intros E Hc. rewrite Hc in E. revert E.
  repeat break_match; intros [= <- <-]; cbn;
    first [ eexists; reflexivity | exists []; now rewrite app_nil_r ].
Qed.

Lemma process_grows (t : jsstring) (s : State DB) :
  exists more, history (process t s) = history s ++ more.
Proof.
  destruct (process_outcome t s) as (_ & Hoff & Hlow & Hhigh).
  destruct (aiEnabled s).
  - destruct (isHigh (prepared t)).
    + destruct (Hhigh eq_refl eq_refl) as (_&_&_& pre & d & n & _ & H & _).
      eexists. exact H.
    + destruct (Hlow eq_refl eq_refl) as (_&_&_& more & H & _). now exists more.
  - destruct (Hoff eq_refl) as (_&_&_& more & H & _). now exists more.
Qed.

Lemma execute_grows (x : jsstring) (s : State DB) :
  JS.eqb (toLowerCase (trim x)) (js "clear") = false ->
  exists more, history (fst (execute x s)) = history s ++ more.
Proof.
  intros Hc. unfold executeCommand. cbv zeta.
  change (history s) with (history (remember x s)).
  destruct (special_ _ _ _) as [[s1 b]|] eqn:Es.
  - cbn [fst]. eapply special_grows; eassumption.
  - destruct (confirm _ _) as [s1|] eqn:Ec; cbn [fst]; [|apply process_grows].
    unfold confirmation in Ec. destruct (pendingCommand _) as [c|]; [|discriminate].
    destruct (isYes _).
    + injection Ec as <-.
      destruct (runSQL_texts c (setPendingDangerousCommand None (remember x s)))
        as (more & H & _). now exists more.
    + destruct (isNo _); [|discriminate]. injection Ec as <-. eexists. reflexivity.
Qed.

(** The lines of the input as the echo shows them. *)
Definition echoed (s : State DB) : list (EntryType * jsstring) :=
  match buffer s ++ [currentLine s] with
  | [] => []
  | first :: others =>
      (Input, first) :: map (fun l => (Continuation, l)) (filter truthy others)
  end.

(** What submitting a trimmed text does, whoever submits it: the text
    goes to the front of the recall list, the input is echoed and
    cleared, and the engine is called as the text demands. *)
Lemma submit_outcome (t : jsstring) (s : State DB) :
  trim t = t ->
  let s' := submit_ t s in
  let l := toLowerCase t in
  (commandHistory s' = recallList t (commandHistory s) /\
   historyIndex s' = (-1)%Z) /\
  (isDescribe t = false ->
   buffer s' = [] /\ currentLine s' = [] /\ isMultiLine s' = false) /\
  (JS.eqb l (js "clear") = false ->
   exists more, map shown (history s') = map shown (history s) ++ echoed s ++ more) /\
  (isBuiltin l = true ->
   calls s' = calls s /\
   pendingDangerousCommand s' = pendingDangerousCommand s) /\
  (isBuiltin l = false ->
   pendingCommand s = None \/ (isYes l = false /\ isNo l = false) ->
   (aiEnabled s = false ->
    calls s' = calls s ++ [t] /\ db s' = snd (executeSQL t (db s)) /\
    pendingDangerousCommand s' = pendingDangerousCommand s) /\
   (aiEnabled s = true -> isHigh (prepared t) = false ->
    calls s' = calls s ++ [prepared t] /\
    db s' = snd (executeSQL (prepared t) (db s)) /\
    pendingDangerousCommand s' = pendingDangerousCommand s) /\
   (aiEnabled s = true -> isHigh (prepared t) = true ->
    calls s' = calls s /\ db s' = db s /\
    pendingDangerousCommand s' = Some (prepared t))).
Proof.
  intros Ht. cbv zeta.
  destruct (submit_execute t s) as (Hc & Hd & Hp & Ha & Hh & Hy).
  cbv zeta in *.
  destruct (echo_frame s) as ((E1 & E2 & E3 & E4 & E5 & E6) & E7 & E8 & _).
  split; [|split; [|split; [|split]]].
  - split; [|apply submit_index].
    rewrite Hh. destruct (execute_line t (echo s)) as (_ & _ & H & _).
    cbv zeta in H. now rewrite H, E1.
  - intros Hdesc. rewrite submit_echo. cbv zeta.
    assert (R : snd (execute t (echo s)) = true).
    { unfold executeCommand. cbv zeta. rewrite Ht.
      destruct (special_ _ _ _) as [[s1 b]|] eqn:Es; [|destruct (confirm _ _); reflexivity].
      cbn [snd]. unfold special in Es. unfold isDescribe in Hdesc. rewrite Ht in Hdesc.
      rewrite Hdesc in Es. revert Es. repeat break_match; intros [= <- <-]; reflexivity. }
    rewrite R. repeat split.
  - intros Hclear. rewrite <- Ht in Hclear.
    destruct (execute_grows t (echo s) Hclear) as (more & H).
    exists (map shown more). rewrite Hy, H, map_app, echo_shown, <- app_assoc.
    reflexivity.
  - intros Hb. rewrite <- Ht in Hb.
    destruct (@special_some (trim t) _ (remember t (echo s)) Hb) as [[s1 b] Es].
    rewrite Hc, Hp. unfold executeCommand. cbv zeta. rewrite Es. cbn [fst].
    destruct (special_frame _ _ _ Es) as (_ & H1 & H2 & _).
    rewrite H1, H2. cbn. split; [exact E6|exact E4].
  - intros Hb Hans. rewrite Hc, Hd, Hp.
    rewrite execute_statement by (now rewrite Ht). cbn [fst]. rewrite Ht.
    assert (Hconf : confirm (toLowerCase t) (remember t (echo s)) = None).
    { destruct Hans as [Hn|[Hy' Hn]]; [|now apply confirmation_other].
      unfold confirmation.
      change (pendingCommand (remember t (echo s))) with (pendingCommand (echo s)).
      now rewrite pendingCommand_echo, Hn. }
    rewrite Hconf.
    destruct (process_outcome t (remember t (echo s))) as (_ & Hoff & Hlow & Hhigh).
    cbv zeta in *.
    change (aiEnabled (remember t (echo s))) with (aiEnabled (echo s)) in *.
    change (calls (remember t (echo s))) with (calls (echo s)) in *.
    change (db (remember t (echo s))) with (db (echo s)) in *.
    change (pendingDangerousCommand (remember t (echo s)))
      with (pendingDangerousCommand (echo s)) in *.
    rewrite E2, E6, E5, E4 in *.
    split; [|split].
    + intros A. destruct (Hoff A) as (H1 & H2 & H3 & _). auto.
    + intros A B. destruct (Hlow A B) as (H1 & H2 & H3 & _). auto.
    + intros A B. destruct (Hhigh A B) as (H1 & H2 & H3 & _). auto.
Qed.

(** Ctrl+Enter executes what has been typed, complete or not.  On a
    complete text it does what Enter does; on a blank text it does
    nothing at all, where Enter adds the blank line to the buffer and
    switches to continuation.  On a text that is not blank, terminated
    or not, the trimmed text goes to the front of the recall list, the
    input is echoed into the transcript and cleared, and the text is
    dealt with as a statement: a console command is handled without the
    engine; otherwise, unless it answers a held statement, the engine is
    called with the text as typed (AI stage off) or with the statement
    the AI stage prepared, except that a statement of high severity is
    held instead. *)
Theorem ctrl_enter_forces_execution (s : State DB) :
  let full := join nl (buffer s ++ [currentLine s]) in
  let t := trim full in
  let l := toLowerCase t in
  let s' := step_ s CtrlEnter in
  (isCommandComplete full = true -> s' = step_ s Enter) /\
  (t <> [] -> s' = submit_ t s) /\
  (t = [] ->
   s' = s /\
   step_ s Enter
   = setIsMultiLine true
       (setCurrentLine [] (setBuffer (buffer s ++ [currentLine s]) s))) /\
  (t <> [] ->
   (commandHistory s' = firstn 50 (t :: filter (fun c => negb (JS.eqb c t))
                                                (commandHistory s)) /\
    historyIndex s' = (-1)%Z) /\
   (isDescribe t = false ->
    buffer s' = [] /\ currentLine s' = [] /\ isMultiLine s' = false) /\
   (JS.eqb l (js "clear") = false ->
    exists more,
      map shown (history s') = map shown (history s) ++ echoed s ++ more) /\
   (isBuiltin l = true ->
    calls s' = calls s /\
    pendingDangerousCommand s' = pendingDangerousCommand s) /\
   (isBuiltin l = false ->
    pendingCommand s = None \/ (isYes l = false /\ isNo l = false) ->
    (aiEnabled s = false ->
     calls s' = calls s ++ [t] /\ db s' = snd (executeSQL t (db s)) /\
     pendingDangerousCommand s' = pendingDangerousCommand s) /\
    (aiEnabled s = true -> isHigh (prepared t) = false ->
     calls s' = calls s ++ [prepared t] /\
     db s' = snd (executeSQL (prepared t) (db s)) /\
     pendingDangerousCommand s' = pendingDangerousCommand s) /\
    (aiEnabled s = true -> isHigh (prepared t) = true ->
     calls s' = calls s /\ db s' = db s /\
     pendingDangerousCommand s' = Some (prepared t)))).
Proof.
  cbv zeta. rewrite ctrl_enter_key, enter_key.
  split; [|split; [|split]].
  - intros Hc. rewrite Hc.
    destruct (trim (join nl (buffer s ++ [currentLine s]))) eqn:E; [|reflexivity].
    apply blank_incomplete in E. congruence.
  - intros Hne.
    destruct (trim (join nl (buffer s ++ [currentLine s]))); [congruence|reflexivity].
  - intros E. rewrite (blank_incomplete _ E), E. split; reflexivity.
  - intros Hne.
    replace (if truthy (trim (join nl (buffer s ++ [currentLine s])))
             then submit_ (trim (join nl (buffer s ++ [currentLine s]))) s else s)
      with (submit_ (trim (join nl (buffer s ++ [currentLine s]))) s)
      by (destruct (trim (join nl (buffer s ++ [currentLine s])));
          [congruence|reflexivity]).
    apply (@submit_outcome (trim (join nl (buffer s ++ [currentLine s]))) s).
    apply trim_trim.
Qed.

(** Lines accumulate until the statement is complete.  As long as the
    text typed so far is not complete, Enter adds the line to the buffer
    and touches neither the transcript nor the engine nor the recall
    list.  The Enter that completes the text submits the lines joined by
    newlines and trimmed: that text goes to the front of the recall
    list, the lines are echoed into the transcript (the first as input,
    the other non-empty ones as continuation), the input is cleared, and
    the engine is called as for a statement typed on one line. *)
Theorem lines_accumulate_until_complete (lines : list jsstring) (last : jsstring)
    (s : State DB) :
  buffer s = [] ->
  (forall k, (k < List.length lines)%nat ->
     isCommandComplete (join nl (firstn (S k) lines)) = false) ->
  isCommandComplete (join nl (lines ++ [last])) = true ->
  let s1 := fold_left (fun s l => type_line l s) lines s in
  let typed := setCurrentLine last s1 in
  let t := trim (join nl (lines ++ [last])) in
  let l := toLowerCase t in
  let s' := type_line last s1 in
  (buffer s1 = lines /\ history s1 = history s /\ calls s1 = calls s /\
   db s1 = db s /\ commandHistory s1 = commandHistory s /\
   pendingDangerousCommand s1 = pendingDangerousCommand s /\
   (lines <> [] -> currentLine s1 = [] /\ isMultiLine s1 = true)) /\
  dispatched Enter typed = Some t /\
  s' = submit_ t typed /\
  map shown (history (echo typed))
  = map shown (history s)
    ++ match lines ++ [last] with
       | [] => []
       | first :: others =>
           (Input, first) :: map (fun l => (Continuation, l)) (filter truthy others)
       end /\
  (commandHistory s' = firstn 50 (t :: filter (fun c => negb (JS.eqb c t))
                                               (commandHistory s)) /\
   historyIndex s' = (-1)%Z) /\
  (isDescribe t = false ->
   buffer s' = [] /\ currentLine s' = [] /\ isMultiLine s' = false) /\
  (JS.eqb l (js "clear") = false ->
   exists more,
     map shown (history s')
     = map shown (history s)
       ++ match lines ++ [last] with
          | [] => []
          | first :: others =>
              (Input, first)
              :: map (fun l => (Continuation, l)) (filter truthy others)
          end ++ more) /\
  (isBuiltin l = true ->
   calls s' = calls s /\
   pendingDangerousCommand s' = pendingDangerousCommand s) /\
  (isBuiltin l = false ->
   pendingCommand s = None \/ (isYes l = false /\ isNo l = false) ->
   (aiEnabled s = false ->
    calls s' = calls s ++ [t] /\ db s' = snd (executeSQL t (db s)) /\
    pendingDangerousCommand s' = pendingDangerousCommand s) /\
   (aiEnabled s = true -> isHigh (prepared t) = false ->
    calls s' = calls s ++ [prepared t] /\
    db s' = snd (executeSQL (prepared t) (db s)) /\
    pendingDangerousCommand s' = pendingDangerousCommand s) /\
   (aiEnabled s = true -> isHigh (prepared t) = true ->
    calls s' = calls s /\ db s' = db s /\
    pendingDangerousCommand s' = Some (prepared t))).
Proof.
  intros Hb Hinc Hc. cbv zeta.
  assert (E : fold_left (fun s l => type_line l s) lines s
              = match lines with [] => s | _ => buffered lines s end).
  { destruct lines as [|l0 lines]; [reflexivity|].
    apply typeLine_buffered; [discriminate|]. rewrite Hb. exact Hinc. }
  rewrite E.
  set (s1 := match lines with [] => s | _ => buffered lines s end).
  assert (F : buffer s1 = lines).
  { unfold s1. destruct lines; [exact Hb|]. unfold buffered. proj. now rewrite Hb. }
  assert (G : history s1 = history s) by (unfold s1; destruct lines; reflexivity).
  assert (K : calls s1 = calls s /\ db s1 = db s /\
              commandHistory s1 = commandHistory s /\
              pendingDangerousCommand s1 = pendingDangerousCommand s /\
              aiEnabled s1 = aiEnabled s)
    by (unfold s1; destruct lines; repeat split).
  destruct K as (K1 & K2 & K3 & K4 & K5).
  assert (T : type_line last s1
              = submit_ (trim (join nl (lines ++ [last]))) (setCurrentLine last s1)).
  { unfold typeLine. cbn [step]. rewrite enter_key.
    cbn [buffer currentLine setCurrentLine]. rewrite F, Hc. reflexivity. }
  split; [|split; [|split; [|split]]].
  - split; [exact F|]. unfold s1. destruct lines; repeat split; congruence.
  - unfold dispatched, Enter. cbn [key ctrlKey shiftKey].
    rewrite !andb_false_r. destruct keys_differ as (E1 & E2 & _). rewrite E1, E2.
    cbn [andb]. rewrite eqb_refl. cbn [negb andb].
    cbn [buffer currentLine setCurrentLine]. rewrite F, Hc. reflexivity.
  - exact T.
  - rewrite echo_shown. cbn [buffer currentLine history setCurrentLine].
    rewrite F, G. reflexivity.
  - rewrite T.
    pose proof (@submit_outcome (trim (join nl (lines ++ [last])))
                  (setCurrentLine last s1) (trim_trim _)) as O.
    cbv zeta in O. unfold echoed, pendingCommand in O.
    cbn [buffer currentLine history setCurrentLine commandHistory calls db
         pendingDangerousCommand aiEnabled] in O.
    rewrite F, G, K1, K2, K3, K4, K5 in O. exact O.
Qed.

End ConsoleProperties.

(** ** The alignment of the rendered table *)

Lemma length_join (sep : jsstring) (l : list jsstring) :
  List.length (join sep l)
  = (list_sum (map (@List.length N) l)
     + List.length sep * pred (List.length l))%nat.
Proof.
  induction l as [|x l IH]; [cbn; lia|].
  destruct l as [|y l].
  - cbn. lia.
  - change (join sep (x :: y :: l)) with (x ++ sep ++ join sep (y :: l)).
    rewrite !length_app, IH. cbn [map list_sum fold_right List.length pred].
    rewrite (Nat.mul_succ_r (List.length sep)). lia.
Qed.

(** The widths of the pieces between the bars of a line: the column
    width and a blank on either side. *)
Definition pieceWidths (t : Table) : list nat :=
  map (fun w => Z.to_nat (w + 2)) (colWidths t).

Lemma length_dashes (n : nat) : List.length (JS.repeat (js "-") n) = n.
Proof.
  unfold JS.repeat. replace (js "-") with [45] by (vm_compute; reflexivity).
  induction n as [|n IH]; [reflexivity|]. cbn in *. now rewrite IH.
Qed.

Lemma length_padCell (t : Table) (i : nat) (text : jsstring) (w : Z) :
  nth_error (colWidths t) i = Some w ->
  (len text <= w)%Z ->
  List.length (padCell t i text) = Z.to_nat (w + 2).
Proof.
  intros Hw Hlen. unfold padCell, padEnd. rewrite Hw.
  replace (js " ") with [32] by (vm_compute; reflexivity).
  rewrite !length_app, repeat_length. unfold len in Hlen. cbn [List.length]. lia.
Qed.

Lemma separator_pieces (t : Table) :
  map (@List.length N)
    (map (fun w => JS.repeat (js "-") (Z.to_nat (w + 2))) (colWidths t))
  = pieceWidths t.
Proof.
  unfold pieceWidths. rewrite map_map. apply map_ext. intros w.
  apply length_dashes.
Qed.

Lemma header_pieces (t : Table) :
  map (@List.length N) (mapi (fun i col => padCell t i col) 0 (columns t))
  = pieceWidths t.
Proof.
  apply nth_error_ext. intros n. unfold pieceWidths.
  rewrite !nth_error_map, nth_error_mapi, colWidths_nth. cbn [Nat.add].
  destruct (nth_error (columns t) n) as [col|] eqn:E; [|reflexivity].
  cbn [option_map]. f_equal. apply length_padCell.
  - rewrite colWidths_nth, E. reflexivity.
  - apply colWidth_is_max.
Qed.

Lemma row_pieces (t : Table) (row : list Cell) :
  In row (rows t) ->
  List.length row = List.length (columns t) ->
  map (@List.length N)
    (mapi (fun i cell => padCell t i (cellText (Some cell))) 0 row)
  = pieceWidths t.
Proof.
  intros Hin Hlen. apply nth_error_ext. intros n. unfold pieceWidths.
  rewrite !nth_error_map, nth_error_mapi, colWidths_nth. cbn [Nat.add].
  destruct (nth_error row n) as [cell|] eqn:Ec.
  - assert (Hn : (n < List.length (columns t))%nat).
    { rewrite <- Hlen. apply nth_error_Some. congruence. }
    destruct (nth_error (columns t) n) as [col|] eqn:E;
      [|apply nth_error_None in E; lia].
    cbn [option_map]. f_equal. apply length_padCell.
    + rewrite colWidths_nth, E. reflexivity.
    + rewrite <- Ec.
      destruct (colWidth_is_max t n col) as (_ & _ & H & _). now apply H.
  - assert (Hn : (List.length (columns t) <= n)%nat).
    { rewrite <- Hlen. now apply nth_error_None. }
    apply nth_error_None in Hn. rewrite Hn. reflexivity.
Qed.

(** The length of a line made of pieces between bars. *)
Lemma length_barred (bar : jsstring) (pieces : list jsstring) :
  List.length bar = 1%nat ->
  List.length (bar ++ join bar pieces ++ bar)
  = (1 + list_sum (map (@List.length N) pieces) + List.length pieces)%nat
    \/ pieces = [].
Proof.
  intros Hb. destruct pieces as [|p pieces]; [now right|]. left.
  rewrite !length_app, length_join, Hb. cbn [List.length pred]. lia.
Qed.

Lemma length_barred_eq (bar bar' : jsstring) (pieces pieces' : list jsstring) :
  List.length bar = 1%nat -> List.length bar' = 1%nat ->
  map (@List.length N) pieces = map (@List.length N) pieces' ->
  List.length (bar ++ join bar pieces ++ bar)
  = List.length (bar' ++ join bar' pieces' ++ bar').
Proof.
  intros Hb Hb' H.
  assert (L : List.length pieces = List.length pieces').
  { apply (f_equal (@List.length nat)) in H. now rewrite !length_map in H. }
  rewrite !length_app, !length_join, Hb, Hb', H, L. reflexivity.
Qed.

(** The rendered table is aligned.  When every row has as many cells as
    there are columns, the three separators, the header and every
    rendered row have the same length: one bar, and for each column its
    width, two blanks and a bar. *)
Theorem table_lines_align (t : Table) :
  (forall row, In row (rows t) -> List.length row = List.length (columns t)) ->
  let r := renderTable t in
  let width := List.length (top r) in
  List.length (head r) = width /\
  List.length (rule r) = width /\
  List.length (bottom r) = width /\
  (forall line, In line (body r) -> List.length line = width) /\
  (columns t <> [] ->
   width = (1 + list_sum (map (fun w => Z.to_nat w + 3) (colWidths t)))%nat).
Proof.
  intros Hrect. cbv zeta. unfold renderTable. cbn [top head rule bottom body].
  assert (Hplus : List.length (js "+") = 1%nat) by (vm_compute; reflexivity).
  assert (Hbar : List.length (js "|") = 1%nat) by (vm_compute; reflexivity).
  split; [|split; [reflexivity|split; [reflexivity|split]]].
  - unfold header, separator. apply length_barred_eq; try assumption.
    now rewrite header_pieces, separator_pieces.
  - intros line Hline. apply in_map_iff in Hline as (row & <- & Hrow).
    assert (Hin : In row (rows t)).
    { rewrite <- (firstn_skipn 25 (rows t)). apply in_or_app. now left. }
    unfold rowLine, separator. apply length_barred_eq; try assumption.
    rewrite separator_pieces. apply row_pieces; [exact Hin|]. now apply Hrect.
  - intros Hcols. unfold separator.
    destruct (length_barred (js "+")
                (map (fun w => JS.repeat (js "-") (Z.to_nat (w + 2))) (colWidths t))
                Hplus) as [E|E].
    + rewrite E, separator_pieces. unfold pieceWidths.
      rewrite !length_map.
      assert (G : forall l : list Z, Forall (fun w => (0 <= w)%Z) l ->
                (list_sum (map (fun w => Z.to_nat (w + 2)) l) + List.length l
                 = list_sum (map (fun w => Z.to_nat w + 3) l))%nat).
      { induction 1 as [|w l Hw Hl IH]; [reflexivity|].
        unfold list_sum in *. cbn [map fold_right List.length] in *. lia. }
      rewrite <- G; [lia|].
      apply Forall_forall. intros w Hw. apply In_nth_error in Hw as [n Hn].
      rewrite colWidths_nth in Hn.
      destruct (nth_error (columns t) n) as [col|]; [|discriminate].
      injection Hn as <-. pose proof (colWidth_is_max t n col) as (_ & H4 & _). lia.
    + exfalso. apply map_eq_nil in E. apply Hcols.
      unfold colWidths in E. destruct (columns t); [reflexivity|discriminate].
Qed.

(** ** The matcher on literals, classes and options *)

(** The state a match leaves: [n] units further on, with [s'] left. *)
Definition moved (x : MatchState) (n : nat) (s' : jsstring) : MatchState :=
  mkMatchState (endIndex x + n) s' (captures x).

Lemma moved_0 (x : MatchState) : moved x 0 (rest x) = x.
Proof. destruct x. unfold moved. cbn. now rewrite Nat.add_0_r. Qed.

(** [w] read off the front of [t], up to case: what is left of [t]. *)
Fixpoint stripCI (w t : jsstring) : option jsstring :=
  match w, t with
  | [], _ => Some t
  | c :: w', ch :: t' =>
      if canonicalize true ch =? canonicalize true c then stripCI w' t' else None
  | _ :: _, [] => None
  end.

Lemma stripCI_cons (c ch : N) (w t : jsstring) :
  stripCI (c :: w) (ch :: t)
  = if canonicalize true ch =? canonicalize true c then stripCI w t else None.
Proof. reflexivity. Qed.

Lemma matcher_word_eq (w : jsstring) (x : MatchState) (k : MatcherContinuation) :
  matcher true (word w) x k
  = match stripCI w (rest x) with
    | Some r => k (moved x (List.length w) r)
    | None => None
    end.
Proof.
  revert x. induction w as [|c w IH]; intros x.
  - cbn. now rewrite moved_0.
  - assert (Hc : forall k', matcher true (Chr c) x k'
                  = match rest x with
                    | ch :: s' =>
                        if canonicalize true ch =? canonicalize true c
                        then k' (moved x 1 s') else None
                    | [] => None
                    end).
    { intros k'. cbn [matcher]. unfold charMatcher, moved.
      destruct (rest x); [reflexivity|]. now rewrite Nat.add_1_r. }
    destruct w as [|c' w].
    + change (word [c]) with (Chr c). rewrite Hc.
      destruct (rest x) as [|ch s']; [reflexivity|]. rewrite stripCI_cons.
      destruct (_ =? _); reflexivity.
    + change (matcher true (word (c :: c' :: w)) x k)
        with (matcher true (Chr c) x (fun y => matcher true (word (c' :: w)) y k)).
      rewrite Hc.
      destruct (rest x) as [|ch s']; [reflexivity|]. rewrite stripCI_cons.
      destruct (_ =? _); [|reflexivity].
      rewrite IH. unfold moved. cbn [rest endIndex captures].
      destruct (stripCI (c' :: w) s'); [|reflexivity].
      do 2 f_equal. cbn [List.length]. lia.
Qed.

(** The units of [a] are the letters of [w], each in either case. *)
Definition letters (w a : jsstring) : Prop :=
  Forall2 (fun c ch => ch = c \/ ch = c + 32) w a.

Definition upper (w : jsstring) : Prop := Forall (fun c => 65 <= c <= 90) w.

Lemma canonicalize_upper (c : N) : 65 <= c <= 90 -> canonicalize true c = c.
Proof.
  intros Hc. unfold canonicalize. rewrite upperUnit_ascii by lia.
  replace (97 <=? c) with false by (symmetry; apply N.leb_gt; lia).
  replace (128 <=? c) with false by (symmetry; apply N.leb_gt; lia). reflexivity.
Qed.

Lemma canonicalize_letter_iff (ch c : N) :
  65 <= c <= 90 ->
  canonicalize true ch = canonicalize true c <-> ch = c \/ ch = c + 32.
Proof.
  intros Hc. rewrite (canonicalize_upper Hc). split.
  - intros E.
    assert (Hch : ch < 128) by (apply canonicalize_ascii; lia).
    unfold canonicalize in E. rewrite upperUnit_ascii in E by exact Hch.
    replace (128 <=? ch) with false in E by (symmetry; apply N.leb_gt; lia).
    cbn [andb] in E.
    destruct (N.leb_spec 97 ch), (N.leb_spec ch 122); cbn [andb] in E; lia.
  - intros [-> | ->].
    + now apply canonicalize_upper.
    + unfold canonicalize. rewrite upperUnit_ascii by lia.
      replace (97 <=? c + 32) with true by (symmetry; apply N.leb_le; lia).
      replace (c + 32 <=? 122) with true by (symmetry; apply N.leb_le; lia).
      replace (128 <=? c + 32) with false by (symmetry; apply N.leb_gt; lia).
      cbn [andb]. lia.
Qed.

Lemma stripCI_letters (w a r : jsstring) :
  upper w -> letters w a -> stripCI w (a ++ r) = Some r.
Proof.
  intros Hw H. revert Hw. induction H as [|c ch w a Hc H IH]; intros Hw;
    [reflexivity|].
  inversion Hw as [|? ? Hc' Hw']; subst. cbn [app stripCI].
  apply (canonicalize_letter_iff ch Hc') in Hc. rewrite Hc, N.eqb_refl. now apply IH.
Qed.

Lemma stripCI_sound (w t r : jsstring) :
  upper w -> stripCI w t = Some r -> exists a, t = a ++ r /\ letters w a.
Proof.
  intros Hw. revert t. induction Hw as [|c w Hc Hw IH]; intros t; cbn [stripCI].
  - intros [= ->]. exists []. split; [reflexivity|constructor].
  - destruct t as [|ch t]; [discriminate|].
    destruct (N.eqb_spec (canonicalize true ch) (canonicalize true c)) as [E|_];
      [|discriminate].
    intros H. apply IH in H as (a & -> & Ha). exists (ch :: a).
    split; [reflexivity|]. constructor; [|exact Ha].
    now apply canonicalize_letter_iff.
Qed.

(** A greedy run over one class of units: at least [min] of them, the
    longest run first, then shorter ones. *)
Fixpoint greedy (p : N -> bool) (min : nat) (c : MatcherContinuation) (i : nat)
    (s : jsstring) (caps : list (option jsstring)) : option MatchState :=
  match s with
  | ch :: s' =>
      if p ch then
        match min with
        | O => orElse (greedy p 0 c (S i) s' caps)
                 (fun _ => c (mkMatchState i s caps))
        | S m => greedy p m c (S i) s' caps
        end
      else match min with
           | O => c (mkMatchState i s caps)
           | S _ => None
           end
  | [] => match min with
          | O => c (mkMatchState i [] caps)
          | S _ => None
          end
  end.

Lemma repeatMatcher_class (p : N -> bool)
    (mr : MatchState -> MatcherContinuation -> option MatchState)
    (c : MatcherContinuation) :
  (forall x k, mr x k = charMatcher p x k) ->
  forall fuel min x,
    (min + List.length (rest x) <= fuel)%nat ->
    repeatMatcher mr [] min None true c fuel x
    = greedy p min c (endIndex x) (rest x) (captures x).
Proof.
  intros Hmr. induction fuel as [|fuel IH]; intros min [i s caps];
    cbn [rest endIndex captures]; intros Hf.
  - destruct min; [|lia]. destruct s; [reflexivity|cbn in Hf; lia].
  - cbn [repeatMatcher clearCaptures fold_right option_map]. rewrite Hmr.
    unfold charMatcher. cbn [rest endIndex captures].
    destruct s as [|ch s]; cbn [greedy].
    + destruct min; reflexivity.
    + destruct (p ch).
      * replace (Nat.eqb (S i) i) with false
          by (symmetry; apply Nat.eqb_neq; lia).
        rewrite andb_false_r. rewrite IH by (cbn in *; lia).
        cbn [rest endIndex captures]. destruct min; reflexivity.
      * destruct min; reflexivity.
Qed.

Lemma greedy_sound (p : N -> bool) (c : MatcherContinuation)
    (caps : list (option jsstring)) (z : MatchState) (s : jsstring) :
  forall min i,
    greedy p min c i s caps = Some z ->
    exists ws r, s = ws ++ r /\ forallb p ws = true /\ (min <= List.length ws)%nat /\
                 c (mkMatchState (i + List.length ws) r caps) = Some z.
Proof.
  induction s as [|ch s IH]; intros min i; cbn [greedy].
  - destruct min; [|discriminate]. intros H. exists [], [].
    cbn. rewrite Nat.add_0_r. auto.
  - destruct (p ch) eqn:Hp.
    + assert (Go : forall m, greedy p m c (S i) s caps = Some z ->
                exists ws r, ch :: s = ws ++ r /\ forallb p ws = true
                  /\ (S m <= List.length ws)%nat
                  /\ c (mkMatchState (i + List.length ws) r caps) = Some z).
      { intros m H. apply IH in H as (ws & r & -> & Hws & Hm & H).
        exists (ch :: ws), r. cbn. rewrite Hp, Hws.
        replace (i + S (List.length ws))%nat with (S i + List.length ws)%nat by lia.
        repeat split; auto. lia. }
      destruct min as [|m].
      * unfold orElse. destruct (greedy p 0 c (S i) s caps) eqn:E.
        -- intros [= <-]. destruct (Go 0%nat E) as (ws & r & H1 & H2 & H3 & H4).
           exists ws, r. repeat split; auto. lia.
        -- intros H. exists [], (ch :: s). cbn. rewrite Nat.add_0_r. auto.
      * apply Go.
    + destruct min; [|discriminate]. intros H. exists [], (ch :: s).
      cbn. rewrite Nat.add_0_r. auto.
Qed.

(** [r] does not start with a unit of the class. *)
Definition stops (p : N -> bool) (r : jsstring) : Prop :=
  match r with
  | [] => True
  | ch :: _ => p ch = false
  end.

Lemma greedy_longest (p : N -> bool) (c : MatcherContinuation)
    (caps : list (option jsstring)) (z : MatchState) (r : jsstring) (ws : jsstring) :
  forall min i,
    forallb p ws = true -> stops p r -> (min <= List.length ws)%nat ->
    c (mkMatchState (i + List.length ws) r caps) = Some z ->
    greedy p min c i (ws ++ r) caps = Some z.
Proof.
  induction ws as [|a ws IH]; intros min i Hws Hr Hm H.
  - cbn in Hm. destruct min; [|lia]. cbn in H. rewrite Nat.add_0_r in H.
    cbn [app]. destruct r as [|ch r]; cbn [greedy]; [exact H|].
    cbn in Hr. rewrite Hr. exact H.
  - cbn [forallb] in Hws. apply andb_prop in Hws as [Ha Hws].
    cbn [app greedy]. rewrite Ha.
    assert (E : forall m, (m <= List.length ws)%nat ->
                greedy p m c (S i) (ws ++ r) caps = Some z).
    { intros m Hm'. apply IH; try assumption.
      replace (S i + List.length ws)%nat with (i + List.length (a :: ws))%nat
        by (cbn; lia). exact H. }
    destruct min as [|m].
    + rewrite E by lia. reflexivity.
    + apply E. cbn in Hm. lia.
Qed.

(** The longest run of the class at the front of [s]. *)
Lemma longest_run (p : N -> bool) (s : jsstring) :
  exists u v, s = u ++ v /\ forallb p u = true /\ stops p v.
Proof.
  induction s as [|ch s (u & v & -> & Hu & Hv)].
  - exists [], []. cbn. auto.
  - destruct (p ch) eqn:Hp.
    + exists (ch :: u), v. cbn. rewrite Hp, Hu. auto.
    + exists [], (ch :: u ++ v). cbn. auto.
Qed.

(** The classes the patterns repeat. *)
Lemma matcher_spaces (min : nat) (x : MatchState) (k : MatcherContinuation) :
  matcher true (Rep min None true Space) x k
  = greedy isSpace min k (endIndex x) (rest x) (captures x).
Proof.
  cbn [matcher groupsOf]. now apply repeatMatcher_class.
Qed.

Lemma matcher_words (min : nat) (x : MatchState) (k : MatcherContinuation) :
  matcher true (Rep min None true Word) x k
  = greedy isWord min k (endIndex x) (rest x) (captures x).
Proof.
  cbn [matcher groupsOf]. now apply repeatMatcher_class.
Qed.

Lemma charMatcher_ext (p q : N -> bool) (x : MatchState) (k : MatcherContinuation) :
  (forall ch, p ch = q ch) -> charMatcher p x k = charMatcher q x k.
Proof.
  intros H. unfold charMatcher. destruct (rest x); [reflexivity|]. now rewrite H.
Qed.

(** The units [[^W]] matches under the [i] flag: all but [W] and [w]. *)
Definition notW (ch : N) : bool := negb ((ch =? 87) || (ch =? 119)).

Lemma matcher_notW (min : nat) (x : MatchState) (k : MatcherContinuation) :
  matcher true (Rep min None true (NoneOf [87])) x k
  = greedy notW min k (endIndex x) (rest x) (captures x).
Proof.
  cbn [matcher groupsOf]. apply repeatMatcher_class; [|lia].
  intros y k'. apply charMatcher_ext. intros ch. unfold notW. cbn [existsb].
  rewrite orb_false_r. f_equal.
  assert (H : 65 <= 87 <= 90) by lia.
  pose proof (canonicalize_letter_iff ch H) as I.
  destruct (N.eqb_spec (canonicalize true 87) (canonicalize true ch)) as [E|E],
    (N.eqb_spec ch 87), (N.eqb_spec ch 119); try reflexivity; exfalso.
  - symmetry in E. apply I in E. cbn in E. lia.
  - apply E. symmetry. apply I. now left.
  - apply E. symmetry. apply I. now left.
  - apply E. symmetry. apply I. right. cbn. lia.
Qed.

Lemma canonicalize_semicolon (ch : N) :
  (canonicalize true ch =? canonicalize true 59) = (ch =? 59).
Proof.
  replace (canonicalize true 59) with 59 by (vm_compute; reflexivity).
  destruct (N.eqb_spec ch 59) as [->|Hne]; [vm_compute; reflexivity|].
  apply N.eqb_neq. intros E.
  assert (Hch : ch < 128) by (apply canonicalize_ascii; lia).
  unfold canonicalize in E. rewrite upperUnit_ascii in E by exact Hch.
  replace (128 <=? ch) with false in E by (symmetry; apply N.leb_gt; lia).
  cbn [andb] in E.
  destruct (N.leb_spec 97 ch), (N.leb_spec ch 122); cbn [andb] in E; lia.
Qed.

Lemma repeatMatcher_done
    (mr : MatchState -> MatcherContinuation -> option MatchState) (gs : list nat)
    (min : nat) (greedy : bool) (c : MatcherContinuation) (fuel : nat)
    (x : MatchState) :
  repeatMatcher mr gs min (Some 0%nat) greedy c fuel x = c x.
Proof. destruct fuel; reflexivity. Qed.

Lemma matcher_optional_semicolon (x : MatchState) (k : MatcherContinuation) :
  matcher true (Opt (Chr 59)) x k
  = match rest x with
    | ch :: s' =>
        if ch =? 59 then orElse (k (moved x 1 s')) (fun _ => k x) else k x
    | [] => k x
    end.
Proof.
  destruct x as [i s caps]. unfold Opt, moved. cbn [matcher groupsOf rest endIndex captures].
  destruct s as [|ch s'].
  - reflexivity.
  - cbn [List.length Nat.add repeatMatcher clearCaptures fold_right option_map pred
         negb Nat.eqb andb].
    cbn [matcher]. unfold charMatcher. cbn [rest endIndex captures].
    rewrite canonicalize_semicolon.
    destruct (ch =? 59); [|reflexivity].
    replace (Nat.eqb (S i) i) with false by (symmetry; apply Nat.eqb_neq; lia).
    rewrite repeatMatcher_done. now rewrite Nat.add_1_r.
Qed.

(** An anchored pattern is tried at the start of the text only. *)
Lemma test_anchored (r : regex) (g : bool) (n : nat) (t : jsstring) :
  test (mkRegExp (Cat Bol r) true g n) t
  = match matcher true r (mkMatchState 0 t (List.repeat None n)) (fun y => Some y) with
    | Some _ => true
    | None => false
    end.
Proof.
  unfold test, exec. destruct t as [|c t]; cbn [searchFrom]; unfold matchAt;
    cbn [matcher pattern ignoreCase endIndex Nat.eqb];
    destruct (matcher true r _ _); rewrite ?searchFrom_anchored; reflexivity.
Qed.

Lemma upper_forallb (w : jsstring) :
  forallb (fun c => (65 <=? c) && (c <=? 90)) w = true -> upper w.
Proof.
  intros Hw. apply Forall_forall. intros c Hc.
  rewrite forallb_forall in Hw. specialize (Hw c Hc).
  apply andb_prop in Hw as [H1 H2].
  apply N.leb_le in H1. apply N.leb_le in H2. lia.
Qed.

Lemma letter_not_space (c : N) : 65 <= c <= 122 -> isSpace c = false.
Proof.
  intros H. unfold isSpace.
  replace (c <=? 13) with false by (symmetry; apply N.leb_gt; lia).
  replace (c =? 32) with false by (symmetry; apply N.eqb_neq; lia).
  replace (c =? 160) with false by (symmetry; apply N.eqb_neq; lia).
  replace (c =? 5760) with false by (symmetry; apply N.eqb_neq; lia).
  replace (8192 <=? c) with false by (symmetry; apply N.leb_gt; lia).
  replace (c =? 8232) with false by (symmetry; apply N.eqb_neq; lia).
  replace (c =? 8233) with false by (symmetry; apply N.eqb_neq; lia).
  replace (c =? 8239) with false by (symmetry; apply N.eqb_neq; lia).
  replace (c =? 8287) with false by (symmetry; apply N.eqb_neq; lia).
  replace (c =? 12288) with false by (symmetry; apply N.eqb_neq; lia).
  replace (c =? 65279) with false by (symmetry; apply N.eqb_neq; lia).
  now rewrite andb_false_r.
Qed.

Lemma word_not_space (c : N) : isWord c = true -> isSpace c = false.
Proof.
  intros H.
  assert (R : 48 <= c <= 122).
  { unfold isWord in H.
    repeat match type of H with
           | _ || _ = true => apply orb_prop in H as [H|H]
           end;
      try (apply andb_prop in H as [H1 H2];
           apply N.leb_le in H1; apply N.leb_le in H2; lia).
    apply N.eqb_eq in H. lia. }
  unfold isSpace.
  replace (c <=? 13) with false by (symmetry; apply N.leb_gt; lia).
  replace (c =? 32) with false by (symmetry; apply N.eqb_neq; lia).
  replace (c =? 160) with false by (symmetry; apply N.eqb_neq; lia).
  replace (c =? 5760) with false by (symmetry; apply N.eqb_neq; lia).
  replace (8192 <=? c) with false by (symmetry; apply N.leb_gt; lia).
  replace (c =? 8232) with false by (symmetry; apply N.eqb_neq; lia).
  replace (c =? 8233) with false by (symmetry; apply N.eqb_neq; lia).
  replace (c =? 8239) with false by (symmetry; apply N.eqb_neq; lia).
  replace (c =? 8287) with false by (symmetry; apply N.eqb_neq; lia).
  replace (c =? 12288) with false by (symmetry; apply N.eqb_neq; lia).
  replace (c =? 65279) with false by (symmetry; apply N.eqb_neq; lia).
  now rewrite andb_false_r.
Qed.

Lemma space_not_word (c : N) : isSpace c = true -> isWord c = false.
Proof.
  intros H. destruct (isWord c) eqn:E; [|reflexivity].
  apply word_not_space in E. congruence.
Qed.

(** A word in letters starts with no white space. *)
Lemma letters_stop_spaces (w a r : jsstring) :
  upper w -> w <> [] -> letters w a -> stops isSpace (a ++ r).
Proof.
  intros Hw Hne H. destruct H as [|c ch w a Hc H]; [congruence|].
  inversion Hw as [|? ? Hc' _]; subst. cbn.
  apply letter_not_space. destruct Hc as [-> | ->]; lia.
Qed.

Lemma letters_length (w a : jsstring) : letters w a -> List.length a = List.length w.
Proof. intros H. symmetry. eapply Forall2_length, H. Qed.

(** ** What the danger rules match *)

(** A non-empty run of white space. *)
Definition blank (ws : jsstring) : Prop := ws <> [] /\ forallb isSpace ws = true.

Lemma blank_length (ws : jsstring) : blank ws -> (1 <= List.length ws)%nat.
Proof. intros [H _]. destruct ws; [congruence|cbn; lia]. Qed.

Lemma blank_stops_words (ws r : jsstring) : blank ws -> stops isWord (ws ++ r).
Proof.
  intros [Hne H]. destruct ws as [|c ws]; [congruence|]. cbn in *.
  apply andb_prop in H as [H _]. now apply space_not_word.
Qed.

Lemma lit_sound (w : string) (x : MatchState) (k : MatcherContinuation)
    (z : MatchState) :
  upper (js w) ->
  matcher true (lit w) x k = Some z ->
  exists a r, rest x = a ++ r /\ letters (js w) a /\
              k (moved x (List.length (js w)) r) = Some z.
Proof.
  intros Hw. unfold lit. rewrite matcher_word_eq.
  destruct (stripCI (js w) (rest x)) as [r|] eqn:E; [|discriminate].
  intros H. apply stripCI_sound in E as (a & Ha & La); [|exact Hw].
  now exists a, r.
Qed.

Lemma lit_complete (w : string) (x : MatchState) (k : MatcherContinuation)
    (a r : jsstring) :
  upper (js w) -> rest x = a ++ r -> letters (js w) a ->
  matcher true (lit w) x k = k (moved x (List.length (js w)) r).
Proof.
  intros Hw Hx La. unfold lit. rewrite matcher_word_eq, Hx.
  now rewrite (stripCI_letters r Hw La).
Qed.

Lemma class_sound (p : N -> bool) (min : nat) (x : MatchState)
    (k : MatcherContinuation) (z : MatchState) :
  greedy p min k (endIndex x) (rest x) (captures x) = Some z ->
  exists ws r, rest x = ws ++ r /\ forallb p ws = true /\
               (min <= List.length ws)%nat /\
               k (moved x (List.length ws) r) = Some z.
Proof. apply greedy_sound. Qed.

Lemma class_complete (p : N -> bool) (min : nat) (x : MatchState)
    (k : MatcherContinuation) (z : MatchState) (ws r : jsstring) :
  rest x = ws ++ r -> forallb p ws = true -> stops p r ->
  (min <= List.length ws)%nat ->
  k (moved x (List.length ws) r) = Some z ->
  greedy p min k (endIndex x) (rest x) (captures x) = Some z.
Proof. intros ->. now apply greedy_longest. Qed.

Lemma sp_sound (x : MatchState) (k : MatcherContinuation) (z : MatchState) :
  matcher true sp x k = Some z ->
  exists ws r, rest x = ws ++ r /\ blank ws /\
               k (moved x (List.length ws) r) = Some z.
Proof.
  unfold sp, Plus. rewrite matcher_spaces. intros H.
  apply class_sound in H as (ws & r & Hx & Hws & Hmin & H).
  exists ws, r. repeat split; try assumption.
  intros ->. cbn in Hmin. lia.
Qed.

Lemma sp_complete (x : MatchState) (k : MatcherContinuation) (z : MatchState)
    (ws r : jsstring) :
  rest x = ws ++ r -> blank ws -> stops isSpace r ->
  k (moved x (List.length ws) r) = Some z ->
  matcher true sp x k = Some z.
Proof.
  intros Hx Hb Hr H. unfold sp, Plus. rewrite matcher_spaces.
  eapply class_complete; [exact Hx|apply Hb|exact Hr|now apply blank_length|exact H].
Qed.

Lemma spaces_sound (x : MatchState) (k : MatcherContinuation) (z : MatchState) :
  matcher true (Star Space) x k = Some z ->
  exists ws r, rest x = ws ++ r /\ forallb isSpace ws = true /\
               k (moved x (List.length ws) r) = Some z.
Proof.
  unfold Star. rewrite matcher_spaces. intros H.
  apply class_sound in H as (ws & r & Hx & Hws & _ & H). now exists ws, r.
Qed.

Lemma spaces_complete (x : MatchState) (k : MatcherContinuation) (z : MatchState)
    (ws r : jsstring) :
  rest x = ws ++ r -> forallb isSpace ws = true -> stops isSpace r ->
  k (moved x (List.length ws) r) = Some z ->
  matcher true (Star Space) x k = Some z.
Proof.
  intros Hx Hb Hr H. unfold Star. rewrite matcher_spaces.
  eapply class_complete; [exact Hx|exact Hb|exact Hr|lia|exact H].
Qed.

Lemma words_sound (x : MatchState) (k : MatcherContinuation) (z : MatchState) :
  matcher true (Plus Word) x k = Some z ->
  exists W r, rest x = W ++ r /\ W <> [] /\ forallb isWord W = true /\
              k (moved x (List.length W) r) = Some z.
Proof.
  unfold Plus. rewrite matcher_words. intros H.
  apply class_sound in H as (W & r & Hx & HW & Hmin & H).
  exists W, r. repeat split; try assumption.
  intros ->. cbn in Hmin. lia.
Qed.

Lemma words_complete (x : MatchState) (k : MatcherContinuation) (z : MatchState)
    (W r : jsstring) :
  rest x = W ++ r -> W <> [] -> forallb isWord W = true -> stops isWord r ->
  k (moved x (List.length W) r) = Some z ->
  matcher true (Plus Word) x k = Some z.
Proof.
  intros Hx Hne HW Hr H. unfold Plus. rewrite matcher_words.
  eapply class_complete; [exact Hx|exact HW|exact Hr| |exact H].
  destruct W; [congruence|cbn; lia].
Qed.

Lemma eol_eq (x : MatchState) (k : MatcherContinuation) :
  matcher true Eol x k = match rest x with [] => k x | _ => None end.
Proof. reflexivity. Qed.

(** [KEYWORD], white space, then anything. *)
Definition oneWordShape (w : string) (t : jsstring) : Prop :=
  exists a ws tail,
    t = a ++ ws ++ tail /\ letters (js w) a /\ blank ws.

(** [KEYWORD KEYWORD], white space after each, then anything. *)
Definition twoWordShape (w1 w2 : string) (t : jsstring) : Prop :=
  exists a ws1 b ws2 tail,
    t = a ++ ws1 ++ b ++ ws2 ++ tail /\
    letters (js w1) a /\ blank ws1 /\ letters (js w2) b /\ blank ws2.

(** [DELETE FROM table], then at most white space and one [;]. *)
Definition deleteAllShape (t : jsstring) : Prop :=
  exists a ws1 b ws2 W ws3 semi ws4,
    t = a ++ ws1 ++ b ++ ws2 ++ W ++ ws3 ++ semi ++ ws4 /\
    letters (js "DELETE") a /\ blank ws1 /\ letters (js "FROM") b /\ blank ws2 /\
    W <> [] /\ forallb isWord W = true /\ forallb isSpace ws3 = true /\
    (semi = [] \/ semi = js ";") /\ forallb isSpace ws4 = true.

(** [UPDATE table SET ...] with no [w] or [W] after [SET]. *)
Definition updateShape (t : jsstring) : Prop :=
  exists a ws1 W ws2 b ws3 tail,
    t = a ++ ws1 ++ W ++ ws2 ++ b ++ ws3 ++ tail /\
    letters (js "UPDATE") a /\ blank ws1 /\
    W <> [] /\ forallb isWord W = true /\ blank ws2 /\
    letters (js "SET") b /\ blank ws3 /\ forallb notW tail = true.

Ltac upper_word := apply upper_forallb; vm_compute; reflexivity.

Ltac start_test :=
  unfold re_i; cbn [seq]; rewrite test_anchored.

Lemma blank_app (ws u : jsstring) :
  blank ws -> forallb isSpace u = true -> blank (ws ++ u).
Proof.
  intros [Hne H] Hu. split.
  - destruct ws; [congruence|discriminate].
  - rewrite forallb_app, H, Hu. reflexivity.
Qed.

Lemma test_one_word (w : string) (t : jsstring) :
  upper (js w) ->
  test (re_i (seq [Bol; lit w; sp])) t = true <-> oneWordShape w t.
Proof.
  intros Hw. start_test. split.
  - destruct (matcher _ _ _ _) as [z|] eqn:H; [intros _|discriminate].
    cbn [matcher] in H.
    apply lit_sound in H as (a & r1 & Hr1 & La & H); [|exact Hw].
    apply sp_sound in H as (ws & r2 & Hr2 & B & _).
    cbn [rest moved] in *. subst. now exists a, ws, r2.
  - intros (a & ws & tail & -> & La & B).
    destruct (longest_run isSpace tail) as (u & v & -> & Hu & Hv).
    assert (H : exists z,
              matcher true (Cat (lit w) sp)
                (mkMatchState 0 (a ++ ws ++ u ++ v)
                   (List.repeat None (List.length (groupsOf (Cat Bol (Cat (lit w) sp))))))
                (fun y => Some y) = Some z).
    { eexists. cbn [matcher].
      rewrite lit_complete with (a := a) (r := ws ++ u ++ v) by auto.
      eapply sp_complete with (ws := ws ++ u) (r := v).
      - cbn [rest moved]. now rewrite app_assoc.
      - now apply blank_app.
      - exact Hv.
      - reflexivity. }
    destruct H as [z ->]. reflexivity.
Qed.

Lemma test_two_words (w1 w2 : string) (t : jsstring) :
  upper (js w1) -> upper (js w2) -> js w2 <> [] ->
  test (re_i (seq [Bol; lit w1; sp; lit w2; sp])) t = true <-> twoWordShape w1 w2 t.
Proof.
  intros Hw1 Hw2 Hne. start_test. split.
  - destruct (matcher _ _ _ _) as [z|] eqn:H; [intros _|discriminate].
    cbn [matcher] in H.
    apply lit_sound in H as (a & r1 & Hr1 & La & H); [|exact Hw1].
    apply sp_sound in H as (ws1 & r2 & Hr2 & B1 & H).
    apply lit_sound in H as (b & r3 & Hr3 & Lb & H); [|exact Hw2].
    apply sp_sound in H as (ws2 & r4 & Hr4 & B2 & _).
    cbn [rest moved] in *. subst. now exists a, ws1, b, ws2, r4.
  - intros (a & ws1 & b & ws2 & tail & -> & La & B1 & Lb & B2).
    destruct (longest_run isSpace tail) as (u & v & -> & Hu & Hv).
    match goal with
    | |- match ?m with _ => _ end = true =>
        assert (H : exists z, m = Some z); [|destruct H as [z ->]; reflexivity]
    end.
    eexists. cbn [matcher].
    rewrite lit_complete with (a := a) (r := ws1 ++ b ++ ws2 ++ u ++ v) by auto.
    eapply sp_complete with (ws := ws1) (r := b ++ ws2 ++ u ++ v);
      [reflexivity|exact B1|now apply letters_stop_spaces with (w := js w2)|].
    rewrite lit_complete with (a := b) (r := ws2 ++ u ++ v) by auto.
    eapply sp_complete with (ws := ws2 ++ u) (r := v).
    + cbn [rest moved]. now rewrite app_assoc.
    + now apply blank_app.
    + exact Hv.
    + reflexivity.
Qed.

Lemma orElse_some (a : option MatchState) (b : unit -> option MatchState)
    (z : MatchState) :
  a = Some z -> orElse a b = Some z.
Proof. now intros ->. Qed.

Lemma test_delete_all (t : jsstring) :
  test (re_i (seq [Bol; lit "DELETE"; sp; lit "FROM"; sp; Plus Word; Star Space;
                   Opt (Chr 59); Star Space; Eol])) t = true
  <-> deleteAllShape t.
Proof.
  start_test. split.
  - destruct (matcher _ _ _ _) as [z|] eqn:H; [intros _|discriminate].
    cbn [matcher] in H.
    apply lit_sound in H as (a & r1 & Hr1 & La & H); [|upper_word].
    apply sp_sound in H as (ws1 & r2 & Hr2 & B1 & H).
    apply lit_sound in H as (b & r3 & Hr3 & Lb & H); [|upper_word].
    apply sp_sound in H as (ws2 & r4 & Hr4 & B2 & H).
    apply words_sound in H as (W & r5 & Hr5 & HW & FW & H).
    apply spaces_sound in H as (ws3 & r6 & Hr6 & B3 & H).
    rewrite matcher_optional_semicolon in H.
    cbn [rest moved] in *. subst.
    assert (End : forall x z',
              matcher true (Star Space) x
                (fun y => matcher true Eol y (fun y0 => Some y0)) = Some z' ->
              forallb isSpace (rest x) = true).
    { intros x z' E. apply spaces_sound in E as (ws4 & r7 & Hx & B4 & E).
      rewrite eol_eq in E. cbn [rest moved] in E.
      destruct r7; [|discriminate]. now rewrite Hx, app_nil_r. }
    assert (Skip : forall r6', forallb isSpace r6' = true ->
              deleteAllShape (a ++ ws1 ++ b ++ ws2 ++ W ++ ws3 ++ r6')).
    { intros r6' E. exists a, ws1, b, ws2, W, ws3, [], r6'. cbn [app].
      repeat split; try assumption; try apply B1; try apply B2. now left. }
    destruct r6 as [|ch s'].
    + apply Skip. apply End in H. exact H.
    + destruct (N.eqb_spec ch 59) as [->|Hne];
        [|apply Skip; apply End in H; exact H].
      unfold orElse in H.
      match type of H with
      | match ?m with _ => _ end = _ => destruct m as [z'|] eqn:E
      end.
      * apply End in E. cbn [rest] in E.
        exists a, ws1, b, ws2, W, ws3, (js ";"), s'.
        replace (js ";" ++ s') with (59 :: s') by (vm_compute; reflexivity).
        repeat split; try assumption; try apply B1; try apply B2. now right.
      * apply Skip. apply End in H. exact H.
  - intros (a & ws1 & b & ws2 & W & ws3 & semi & ws4 & -> & La & B1 & Lb & B2
            & HW & FW & B3 & Hsemi & B4).
    assert (Hsemi' : isSpace 59 = false) by (vm_compute; reflexivity).
    assert (Hstop : stops isSpace (W ++ ws3 ++ semi ++ ws4)).
    { destruct W as [|c W]; [congruence|]. cbn in *.
      apply andb_prop in FW as [FW _]. now apply word_not_space. }
    assert (Hfrom : stops isSpace (b ++ ws2 ++ W ++ ws3 ++ semi ++ ws4)).
    { apply letters_stop_spaces with (w := js "FROM"); [upper_word| |exact Lb].
      vm_compute; discriminate. }
    destruct Hsemi as [-> | ->];
      match goal with
      | |- match ?m with _ => _ end = true =>
          assert (H : exists z, m = Some z); [|destruct H as [z ->]; reflexivity]
      end;
      eexists; cbn [matcher];
      (rewrite lit_complete with (a := a) (r := ws1 ++ b ++ ws2 ++ W ++ ws3 ++ _ ++ ws4)
         by first [upper_word|reflexivity|assumption]);
      (eapply sp_complete with (ws := ws1) (r := b ++ ws2 ++ W ++ ws3 ++ _ ++ ws4);
         [reflexivity|exact B1|exact Hfrom|]);
      (rewrite lit_complete with (a := b) (r := ws2 ++ W ++ ws3 ++ _ ++ ws4)
         by first [upper_word|reflexivity|assumption]);
      (eapply sp_complete with (ws := ws2) (r := W ++ ws3 ++ _ ++ ws4);
         [reflexivity|exact B2|exact Hstop|]).
    + (* no semicolon: the white space is one run to the end *)
      cbn [app].
      eapply words_complete with (W := W) (r := ws3 ++ ws4);
        [reflexivity|exact HW|exact FW| |].
      { destruct ws3 as [|c ws3]; [destruct ws4 as [|c ws4]|]; cbn in *; auto.
        - apply andb_prop in B4 as [B4 _]. now apply space_not_word.
        - apply andb_prop in B3 as [B3 _]. now apply space_not_word. }
      eapply spaces_complete with (ws := ws3 ++ ws4) (r := []).
      * cbn [rest moved]. now rewrite app_nil_r.
      * now rewrite forallb_app, B3, B4.
      * exact I.
      * rewrite matcher_optional_semicolon. cbn [rest moved].
        eapply spaces_complete with (ws := []) (r := []);
          [reflexivity|reflexivity|exact I|].
        reflexivity.
    + replace (js ";" ++ ws4) with (59 :: ws4) by (vm_compute; reflexivity).
      eapply words_complete with (W := W) (r := ws3 ++ 59 :: ws4);
        [reflexivity|exact HW|exact FW| |].
      { destruct ws3 as [|c ws3]; cbn in *; auto.
        apply andb_prop in B3 as [B3 _]. now apply space_not_word. }
      eapply spaces_complete with (ws := ws3) (r := 59 :: ws4);
        [reflexivity|exact B3|exact Hsemi'|].
      rewrite matcher_optional_semicolon. cbn [rest moved]. rewrite N.eqb_refl.
      apply orElse_some.
      eapply spaces_complete with (ws := ws4) (r := []).
      * cbn [rest moved]. now rewrite app_nil_r.
      * exact B4.
      * exact I.
      * reflexivity.
Qed.

Lemma forallb_suffix (p : N -> bool) (u v : jsstring) :
  forallb p (u ++ v) = true -> forallb p v = true.
Proof. rewrite forallb_app. intros H. now apply andb_prop in H. Qed.

Lemma space_notW (c : N) : isSpace c = true -> notW c = true.
Proof.
  intros H. unfold notW.
  destruct (N.eqb_spec c 87) as [->|_]; [vm_compute in H; discriminate|].
  destruct (N.eqb_spec c 119) as [->|_]; [vm_compute in H; discriminate|].
  reflexivity.
Qed.

Lemma test_update (t : jsstring) :
  test (re_i (seq [Bol; lit "UPDATE"; sp; Plus Word; sp; lit "SET"; sp;
                   Star (NoneOf [87]); Eol])) t = true
  <-> updateShape t.
Proof.
  start_test. split.
  - destruct (matcher _ _ _ _) as [z|] eqn:H; [intros _|discriminate].
    cbn [matcher] in H.
    apply lit_sound in H as (a & r1 & Hr1 & La & H); [|upper_word].
    apply sp_sound in H as (ws1 & r2 & Hr2 & B1 & H).
    apply words_sound in H as (W & r3 & Hr3 & HW & FW & H).
    apply sp_sound in H as (ws2 & r4 & Hr4 & B2 & H).
    apply lit_sound in H as (b & r5 & Hr5 & Lb & H); [|upper_word].
    apply sp_sound in H as (ws3 & r6 & Hr6 & B3 & H).
    unfold Star in H. rewrite matcher_notW in H.
    apply class_sound in H as (tail & r7 & Hr7 & Ft & _ & H).
    cbn [rest moved] in *.
    destruct r7; [|discriminate]. rewrite app_nil_r in Hr7. subst.
    now exists a, ws1, W, ws2, b, ws3, tail.
  - intros (a & ws1 & W & ws2 & b & ws3 & tail & -> & La & B1 & HW & FW & B2
            & Lb & B3 & Ft).
    destruct (longest_run isSpace tail) as (u & v & -> & Hu & Hv).
    match goal with
    | |- match ?m with _ => _ end = true =>
        assert (H : exists z, m = Some z); [|destruct H as [z ->]; reflexivity]
    end.
    eexists. cbn [matcher].
    rewrite lit_complete
      with (a := a) (r := ws1 ++ W ++ ws2 ++ b ++ ws3 ++ u ++ v)
      by first [upper_word|reflexivity|assumption].
    eapply sp_complete with (ws := ws1) (r := W ++ ws2 ++ b ++ ws3 ++ u ++ v);
      [reflexivity|exact B1| |].
    { destruct W as [|c W]; [congruence|]. cbn in *.
      apply andb_prop in FW as [FW _]. now apply word_not_space. }
    eapply words_complete with (W := W) (r := ws2 ++ b ++ ws3 ++ u ++ v);
      [reflexivity|exact HW|exact FW|now apply blank_stops_words|].
    eapply sp_complete with (ws := ws2) (r := b ++ ws3 ++ u ++ v);
      [reflexivity|exact B2| |].
    { apply letters_stop_spaces with (w := js "SET"); [upper_word| |exact Lb].
      vm_compute; discriminate. }
    rewrite lit_complete with (a := b) (r := ws3 ++ u ++ v)
      by first [upper_word|reflexivity|assumption].
    eapply sp_complete with (ws := ws3 ++ u) (r := v).
    + cbn [rest moved]. now rewrite app_assoc.
    + now apply blank_app.
    + exact Hv.
    + unfold Star. rewrite matcher_notW.
      eapply class_complete with (ws := v) (r := []).
      * cbn [rest moved]. now rewrite app_nil_r.
      * now apply forallb_suffix in Ft.
      * exact I.
      * lia.
      * reflexivity.
Qed.

(** The first unit of a word in letters. *)
Lemma letters_first (w a r : jsstring) :
  w <> [] -> letters w a ->
  hd 0 (a ++ r) = hd 0 w \/ hd 0 (a ++ r) = hd 0 w + 32.
Proof. intros Hne H. destruct H as [|c ch w a Hc H]; [congruence|]. exact Hc. Qed.

(** The texts of high severity. *)
Definition highShape (t : jsstring) : Prop :=
  twoWordShape "DROP" "TABLE" t \/ twoWordShape "DROP" "DATABASE" t \/
  deleteAllShape t \/ oneWordShape "TRUNCATE" t.

Lemma test_drop_table (t : jsstring) :
  test (re_i (seq [Bol; lit "DROP"; sp; lit "TABLE"; sp])) t = true
  <-> twoWordShape "DROP" "TABLE" t.
Proof.
  apply test_two_words; try upper_word. vm_compute; discriminate.
Qed.

Lemma test_drop_database (t : jsstring) :
  test (re_i (seq [Bol; lit "DROP"; sp; lit "DATABASE"; sp])) t = true
  <-> twoWordShape "DROP" "DATABASE" t.
Proof.
  apply test_two_words; try upper_word. vm_compute; discriminate.
Qed.

Lemma test_truncate (t : jsstring) :
  test (re_i (seq [Bol; lit "TRUNCATE"; sp])) t = true
  <-> oneWordShape "TRUNCATE" t.
Proof. apply test_one_word. upper_word. Qed.

(** [checkDangerousCommand] holds back exactly the statements of four
    shapes.  A statement is classified [high] if and only if its
    trimmed text is [DROP TABLE] or [DROP DATABASE] or [TRUNCATE]
    followed by white space, or [DELETE FROM] and one table name
    followed by nothing but white space and at most one [;]; the
    keywords in any mix of upper and lower case, with any white space
    between them. *)
Theorem high_severity_shapes (sql : jsstring) :
  isHigh sql = true <-> highShape (trim sql).
Proof.
  unfold isHigh, checkDangerousCommand, dangerousCommands, highShape.
  cbn [checkWith d_pattern level].
  rewrite <- test_drop_table, <- test_drop_database, <- test_delete_all,
    <- test_truncate.
  repeat match goal with
         | |- context [if test ?R ?t then _ else _] => destruct (test R t)
         end; cbn [level]; intuition congruence.
Qed.

(** The one warning that does not hold the statement back is the one
    for an [UPDATE] whose text after [SET] has no [w] in it.  A
    statement is classified [medium] if and only if its trimmed text is
    [UPDATE], a table name, [SET] and a remainder without the letter
    [W] in either case. *)
Theorem medium_severity_shape (sql : jsstring) :
  (exists d, checkDangerousCommand sql = Some d /\ level d = medium)
  <-> updateShape (trim sql).
Proof.
  assert (U : forall t, updateShape t -> highShape t -> False).
  { intros t (a & ws1 & W & ws2 & b & ws3 & tail & -> & La & _) Hh.
    apply (letters_first (ws1 ++ W ++ ws2 ++ b ++ ws3 ++ tail)) in La;
      [|vm_compute; discriminate].
    replace (hd 0 (js "UPDATE")) with 85 in La by (vm_compute; reflexivity).
    destruct Hh as [(a' & ws' & b' & ws2' & tail' & E & La' & _)
                   |[(a' & ws' & b' & ws2' & tail' & E & La' & _)
                    |[(a' & ws' & b' & ws2' & W' & ws3' & semi & ws4 & E & La' & _)
                     |(a' & ws' & tail' & E & La' & _)]]];
      rewrite E in La;
      match type of La' with
      | letters _ ?x =>
          match type of La with
          | context [x ++ ?r] =>
              apply (letters_first r) in La'; [|vm_compute; discriminate];
              generalize dependent (hd 0 (x ++ r)); intros h La La'
          end
      end;
      vm_compute in La'; lia. }
  unfold checkDangerousCommand, dangerousCommands.
  cbn [checkWith d_pattern level].
  pose proof (U (trim sql)) as U'. unfold highShape in U'.
  rewrite <- test_drop_table, <- test_drop_database, <- test_delete_all,
    <- test_truncate in U'.
  rewrite <- test_update in *.
  repeat match goal with
         | |- context [if test ?R ?t then _ else _] => destruct (test R t)
         end; split;
    try (intros (d & [= <-] & Hl); cbn in Hl; first [discriminate|reflexivity]);
    try (intros (d & [=] & _));
    try (intros H; exfalso; apply U'; tauto);
    try (intros _; eexists; split; reflexivity);
    try discriminate.
Qed.

(** ** Vietnamese phrases and the terminator *)

Lemma trim_keeps_last (b : jsstring) (c : N) :
  isSpace c = false -> exists v, trim (b ++ [c]) = v ++ [c].
Proof.
  intros Hc. unfold trim. destruct (@trimStart_snoc b c Hc) as [v ->].
  exists v. unfold trimEnd. rewrite rev_app_distr. cbn [rev app trimStart].
  rewrite Hc. cbn [rev]. now rewrite rev_involutive.
Qed.

Lemma endsWith_snoc (v : jsstring) (c : N) : endsWith (v ++ [c]) [c] = true.
Proof.
  unfold endsWith. rewrite rev_app_distr. cbn [rev app startsWith].
  rewrite N.eqb_refl. now destruct (rev v).
Qed.

Lemma forallb_negb_existsb (A : Type) (f : A -> bool) (l : list A) :
  forallb (fun x => negb (f x)) l = negb (existsb f l).
Proof.
  induction l as [|a l IH]; [reflexivity|]. cbn. rewrite IH.
  now destruct (f a).
Qed.

(** A Vietnamese phrase needs no terminator, and its translation has
    one.  A text counts as complete on account of a translation rule
    exactly when [convertVietnameseToSQL] translates its trimmed form;
    and the translation ends in [;], so that it is a complete statement
    itself. *)
Theorem phrases_need_no_terminator (text : jsstring) :
  (isTranslatable text = true <-> convertVietnameseToSQL (trim text) <> None) /\
  (forall sql, convertVietnameseToSQL (trim text) = Some sql ->
     isCommandComplete text = true /\
     endsWith sql (js ";") = true /\
     isCommandComplete sql = true).
Proof.
  assert (I : isTranslatable text = true
              <-> convertVietnameseToSQL (trim text) <> None).
  { unfold isTranslatable, convertVietnameseToSQL.
    rewrite convertWith_firstMatch.
    pose proof (firstMatch_none vietnameseToSQL (trim text)) as N.
    rewrite forallb_negb_existsb in N.
    destruct (existsb _ vietnameseToSQL); cbn [negb] in N.
    - destruct (firstMatch vietnameseToSQL (trim text)) as [[m gs]|].
      + split; [discriminate|reflexivity].
      + destruct N as [N _]. specialize (N eq_refl). discriminate.
    - destruct N as [_ N]. rewrite (N eq_refl). split; [discriminate|congruence]. }
  split; [exact I|].
  intros sql Hsql.
  assert (Hc : isCommandComplete text = true).
  { rewrite isCommandComplete_cases.
    replace (isTranslatable text) with true by (symmetry; apply I; congruence).
    now rewrite orb_true_r. }
  split; [exact Hc|].
  assert (E : exists b, sql = b ++ [59]).
  { unfold convertVietnameseToSQL in Hsql. rewrite convertWith_firstMatch in Hsql.
    destruct (firstMatch vietnameseToSQL (trim text)) as [[m gs]|]; [|discriminate].
    injection Hsql as <-. eexists.
    replace (js ";") with [59] by (vm_compute; reflexivity). reflexivity. }
  destruct E as [b ->].
  replace (js ";") with [59] by (vm_compute; reflexivity).
  split; [apply endsWith_snoc|].
  rewrite isCommandComplete_cases.
  destruct (@trim_keeps_last b 59) as [v ->]; [vm_compute; reflexivity|].
  replace (js ";") with [59] by (vm_compute; reflexivity).
  rewrite endsWith_snoc. now rewrite orb_true_r.
Qed.

(** ** The optimisation tips *)

Lemma startsWith_app_l (t p q : jsstring) :
  startsWith t (p ++ q) = true -> startsWith t p = true.
Proof.
  revert t; induction p as [|c p IH]; intros t; [destruct t; reflexivity|].
  destruct t as [|ch t]; cbn; [discriminate|].
  intros H. apply andb_prop in H as [-> H]. now apply IH.
Qed.

Lemma includes_app_l (s p q : jsstring) :
  includes s (p ++ q) = true -> includes s p = true.
Proof.
  unfold includes. induction s as [|c s IH]; cbn [indexOf].
  - destruct (startsWith [] (p ++ q)) eqn:E; [|discriminate].
    now rewrite (@startsWith_app_l _ _ _ E).
  - destruct (startsWith (c :: s) (p ++ q)) eqn:E.
    + now rewrite (@startsWith_app_l _ _ _ E).
    + destruct (startsWith (c :: s) p); [reflexivity|].
      destruct (indexOf s (p ++ q)); [|discriminate].
      intros _. specialize (IH eq_refl). now destruct (indexOf s p).
Qed.

Definition tipSelectStar : jsstring :=
  js "💡 Nên chỉ định cột cụ thể thay vì SELECT * để tăng hiệu suất".
Definition tipLimit : jsstring :=
  js "💡 Thêm LIMIT để giới hạn kết quả khi test".
Definition tipOr : jsstring :=
  js "💡 OR có thể chậm, xem xét dùng UNION hoặc IN thay thế".

(** The tips go by substrings of the upper-cased statement.  Every
    statement with a [WHERE] and an [ORDER BY] gets the tip about [OR],
    whether or not it has an [OR], because [ORDER] contains the letters;
    and every statement with [SELECT *] and neither [LIMIT] nor [COUNT]
    anywhere in it gets both the tip about [SELECT *] and the one about
    [LIMIT]. *)
Theorem tips_go_by_substrings (sql : jsstring) :
  let u := toUpperCase sql in
  let tips := getOptimizationTips sql in
  (includes u (js "WHERE") = true -> includes u (js "ORDER") = true ->
   In tipOr tips) /\
  (includes u (js "SELECT *") = true ->
   includes u (js "LIMIT") = false -> includes u (js "COUNT") = false ->
   In tipSelectStar tips /\ In tipLimit tips) /\
  (List.length tips <= 4)%nat.
Proof.
  cbv zeta. unfold getOptimizationTips, tipOr, tipSelectStar, tipLimit.
  split; [|split].
  - intros Hw Ho.
    assert (Hor : includes (toUpperCase sql) (js "OR") = true).
    { apply includes_app_l with (q := js "DER").
      replace (js "OR" ++ js "DER") with (js "ORDER") by (vm_compute; reflexivity).
      exact Ho. }
    rewrite Hor, Hw. cbn [andb]. rewrite !in_app_iff. right; right; right. now left.
  - intros Hs Hl Hc.
    assert (Hsel : includes (toUpperCase sql) (js "SELECT") = true).
    { apply includes_app_l with (q := js " *").
      replace (js "SELECT" ++ js " *") with (js "SELECT *")
        by (vm_compute; reflexivity).
      exact Hs. }
    rewrite Hs, Hsel, Hl, Hc. cbn [andb negb]. split.
    + now left.
    + rewrite !in_app_iff. right; left. now left.
  - repeat match goal with
           | |- context [if ?b then _ else _] => destruct b
           end; cbn; lia.
Qed.

(** ** The explanation mode *)

Lemma truthy_app_l (a b : jsstring) : truthy a = true -> truthy (a ++ b) = true.
Proof. destruct a; [discriminate|reflexivity]. Qed.

Lemma truthy_join (l : list jsstring) :
  Forall (fun x => truthy x = true) l ->
  truthy (join nl l) = match l with [] => false | _ => true end.
Proof.
  intros H. destruct H as [|x l Hx Hl]; [reflexivity|].
  destruct l as [|y l]; [exact Hx|].
  change (join nl (x :: y :: l)) with (x ++ nl ++ join nl (y :: l)).
  now apply truthy_app_l.
Qed.

Lemma part_truthy (upperSQL sql : jsstring) (key : string) (re : RegExp)
    (f : list (option jsstring) -> jsstring) :
  (forall mt, truthy (f mt) = true) ->
  Forall (fun x => truthy x = true) (part upperSQL sql key re f).
Proof.
  intros Hf. unfold part. destruct (includes _ _); [|constructor].
  destruct (matchArray re sql); repeat constructor. apply Hf.
Qed.

Lemma part_length (upperSQL sql : jsstring) (key : string) (re : RegExp)
    (f g : list (option jsstring) -> jsstring) :
  List.length (part upperSQL sql key re f) = List.length (part upperSQL sql key re g).
Proof.
  unfold part. destruct (includes _ _); [|reflexivity].
  destruct (matchArray re sql); reflexivity.
Qed.

Ltac lit_truthy :=
  intros; unfold byMode;
  match goal with
  | |- truthy (match ?m with easy => _ | technical => _ end) = true => destruct m
  end; apply truthy_app_l; vm_compute; reflexivity.

(** Whether there is an explanation does not depend on the mode. *)
Lemma explainSQL_truthy (m1 m2 : Mode) (sql : jsstring) :
  truthy (explainSQL m1 sql) = truthy (explainSQL m2 sql).
Proof.
  unfold explainSQL. cbv zeta.
  rewrite !truthy_join.
  - match goal with
    | |- match ?a with _ => _ end = match ?b with _ => _ end =>
        assert (L : List.length a = List.length b)
    end.
    { rewrite !length_app.
      repeat (f_equal; [apply part_length|]).
      f_equal; [|repeat (f_equal; [apply part_length|]); apply part_length].
      destruct (includes _ _); reflexivity. }
    match goal with
    | |- match ?a with _ => _ end = match ?b with _ => _ end =>
        destruct a, b; try reflexivity; discriminate L
    end.
  - repeat (apply Forall_app; split); try (apply part_truthy; lit_truthy).
    destruct (includes _ _); repeat constructor.
    unfold byMode. destruct m2; vm_compute; reflexivity.
  - repeat (apply Forall_app; split); try (apply part_truthy; lit_truthy).
    destruct (includes _ _); repeat constructor.
    unfold byMode. destruct m1; vm_compute; reflexivity.
Qed.

Section ExplanationMode.

Variable DB : Type.
Variable executeSQL : jsstring -> DB -> SQLResult * DB.
Variable resetDB : DB -> DB.
Variables m1 m2 : Mode.

(** Two entries that differ at most in the wording of an explanation. *)
Definition sameEntry (e1 e2 : CommandEntry) : Prop :=
  id e1 = id e2 /\ type e1 = type e2 /\ table e1 = table e2 /\
  (content e1 = content e2 \/
   (type e1 = Ai /\
    exists sql, content e1 = js "📝 Giải thích:" ++ nl ++ explainSQL m1 sql /\
                content e2 = js "📝 Giải thích:" ++ nl ++ explainSQL m2 sql)).

(** Two states that differ at most in the wording of explanations. *)
Definition alike (s1 s2 : State DB) : Prop :=
  exists h2, s2 = setHistory h2 s1 /\ Forall2 sameEntry (history s1) h2.

Lemma sameEntry_refl (e : CommandEntry) : sameEntry e e.
Proof. unfold sameEntry. auto. Qed.

Lemma alike_refl (s : State DB) : alike s s.
Proof.
  exists (history s). split; [now destruct s|].
  induction (history s); constructor; auto using sameEntry_refl.
Qed.

Ltac same_history :=
  repeat first
    [ assumption
    | apply Forall2_nil
    | apply Forall2_app
    | apply Forall2_cons
    | apply sameEntry_refl ].

Ltac alike_now :=
  eexists; split; [reflexivity|]; cbn; same_history.

Lemma alike_addEntry (t : EntryType) (c : jsstring) (tb : option Table)
    (s1 s2 : State DB) :
  alike s1 s2 -> alike (addEntryWith t c tb s1) (addEntryWith t c tb s2).
Proof. intros (h2 & -> & F). alike_now. Qed.

Lemma alike_runSQL (sql : jsstring) (s1 s2 : State DB) :
  alike s1 s2 ->
  alike (runSQL executeSQL m1 sql s1) (runSQL executeSQL m2 sql s2).
Proof.
  intros (h2 & -> & F). unfold runSQL, callEngine, when.
  cbn [db aiEnabled learningMode setHistory].
  destruct (executeSQL sql (db s1)) as [res d]. cbv zeta.
  rewrite (explainSQL_truthy m2 m1 sql).
  destruct (errorOf res) as [e|].
  - destruct (aiEnabled s1); [destruct (getErrorHelp e)|]; alike_now.
  - destruct (aiEnabled s1), (learningMode s1); cbn [andb];
      destruct (truthy (explainSQL m1 sql));
      destruct (negb _ && negb _);
      try destruct (getOptimizationTips sql);
      eexists; (split; [reflexivity|]); cbn; same_history;
      (split; [reflexivity|split; [reflexivity|split; [reflexivity|]]]);
      right; (split; [reflexivity|]); exists sql; split; reflexivity.
Qed.

Lemma alike_describe (t : jsstring) (s1 s2 : State DB) :
  alike s1 s2 ->
  alike (fst (describe t s1)) (fst (describe t s2)) /\
  snd (describe t s1) = snd (describe t s2).
Proof.
  intros (h2 & -> & F). unfold describe.
  destruct (option_map _ _) as [name|]; [|split; [alike_now|reflexivity]].
  destruct (truthy name); [|split; [alike_now|reflexivity]].
  destruct (getProperty _); (split; [alike_now|reflexivity]).
Qed.

Lemma alike_special (t l : jsstring) (s1 s2 : State DB) :
  alike s1 s2 ->
  match special resetDB t l s1, special resetDB t l s2 with
  | Some r1, Some r2 => alike (fst r1) (fst r2) /\ snd r1 = snd r2
  | None, None => True
  | _, _ => False
  end.
Proof.
  intros H. unfold special.
  repeat match goal with
         | |- context [if ?b then _ else _] =>
             destruct b; [try (now apply alike_describe);
                          destruct H as (h2 & -> & F);
                          (split; [alike_now|reflexivity])|]
         end.
  exact I.
Qed.

Lemma alike_fields (s1 s2 : State DB) :
  alike s1 s2 ->
  buffer s2 = buffer s1 /\ currentLine s2 = currentLine s1 /\
  commandHistory s2 = commandHistory s1 /\ historyIndex s2 = historyIndex s1 /\
  aiEnabled s2 = aiEnabled s1 /\ learningMode s2 = learningMode s1 /\
  showSettings s2 = showSettings s1 /\
  pendingDangerousCommand s2 = pendingDangerousCommand s1 /\
  isMultiLine s2 = isMultiLine s1 /\ idCounter s2 = idCounter s1 /\
  db s2 = db s1 /\ calls s2 = calls s1.
Proof. intros (h2 & -> & _). repeat split. Qed.

Lemma alike_confirmation (l : jsstring) (s1 s2 : State DB) :
  alike s1 s2 ->
  match confirmation executeSQL m1 l s1, confirmation executeSQL m2 l s2 with
  | Some s1', Some s2' => alike s1' s2'
  | None, None => True
  | _, _ => False
  end.
Proof.
  intros H. unfold confirmation, pendingCommand.
  destruct (alike_fields H) as (_&_&_&_&_&_&_&Hp&_). rewrite Hp.
  destruct (pendingDangerousCommand s1) as [cmd|]; [|exact I].
  destruct (truthy cmd); [|exact I].
  destruct (isYes l).
  - apply alike_runSQL. destruct H as (h2 & -> & F). alike_now.
  - destruct (isNo l); [|exact I]. destruct H as (h2 & -> & F). alike_now.
Qed.

Lemma alike_aiProcess (t : jsstring) (s1 s2 : State DB) :
  alike s1 s2 ->
  fst (aiProcess t s1) = fst (aiProcess t s2) /\
  alike (snd (aiProcess t s1)) (snd (aiProcess t s2)).
Proof.
  intros (h2 & -> & F). unfold aiProcess.
  destruct (convertVietnameseToSQL t) as [converted|];
    match goal with
    | |- context [fixSQLTypos ?x] => destruct (fixSQLTypos x) as [fixed [|c cs]]
    end;
    match goal with
    | |- context [checkDangerousCommand ?x] =>
        destruct (checkDangerousCommand x) as [[p w [|]]|]
    end; cbn [fst snd level]; (split; [reflexivity|]); alike_now.
Qed.

Lemma alike_processSQL (t : jsstring) (s1 s2 : State DB) :
  alike s1 s2 ->
  alike (processSQL executeSQL m1 t s1) (processSQL executeSQL m2 t s2).
Proof.
  intros H. unfold processSQL.
  destruct (alike_fields H) as (_&_&_&_&Ha&_). rewrite Ha.
  destruct (aiEnabled s1); [|now apply alike_runSQL].
  destruct (alike_aiProcess t H) as [E A].
  destruct (aiProcess t s1) as [o1 s1'], (aiProcess t s2) as [o2 s2'].
  cbn [fst snd] in *. subst o2. destruct o1; [now apply alike_runSQL|exact A].
Qed.

Lemma alike_executeCommand (x : jsstring) (s1 s2 : State DB) :
  alike s1 s2 ->
  alike (fst (executeCommand executeSQL resetDB m1 x s1))
        (fst (executeCommand executeSQL resetDB m2 x s2)) /\
  snd (executeCommand executeSQL resetDB m1 x s1)
  = snd (executeCommand executeSQL resetDB m2 x s2).
Proof.
  intros H. unfold executeCommand. cbv zeta.
  assert (H0 : alike (remember x s1) (remember x s2)).
  { destruct H as (h2 & -> & F). alike_now. }
  pose proof (alike_special (trim x) (toLowerCase (trim x)) H0) as Hs.
  destruct (special resetDB _ _ (remember x s1)) as [r1|],
    (special resetDB _ _ (remember x s2)) as [r2|]; try contradiction.
  - exact Hs.
  - pose proof (alike_confirmation (toLowerCase (trim x)) H0) as Hc.
    destruct (confirmation executeSQL m1 _ (remember x s1)) as [c1|],
      (confirmation executeSQL m2 _ (remember x s2)) as [c2|]; try contradiction.
    + split; [exact Hc|reflexivity].
    + split; [|reflexivity]. now apply alike_processSQL.
Qed.

Lemma alike_forEachLine (b : bool) (lines : list jsstring) (i : nat)
    (s1 s2 : State DB) :
  alike s1 s2 -> alike (forEachLine b i lines s1) (forEachLine b i lines s2).
Proof.
  revert i s1 s2; induction lines as [|line lines IH]; intros i s1 s2 H;
    cbn [forEachLine]; [exact H|].
  cbv zeta. apply IH. destruct (truthy line || _); [|exact H].
  now apply alike_addEntry.
Qed.

Lemma alike_clearInput (s1 s2 : State DB) :
  alike s1 s2 -> alike (clearInput s1) (clearInput s2).
Proof. intros (h2 & -> & F). alike_now. Qed.

Lemma alike_submit (x : jsstring) (s1 s2 : State DB) :
  alike s1 s2 ->
  alike (submit executeSQL resetDB m1 x s1) (submit executeSQL resetDB m2 x s2).
Proof.
  intros H. unfold submit.
  destruct (alike_fields H) as (Hb & Hc & _). rewrite Hb, Hc.
  pose proof (alike_forEachLine true (buffer s1 ++ [currentLine s1]) 0 H) as He.
  destruct (alike_executeCommand x He) as [A B].
  destruct (executeCommand executeSQL resetDB m1 x _) as [s1' b1],
    (executeCommand executeSQL resetDB m2 x _) as [s2' b2].
  cbn [fst snd] in *. subst b2. destruct b1; [now apply alike_clearInput|exact A].
Qed.

Lemma alike_handleKeyDown (e : KeyboardEvent) (s1 s2 : State DB) :
  alike s1 s2 ->
  alike (handleKeyDown executeSQL resetDB m1 e s1)
        (handleKeyDown executeSQL resetDB m2 e s2).
Proof.
  intros H. unfold handleKeyDown, recall.
  destruct (alike_fields H) as (Hb & Hc & Hh & Hi & _). rewrite Hb, Hc, Hh, Hi.
  destruct (JS.eqb (key e) (js "l") && ctrlKey e).
  { destruct H as (h2 & -> & F). alike_now. }
  destruct (JS.eqb (key e) (js "c") && ctrlKey e).
  { apply alike_clearInput. destruct (negb _ || truthy _); [|exact H].
    now apply alike_addEntry, alike_forEachLine. }
  destruct (JS.eqb (key e) (js "Enter") && ctrlKey e).
  { cbv zeta. destruct (truthy _); [now apply alike_submit|exact H]. }
  destruct (JS.eqb (key e) (js "ArrowUp") && _ && _).
  { destruct (_ <? _)%Z; [|exact H]. destruct H as (h2 & -> & F). alike_now. }
  destruct (JS.eqb (key e) (js "ArrowDown") && _).
  { destruct (_ >? _)%Z; [destruct H as (h2 & -> & F); alike_now|].
    destruct (_ =? _)%Z; [|exact H]. destruct H as (h2 & -> & F). alike_now. }
  destruct (JS.eqb (key e) (js "Enter") && _ && _); [|exact H].
  cbv zeta. destruct (isCommandComplete _); [now apply alike_submit|].
  destruct H as (h2 & -> & F). alike_now.
Qed.

Lemma alike_step (ev : Event) (s1 s2 : State DB) :
  alike s1 s2 ->
  alike (step executeSQL resetDB m1 s1 ev) (step executeSQL resetDB m2 s2 ev).
Proof.
  intros H. destruct ev as [e|v| | | |i]; cbn [step].
  - now apply alike_handleKeyDown.
  - destruct H as (h2 & -> & F). alike_now.
  - destruct H as (h2 & -> & F). alike_now.
  - destruct H as (h2 & -> & F). alike_now.
  - destruct H as (h2 & -> & F). alike_now.
  - destruct (nth_error quickExamples i); [|exact H].
    destruct (includes _ _); destruct H as (h2 & -> & F); alike_now.
Qed.

Lemma alike_run (evs : list Event) (s1 s2 : State DB) :
  alike s1 s2 ->
  alike (run executeSQL resetDB m1 evs s1) (run executeSQL resetDB m2 evs s2).
Proof.
  unfold run. revert s1 s2; induction evs as [|ev evs IH]; intros s1 s2 H;
    [exact H|].
  cbn [fold_left]. apply IH. now apply alike_step.
Qed.

(** The explanation mode changes the wording of explanations and
    nothing else.  Run from the same state through the same events in
    two modes, the console makes the same calls to the engine, ends with
    the same store, input, recall list, switches and held statement, and
    the two transcripts have the same entries one by one (id, type,
    table and text) but for the text of the notes that explain a
    statement. *)
Theorem mode_changes_wording_only (evs : list Event) (s : State DB) :
  let s1 := run executeSQL resetDB m1 evs s in
  let s2 := run executeSQL resetDB m2 evs s in
  (calls s2 = calls s1 /\ db s2 = db s1 /\
   buffer s2 = buffer s1 /\ currentLine s2 = currentLine s1 /\
   commandHistory s2 = commandHistory s1 /\ historyIndex s2 = historyIndex s1 /\
   aiEnabled s2 = aiEnabled s1 /\ learningMode s2 = learningMode s1 /\
   pendingDangerousCommand s2 = pendingDangerousCommand s1) /\
  Forall2
    (fun e1 e2 =>
       id e1 = id e2 /\ type e1 = type e2 /\ table e1 = table e2 /\
       (content e1 = content e2 \/
        (type e1 = Ai /\
         exists sql, content e1 = js "📝 Giải thích:" ++ nl ++ explainSQL m1 sql /\
                     content e2 = js "📝 Giải thích:" ++ nl ++ explainSQL m2 sql)))
    (history s1) (history s2).
Proof.
  cbv zeta. pose proof (alike_run evs (alike_refl s)) as H.
  destruct (alike_fields H) as (Hb&Hc&Hh&Hi&Ha&Hl&_&Hp&_&_&Hd&Hcl).
  split; [exact (conj Hcl (conj Hd (conj Hb (conj Hc (conj Hh (conj Hi
                   (conj Ha (conj Hl Hp))))))))|].
  destruct H as (h2 & E & F). rewrite E. exact F.
Qed.

End ExplanationMode.

(** ** The listing rules *)

(** A matcher that hands its continuation the groups it started with. *)
Definition keepsCaptures (mr : MatchState -> MatcherContinuation -> option MatchState)
  : Prop :=
  forall x k z, mr x k = Some z ->
    exists y, k y = Some z /\ captures y = captures x.

Lemma charMatcher_keepsCaptures (p : N -> bool) : keepsCaptures (charMatcher p).
Proof.
  intros x k z. unfold charMatcher. destruct (rest x) as [|ch s']; [discriminate|].
  destruct (p ch); [|discriminate]. intros H. eexists. split; [exact H|reflexivity].
Qed.

Lemma repeatMatcher_keepsCaptures
    (mr : MatchState -> MatcherContinuation -> option MatchState)
    (greedy : bool) (c : MatcherContinuation) :
  keepsCaptures mr ->
  forall fuel min max x z,
    repeatMatcher mr [] min max greedy c fuel x = Some z ->
    exists y, c y = Some z /\ captures y = captures x.
Proof.
  intros Hmr. induction fuel as [|fuel IH]; intros min max x z.
  - simpl. destruct max as [[|m]|]; intros H; exists x; auto.
  - cbn [repeatMatcher clearCaptures fold_right].
    assert (Stop : c x = Some z ->
              exists y, c y = Some z /\ captures y = captures x)
      by (intros H; exists x; auto).
    assert (Go : forall max',
              mr x
                 (fun y => if Nat.eqb min 0 && Nat.eqb (endIndex y) (endIndex x)
                           then None
                           else repeatMatcher mr [] (pred min) max' greedy c fuel y)
              = Some z ->
              exists y, c y = Some z /\ captures y = captures x).
    { intros max' H. apply Hmr in H as (y1 & H & L1).
      destruct (Nat.eqb min 0 && Nat.eqb (endIndex y1) (endIndex x)); [discriminate|].
      apply IH in H as (y & H & L). exists y. split; [exact H|congruence]. }
    destruct max as [[|m]|]; [exact Stop| |];
      (destruct (negb (Nat.eqb min 0)); [apply Go|]);
      (destruct greedy; unfold orElse;
       [ match goal with
         | |- context [match ?a with Some _ => _ | None => _ end] =>
             destruct a eqn:E; [intros [= <-]; now apply (Go _ E)|exact Stop]
         end
       | destruct (c x) eqn:E; [intros [= <-]; now apply Stop|apply Go] ]).
Qed.

(** A pattern without groups leaves the groups as they are. *)
Lemma matcher_keepsCaptures (ic : bool) (r : regex) :
  groupsOf r = [] -> keepsCaptures (matcher ic r).
Proof.
  induction r as [|c| | | |cs|r1 IH1 r2 IH2|r1 IH1 r2 IH2|min max greedy r1 IH1
                  |n r1 IH1| | |r1 IH1]; cbn [groupsOf]; intros Hg x k z;
    cbn [matcher].
  - intros H. exists x. auto.
  - apply charMatcher_keepsCaptures.
  - apply charMatcher_keepsCaptures.
  - apply charMatcher_keepsCaptures.
  - apply charMatcher_keepsCaptures.
  - apply charMatcher_keepsCaptures.
  - apply app_eq_nil in Hg as [G1 G2]. intros H.
    apply (IH1 G1) in H as (y1 & H & L1). apply (IH2 G2) in H as (y & H & L).
    exists y. split; [exact H|congruence].
  - apply app_eq_nil in Hg as [G1 G2]. unfold orElse.
    destruct (matcher ic r1 x k) eqn:E.
    + intros [= <-]. now apply (IH1 G1).
    + now apply IH2.
  - rewrite Hg. apply repeatMatcher_keepsCaptures. now apply IH1.
  - discriminate.
  - destruct (Nat.eqb (endIndex x) 0); [|discriminate]. intros H. exists x. auto.
  - destruct (rest x); [|discriminate]. intros H. exists x. auto.
  - destruct (matcher ic r1 x _); [discriminate|]. intros H. exists x. auto.
Qed.

(** A pattern without groups followed by a group of word characters: the one group is a
    non-empty run of word characters. *)
Lemma seq_then_word (rs : list regex) :
  Forall (fun r => groupsOf r = []) rs ->
  forall x z,
    matcher true (seq (rs ++ [Group 1 (Plus Word)])) x (fun y => Some y) = Some z ->
    exists W, W <> [] /\ forallb isWord W = true /\
              captures z = setNth 0 (Some W) (captures x).
Proof.
  induction 1 as [|r rs Hr Hrs IH]; intros x z.
  - cbn [app seq matcher]. intros H.
    apply words_sound in H as (W & r & Hx & HW & FW & H).
    injection H as <-. exists W. split; [exact HW|]. split; [exact FW|].
    unfold setCapture, moved. cbn [captures endIndex pred]. rewrite Hx.
    replace (endIndex x + List.length W - endIndex x)%nat with (List.length W) by lia.
    rewrite firstn_app, firstn_all, Nat.sub_diag, firstn_0, app_nil_r. reflexivity.
  - assert (E : seq ((r :: rs) ++ [Group 1 (Plus Word)])
                = Cat r (seq (rs ++ [Group 1 (Plus Word)])))
      by (destruct rs; reflexivity).
    rewrite E. cbn [matcher]. intros H.
    apply (matcher_keepsCaptures true r Hr) in H as (y & H & L).
    apply IH in H as (W & HW & FW & H). exists W. rewrite <- L. auto.
Qed.

Lemma searchFrom_matchAt (R : RegExp) (s : jsstring) (i : nat) (mt : Match) :
  searchFrom R i s = Some mt ->
  exists j s' y, matchAt R j s' = Some y /\ groups mt = captures y.
Proof.
  revert i; induction s as [|c s IH]; intros i; cbn [searchFrom];
    destruct (matchAt R i _) as [y|] eqn:E; try discriminate;
    try (intros [= <-]; eexists _, _, y; split; [exact E|reflexivity]).
  apply IH.
Qed.

Lemma firstMatch_exec (rules : list Mapping) (text : jsstring) (mapping : Mapping)
    (gs : list (option jsstring)) :
  firstMatch rules text = Some (mapping, gs) ->
  exists mt, exec (m_pattern mapping) text = Some mt /\ gs = groups mt.
Proof.
  induction rules as [|m rules IH]; cbn [firstMatch]; [discriminate|].
  unfold matchArray. destruct (exec (m_pattern m) text) as [mt|] eqn:E.
  - intros [= <- <-]. exists mt. auto.
  - exact IH.
Qed.

Lemma word_plain (W : jsstring) : forallb isWord W = true -> plain W = true.
Proof.
  unfold plain. induction W as [|c W IH]; [reflexivity|]. cbn [forallb].
  intros H. apply andb_prop in H as [Hc HW]. rewrite (IH HW), andb_true_r.
  destruct (N.eqb_spec c 36) as [->|_]; [vm_compute in Hc; discriminate|reflexivity].
Qed.

Lemma substitutePositional_last (a W : jsstring) :
  plain a = true -> substitutePositional (a ++ [36; 49]) [W] = a ++ W.
Proof.
  unfold plain. induction a as [|c a IH]; cbn [app forallb substitutePositional].
  - intros _. cbn. now rewrite app_nil_r.
  - intros H. apply andb_prop in H as [Hc Ha]. apply negb_true_iff in Hc.
    rewrite Hc. f_equal. now apply IH.
Qed.

(** A rule of the shape: no group, then one group of word characters. *)
Lemma listing_rule (rs : list regex) (text : jsstring) (mt : Match) :
  Forall (fun r => groupsOf r = []) rs ->
  exec (re_i (seq (rs ++ [Group 1 (Plus Word)]))) text = Some mt ->
  List.length (groupsOf (seq (rs ++ [Group 1 (Plus Word)]))) = 1%nat ->
  exists W, W <> [] /\ forallb isWord W = true /\ groups mt = [Some W].
Proof.
  intros Hrs H Hn. unfold exec in H.
  apply searchFrom_matchAt in H as (j & s' & y & H & ->).
  unfold matchAt, re_i in H. cbn [pattern ignoreCase ngroups] in H.
  rewrite Hn in H.
  apply (seq_then_word Hrs) in H as (W & HW & FW & H).
  exists W. split; [exact HW|]. split; [exact FW|exact H].
Qed.

(** The four listing rules put one identifier into a fixed statement
    and drop whatever else the line says.  When the first rule that
    matches is one of the first four ("lấy tất cả", "đếm", "xem",
    "hiển thị"), the one captured group is a non-empty run of word
    characters, and the translation is the statement that selects
    everything from, or counts the rows of, the table of that name,
    closed by a semicolon. *)
Theorem listing_rules_yield_one_identifier (text : jsstring) (mapping : Mapping)
    (gs : list (option jsstring)) :
  firstMatch vietnameseToSQL text = Some (mapping, gs) ->
  In mapping (firstn 4 vietnameseToSQL) ->
  exists W, W <> [] /\ forallb isWord W = true /\ gs = [Some W] /\
    (convertVietnameseToSQL text = Some (js "SELECT * FROM " ++ W ++ js ";") \/
     convertVietnameseToSQL text = Some (js "SELECT COUNT(*) FROM " ++ W ++ js ";")).
Proof.
  intros Hm Hin. unfold convertVietnameseToSQL. rewrite convertWith_firstMatch, Hm.
  apply firstMatch_exec in Hm as (mt & He & ->).
  assert (Sel : forall W, forallb isWord W = true ->
            substituteGroups (js "SELECT * FROM $1") 1%Z [Some W]
            = js "SELECT * FROM " ++ W).
  { intros W FW.
    rewrite (@template_select W) by (cbn [forallb]; now rewrite (word_plain W FW)).
    replace (js "SELECT * FROM $1") with (js "SELECT * FROM " ++ [36; 49])
      by (vm_compute; reflexivity).
    apply substitutePositional_last. vm_compute; reflexivity. }
  assert (Cnt : forall W, forallb isWord W = true ->
            substituteGroups (js "SELECT COUNT(*) FROM $1") 1%Z [Some W]
            = js "SELECT COUNT(*) FROM " ++ W).
  { intros W FW.
    rewrite (@template_count W) by (cbn [forallb]; now rewrite (word_plain W FW)).
    replace (js "SELECT COUNT(*) FROM $1") with (js "SELECT COUNT(*) FROM " ++ [36; 49])
      by (vm_compute; reflexivity).
    apply substitutePositional_last. vm_compute; reflexivity. }
  unfold vietnameseToSQL in Hin. cbn [firstn In] in Hin.
  destruct Hin as [<-|[<-|[<-|[<-|[]]]]]; cbn [m_pattern template] in *.
  - change (seq [lit "lấy"; sp; lit "tất"; sp; lit "cả"; sp;
                 Opt (seq [lit "từ"; sp]); Opt (seq [lit "bảng"; sp]);
                 Group 1 (Plus Word)])
      with (seq ([lit "lấy"; sp; lit "tất"; sp; lit "cả"; sp;
                  Opt (seq [lit "từ"; sp]); Opt (seq [lit "bảng"; sp])]
                 ++ [Group 1 (Plus Word)])) in He.
    apply listing_rule in He as (W & HW & FW & ->);
      [|repeat constructor|vm_compute; reflexivity].
    exists W. rewrite (Sel W FW), <- app_assoc. auto.
  - change (seq [lit "đếm"; sp; Opt (seq [lit "số"; sp]);
                 Opt (seq [lit "lượng"; sp]); Opt (seq [lit "trong"; sp]);
                 Opt (seq [lit "bảng"; sp]); Group 1 (Plus Word)])
      with (seq ([lit "đếm"; sp; Opt (seq [lit "số"; sp]);
                  Opt (seq [lit "lượng"; sp]); Opt (seq [lit "trong"; sp]);
                  Opt (seq [lit "bảng"; sp])] ++ [Group 1 (Plus Word)])) in He.
    apply listing_rule in He as (W & HW & FW & ->);
      [|repeat constructor|vm_compute; reflexivity].
    exists W. rewrite (Cnt W FW), <- app_assoc. auto.
  - change (seq [lit "xem"; sp; Opt (seq [lit "bảng"; sp]); Group 1 (Plus Word)])
      with (seq ([lit "xem"; sp; Opt (seq [lit "bảng"; sp])]
                 ++ [Group 1 (Plus Word)])) in He.
    apply listing_rule in He as (W & HW & FW & ->);
      [|repeat constructor|vm_compute; reflexivity].
    exists W. rewrite (Sel W FW), <- app_assoc. auto.
  - change (seq [lit "hiển"; sp; lit "thị"; sp;
                 Opt (seq [lit "tất"; sp; lit "cả"; sp]);
                 Opt (seq [lit "bảng"; sp]); Group 1 (Plus Word)])
      with (seq ([lit "hiển"; sp; lit "thị"; sp;
                  Opt (seq [lit "tất"; sp; lit "cả"; sp]);
                  Opt (seq [lit "bảng"; sp])] ++ [Group 1 (Plus Word)])) in He.
    apply listing_rule in He as (W & HW & FW & ->);
      [|repeat constructor|vm_compute; reflexivity].
    exists W. rewrite (Sel W FW), <- app_assoc. auto.
Qed.

(** Typing a line keeps the console among the reachable states. *)
Lemma reachable_typeLine (DB : Type) (executeSQL : jsstring -> DB -> SQLResult * DB)
    (resetDB : DB -> DB) (mode : Mode) (d : DB) (line : jsstring) (s : State DB) :
  reachable executeSQL resetDB mode d s ->
  reachable executeSQL resetDB mode d (typeLine executeSQL resetDB mode line s).
Proof. intros H. unfold typeLine. now repeat apply reachable_step. Qed.

(** ** What the corrections leave behind *)

(** *** The misspellings as sequences of letters and blanks *)

(** A correction pattern is a sequence of letters, with white space
    between two of them in [ODER BY] and [GRUOP BY], and with one letter
    that must not follow in [WHER]. *)
Inductive slot : Type :=
| Letter (c : N)                         (* the letter [c], in either case *)
| Blanks.                                (* [\s+] *)

Definition ci (u c : N) : bool := canonicalize true u =? canonicalize true c.

(** The negative lookahead for one letter. *)
Definition lookOK (la : option N) (s : jsstring) : bool :=
  match la, s with
  | Some c, u :: _ => negb (ci u c)
  | _, _ => true
  end.

(** White space as far as it goes, then [f]; [seen] tells that a unit
    of white space has been read. *)
Definition spaces_then (f : jsstring -> option nat) : bool -> jsstring -> option nat :=
  fix loop (seen : bool) (s : jsstring) : option nat :=
    match s with
    | u :: s' =>
        if isSpace u then option_map S (loop true s')
        else if seen then f s else None
    | [] => if seen then f [] else None
    end.

(** The length of the match of the slots at the head of [s]. *)
Fixpoint hs (q : list slot) (la : option N) (s : jsstring) {struct q} : option nat :=
  match q with
  | [] => if lookOK la s then Some 0%nat else None
  | Letter c :: q' =>
      match s with
      | u :: s' => if ci u c then option_map S (hs q' la s') else None
      | [] => None
      end
  | Blanks :: q' => spaces_then (hs q' la) false s
  end.

(** The continuation [k] after a match of the slots. *)
Definition after (q : list slot) (la : option N) (k : MatcherContinuation)
    (x : MatchState) : option MatchState :=
  match hs q la (rest x) with
  | Some n => k (moved x n (skipn n (rest x)))
  | None => None
  end.

Lemma stripCI_skipn (w s r : jsstring) :
  stripCI w s = Some r -> r = skipn (List.length w) s.
Proof.
  revert s; induction w as [|c w IH]; intros [|u s]; cbn [stripCI];
    try discriminate; try (intros [= <-]; reflexivity).
  destruct (_ =? _); [|discriminate]. intros H. now apply IH.
Qed.

Lemma hs_word (w : jsstring) (q : list slot) (la : option N) (s : jsstring) :
  hs (map Letter w ++ q) la s
  = match stripCI w s with
    | Some r => option_map (Nat.add (List.length w)) (hs q la r)
    | None => None
    end.
Proof.
  revert s; induction w as [|c w IH]; intros s.
  - cbn. destruct (hs q la s); reflexivity.
  - cbn [map app hs]. destruct s as [|u s]; [reflexivity|].
    rewrite stripCI_cons. unfold ci. destruct (_ =? _); [|reflexivity].
    rewrite IH. destruct (stripCI w s); [|reflexivity].
    destruct (hs q la j); reflexivity.
Qed.

Lemma moved_moved (x : MatchState) (a b : nat) (r r' : jsstring) :
  moved (moved x a r) b r' = moved x (a + b) r'.
Proof. unfold moved. cbn. now rewrite Nat.add_assoc. Qed.

Lemma after_nil (k : MatcherContinuation) (x : MatchState) :
  k x = after [] None k x.
Proof. unfold after. cbn. now rewrite moved_0. Qed.

(** A word, then the slots [q]. *)
Lemma after_word (w : jsstring) (q : list slot) (la : option N)
    (k k' : MatcherContinuation) (x : MatchState) :
  (forall y, k' y = after q la k y) ->
  matcher true (word w) x k' = after (map Letter w ++ q) la k x.
Proof.
  intros Hk. rewrite matcher_word_eq. unfold after at 1. rewrite hs_word.
  destruct (stripCI w (rest x)) as [r|] eqn:E; [|reflexivity].
  rewrite Hk. unfold after. cbn [rest moved].
  destruct (hs q la r) as [n|]; [|reflexivity]. cbn [option_map].
  rewrite moved_moved. f_equal. f_equal.
  rewrite (stripCI_skipn _ _ E), skipn_skipn. f_equal. lia.
Qed.

Lemma ci_letter (u c : N) : 65 <= c <= 90 -> ci u c = true -> isSpace u = false.
Proof.
  intros Hc H. apply N.eqb_eq in H. apply (canonicalize_letter_iff u Hc) in H.
  apply letter_not_space. lia.
Qed.

(** White space, then a letter and the slots [q]: the longest run is
    the only one after which the letter can follow. *)
Lemma greedy_spaces (c : N) (q : list slot) (la : option N)
    (k k' : MatcherContinuation) (caps : list (option jsstring)) :
  65 <= c <= 90 ->
  (forall y, k' y = after (Letter c :: q) la k y) ->
  forall (s : jsstring) (i : nat) (min : nat) (seen : bool),
    (min = if seen then 0 else 1)%nat ->
    greedy isSpace min k' i s caps
    = match spaces_then (hs (Letter c :: q) la) seen s with
      | Some n => k (mkMatchState (i + n) (skipn n s) caps)
      | None => None
      end.
Proof.
  intros Hc Hk. induction s as [|u s IH]; intros i min seen Hmin.
  - cbn [greedy spaces_then]. destruct seen; subst min; [|reflexivity].
    rewrite Hk. unfold after. reflexivity.
  - cbn [greedy spaces_then]. destruct (isSpace u) eqn:Hu.
    + assert (E : greedy isSpace 0 k' (S i) s caps
                  = match spaces_then (hs (Letter c :: q) la) true s with
                    | Some n => k (mkMatchState (S i + n) (skipn n s) caps)
                    | None => None
                    end) by (now apply IH).
      assert (F : k' (mkMatchState i (u :: s) caps) = None).
      { rewrite Hk. unfold after. cbn [rest hs].
        destruct (ci u c) eqn:Eu; [|reflexivity].
        apply (ci_letter _ Hc) in Eu. congruence. }
      destruct seen; subst min.
      * rewrite E. unfold orElse.
        destruct (spaces_then _ true s) as [n|]; cbn [option_map].
        -- replace (i + S n)%nat with (S i + n)%nat by lia. cbn [skipn].
           destruct (k _); [reflexivity|exact F].
        -- exact F.
      * rewrite E. destruct (spaces_then _ true s) as [n|]; cbn [option_map];
          [|reflexivity].
        replace (i + S n)%nat with (S i + n)%nat by lia. reflexivity.
    + destruct seen; subst min; [|reflexivity].
      rewrite Hk. unfold after, moved. cbn [rest endIndex captures].
      destruct (hs (Letter c :: q) la (u :: s)); reflexivity.
Qed.

Lemma after_sp (c : N) (q : list slot) (la : option N)
    (k k' : MatcherContinuation) (x : MatchState) :
  65 <= c <= 90 ->
  (forall y, k' y = after (Letter c :: q) la k y) ->
  matcher true sp x k' = after (Blanks :: Letter c :: q) la k x.
Proof.
  intros Hc Hk. unfold sp, Plus. rewrite matcher_spaces.
  rewrite (@greedy_spaces c q la k k' (captures x) Hc Hk (rest x) (endIndex x)
             1%nat false eq_refl).
  unfold after, moved. cbn [hs]. reflexivity.
Qed.

Lemma after_notAhead (c : N) (k : MatcherContinuation) (x : MatchState) :
  matcher true (NotAhead (Chr c)) x k = after [] (Some c) k x.
Proof.
  cbn [matcher]. unfold charMatcher, after. cbn [hs]. unfold lookOK, ci.
  destruct (rest x) as [|u s] eqn:E.
  - cbn [skipn]. now rewrite <- E, moved_0.
  - destruct (_ =? _); cbn [negb]; [reflexivity|].
    cbn [skipn]. now rewrite <- E, moved_0.
Qed.

(** A pattern [R] has the slots [q] and the lookahead [la]. *)
Definition reads (R : RegExp) (q : list slot) (la : option N) : Prop :=
  forall (i : nat) (s : jsstring),
    matchAt R i s
    = option_map (fun n => mkMatchState (i + n) (skipn n s)
                             (List.repeat None (ngroups R)))
        (hs q la s).

Lemma reads_after (r : regex) (g : bool) (q : list slot) (la : option N) :
  (forall x, matcher true r x (fun y => Some y) = after q la (fun y => Some y) x) ->
  reads (mkRegExp r true g (List.length (groupsOf r))) q la.
Proof.
  intros H i s. unfold matchAt. cbn [pattern ignoreCase ngroups].
  rewrite H. unfold after, moved. cbn [rest endIndex captures].
  destruct (hs q la s); reflexivity.
Qed.

Definition isUpper (c : N) : bool := (65 <=? c) && (c <=? 90).

Lemma isUpper_spec (c : N) : isUpper c = true -> 65 <= c <= 90.
Proof. unfold isUpper. intros H. apply andb_prop in H as [A B].
  apply N.leb_le in A. apply N.leb_le in B. lia. Qed.

(** The three shapes of the correction patterns. *)
Lemma reads_word (w : string) :
  reads (re_gi (lit w)) (map Letter (js w)) None.
Proof.
  apply reads_after. intros x. unfold lit.
  rewrite <- (app_nil_r (map Letter (js w))). apply after_word. apply after_nil.
Qed.

Lemma reads_word_notAhead (w : string) (c : N) :
  reads (re_gi (seq [lit w; NotAhead (Chr c)])) (map Letter (js w)) (Some c).
Proof.
  apply reads_after. intros x. cbn [seq matcher]. unfold lit.
  rewrite <- (app_nil_r (map Letter (js w))). apply after_word.
  intros y. apply after_notAhead.
Qed.

Lemma reads_two_words (a b : string) (c : N) (b' : jsstring) :
  js b = c :: b' -> isUpper c = true ->
  reads (re_gi (seq [lit a; sp; lit b])) (map Letter (js a) ++ Blanks :: map Letter (js b)) None.
Proof.
  intros Hb Hc. apply reads_after. intros x. cbn [seq matcher]. unfold lit.
  apply after_word. intros y. rewrite Hb. cbn [map].
  apply after_sp; [now apply isUpper_spec|]. intros z.
  change (Letter c :: map Letter b') with (map Letter (c :: b')).
  rewrite <- (app_nil_r (map Letter (c :: b'))). apply after_word. apply after_nil.
Qed.

(** *** Searching and replacing, by slots *)

(** The slots match somewhere in [s]. *)
Fixpoint occ (q : list slot) (la : option N) (s : jsstring) : bool :=
  match hs q la s with
  | Some _ => true
  | None => match s with [] => false | _ :: s' => occ q la s' end
  end.

Lemma test_occ (R : RegExp) (q : list slot) (la : option N) (s : jsstring) :
  reads R q la -> test R s = occ q la s.
Proof.
  intros HR. unfold reads in HR. unfold test, exec. generalize 0%nat.
  induction s as [|u s IH]; intros i; cbn [searchFrom occ]; rewrite HR;
    destruct (hs q la _); cbn [option_map]; try reflexivity.
  apply IH.
Qed.

(** [s'] is [s] with the matches of the slots replaced by [fix_], from
    left to right. *)
Inductive Rewrites (q : list slot) (la : option N) (fix_ : jsstring)
  : jsstring -> jsstring -> Prop :=
| rw_nil : Rewrites q la fix_ [] []
| rw_copy (c : N) (s s' : jsstring) :
    hs q la (c :: s) = None ->
    Rewrites q la fix_ s s' ->
    Rewrites q la fix_ (c :: s) (c :: s')
| rw_hit (s s' : jsstring) (n : nat) :
    hs q la s = Some n ->
    Rewrites q la fix_ (skipn n s) s' ->
    Rewrites q la fix_ s (fix_ ++ s').

(** A match is no longer than the text. *)
Lemma spaces_then_length (f : jsstring -> option nat) :
  (forall s n, f s = Some n -> (n <= List.length s)%nat) ->
  forall s seen n, spaces_then f seen s = Some n -> (n <= List.length s)%nat.
Proof.
  intros Hf. induction s as [|u s IH]; intros seen n; cbn [spaces_then].
  - destruct seen; [apply Hf|discriminate].
  - destruct (isSpace u).
    + destruct (spaces_then f true s) as [m|] eqn:E; [|discriminate].
      intros [= <-]. apply IH in E. cbn. lia.
    + destruct seen; [apply Hf|discriminate].
Qed.

Lemma hs_length (q : list slot) (la : option N) :
  forall s n, hs q la s = Some n -> (n <= List.length s)%nat.
Proof.
  induction q as [|[c|] q IH]; intros s n; cbn [hs].
  - destruct (lookOK la s); [|discriminate]. intros [= <-]. lia.
  - destruct s as [|u s]; [discriminate|]. destruct (ci u c); [|discriminate].
    destruct (hs q la s) as [m|] eqn:E; [|discriminate]. intros [= <-].
    apply IH in E. cbn. lia.
  - apply spaces_then_length. exact IH.
Qed.

(** A pattern that starts with a letter matches at least that letter. *)
Lemma hs_first (c : N) (q : list slot) (la : option N) (s : jsstring) (n : nat) :
  hs (Letter c :: q) la s = Some n ->
  exists u s' m, s = u :: s' /\ ci u c = true /\ n = S m.
Proof.
  cbn [hs]. destruct s as [|u s]; [discriminate|].
  destruct (ci u c) eqn:Eu; [|discriminate].
  destruct (hs q la s) as [m|]; [|discriminate]. intros [= <-].
  exists u, s, m. auto.
Qed.

Lemma replaceFrom_skip (R : RegExp) (fix_ : jsstring) :
  forall (k : nat) (s : jsstring) (i : nat),
    (k <= List.length s)%nat ->
    replaceFrom R fix_ i k s = replaceFrom R fix_ (i + k) 0 (skipn k s).
Proof.
  induction k as [|k IH]; intros s i Hk.
  - now rewrite Nat.add_0_r.
  - destruct s as [|u s]; [cbn in Hk; lia|]. cbn [replaceFrom skipn].
    rewrite IH by (cbn in Hk; lia). f_equal. lia.
Qed.

Lemma replaceFrom_0 (R : RegExp) (fix_ s : jsstring) (i : nat) :
  replaceFrom R fix_ i 0 s
  = match matchAt R i s with
    | Some y =>
        match (endIndex y - i)%nat with
        | O => fix_ ++ match s with
                       | [] => []
                       | c :: s' => c :: replaceFrom R fix_ (S i) 0 s'
                       end
        | S n => fix_ ++ match s with
                         | [] => []
                         | _ :: s' => replaceFrom R fix_ (S i) n s'
                         end
        end
    | None =>
        match s with
        | [] => []
        | c :: s' => c :: replaceFrom R fix_ (S i) 0 s'
        end
    end.
Proof. destruct s; reflexivity. Qed.

Lemma replaceFrom_rewrites (R : RegExp) (c : N) (q : list slot) (la : option N)
    (fix_ : jsstring) :
  reads R (Letter c :: q) la ->
  forall (bound : nat) (s : jsstring) (i : nat),
    (List.length s <= bound)%nat ->
    Rewrites (Letter c :: q) la fix_ s (replaceFrom R fix_ i 0 s).
Proof.
  intros HR. unfold reads in HR. induction bound as [|bound IH]; intros s i Hlen.
  - destruct s; [|cbn in Hlen; lia]. rewrite replaceFrom_0, HR. cbn.
    constructor.
  - rewrite replaceFrom_0, HR.
    destruct (hs (Letter c :: q) la s) as [n|] eqn:E; cbn [option_map endIndex].
    + destruct (hs_first _ _ _ _ E) as (u & s' & m & -> & _ & ->).
      replace (i + S m - i)%nat with (S m) by lia.
      apply hs_length in E as Hn. cbn [List.length] in Hn, Hlen.
      rewrite replaceFrom_skip by lia.
      apply rw_hit with (n := S m); [exact E|]. cbn [skipn].
      apply IH. rewrite length_skipn. lia.
    + destruct s as [|u s]; [constructor|].
      apply rw_copy; [exact E|]. apply IH. cbn in Hlen. lia.
Qed.

Lemma replaceAll_rewrites (R : RegExp) (c : N) (q : list slot) (la : option N)
    (fix_ s : jsstring) :
  reads R (Letter c :: q) la ->
  Rewrites (Letter c :: q) la fix_ s (replaceAll R fix_ s).
Proof.
  intros HR. unfold replaceAll. now apply replaceFrom_rewrites with (bound := List.length s).
Qed.

Lemma occ_skipn (q : list slot) (la : option N) (n : nat) (s : jsstring) :
  occ q la (skipn n s) = true -> occ q la s = true.
Proof.
  revert s; induction n as [|n IH]; intros s; [auto|].
  destruct s as [|u s]; [auto|]. cbn [skipn]. intros H. apply IH in H.
  cbn [occ]. destruct (hs q la (u :: s)); auto.
Qed.

Lemma occ_hit (q : list slot) (la : option N) (s : jsstring) :
  hs q la s <> None -> occ q la s = true.
Proof. destruct s; cbn [occ]; destruct (hs q la _); congruence. Qed.

(** A match in [a ++ b] starts in [a] or lies in [b]. *)
Lemma occ_app (q : list slot) (la : option N) (a b : jsstring) :
  occ q la (a ++ b) = true ->
  (exists d, (d < List.length a)%nat /\ hs q la (skipn d a ++ b) <> None)
  \/ occ q la b = true.
Proof.
  induction a as [|u a IH]; [now right|]. cbn [app occ].
  destruct (hs q la (u :: a ++ b)) eqn:E.
  - intros _. left. exists 0%nat. cbn. split; [lia|]. cbn in E. congruence.
  - intros H. apply IH in H as [(d & Hd & H)|H]; [|now right].
    left. exists (S d). cbn. split; [lia|exact H].
Qed.

(** *** Matches that a replacement could complete *)

(** Where a match can stand after some of its units: before the slots
    [q], or in the white space before them. *)
Inductive place : Type :=
| Plain (q : list slot)
| Mid (q : list slot).

Definition hc (la : option N) (g : place) (s : jsstring) : option nat :=
  match g with
  | Plain q => hs q la s
  | Mid q => spaces_then (hs q la) true s
  end.

(** Can the slots match a text that starts with [known]?  Yes, unless
    [known] itself says no. *)
Definition sp_mm (f : jsstring -> bool) : bool -> jsstring -> bool :=
  fix loop (seen : bool) (known : jsstring) : bool :=
    match known with
    | u :: k' =>
        if isSpace u then loop true k'
        else if seen then f known else false
    | [] => true
    end.

Fixpoint mm (q : list slot) (la : option N) (known : jsstring) {struct q} : bool :=
  match q with
  | [] => match known with [] => true | _ => lookOK la known end
  | Letter c :: q' =>
      match known with
      | u :: k' => ci u c && mm q' la k'
      | [] => true
      end
  | Blanks :: q' => sp_mm (mm q' la) false known
  end.

Definition mc (la : option N) (g : place) (known : jsstring) : bool :=
  match g with
  | Plain q => mm q la known
  | Mid q => sp_mm (mm q la) true known
  end.

Lemma lookOK_app (la : option N) (u : N) (a b : jsstring) :
  lookOK la ((u :: a) ++ b) = lookOK la (u :: a).
Proof. destruct la; reflexivity. Qed.

Lemma sp_mm_sound (f : jsstring -> option nat) (F : jsstring -> bool) :
  (forall known rest, f (known ++ rest) <> None -> F known = true) ->
  forall known seen rest,
    spaces_then f seen (known ++ rest) <> None -> sp_mm F seen known = true.
Proof.
  intros HF. induction known as [|u k IH]; intros seen rest; [reflexivity|].
  cbn [app spaces_then sp_mm]. destruct (isSpace u).
  - destruct (spaces_then f true (k ++ rest)) eqn:E; [|cbn; congruence].
    intros _. apply (IH true rest). congruence.
  - destruct seen; [|congruence]. apply (HF (u :: k) rest).
Qed.

Lemma mm_sound (q : list slot) (la : option N) :
  forall known rest, hs q la (known ++ rest) <> None -> mm q la known = true.
Proof.
  induction q as [|[c|] q IH]; intros known rest; cbn [hs mm].
  - destruct known as [|u k]; [reflexivity|]. rewrite lookOK_app.
    destruct (lookOK la (u :: k)); congruence.
  - destruct known as [|u k]; [reflexivity|]. cbn [app].
    destruct (ci u c); [|congruence]. cbn [andb].
    destruct (hs q la (k ++ rest)) eqn:E; [|cbn; congruence].
    intros _. apply (IH k rest). congruence.
  - apply sp_mm_sound. exact IH.
Qed.

Lemma mc_sound (la : option N) (g : place) (known rest : jsstring) :
  hc la g (known ++ rest) <> None -> mc la g known = true.
Proof.
  destruct g as [q|q]; cbn [hc mc].
  - apply mm_sound.
  - apply sp_mm_sound. apply mm_sound.
Qed.

(** The places of a match under way. *)
Fixpoint places (q : list slot) : list place :=
  Plain q ::
  match q with
  | [] => []
  | Letter _ :: q' => places q'
  | Blanks :: q' => Mid q' :: places q'
  end.

Lemma places_tail (q0 : list slot) :
  forall q, In (Plain q) (places q0) ->
    match q with
    | [] => True
    | Letter _ :: q' => In (Plain q') (places q0)
    | Blanks :: q' => In (Mid q') (places q0) /\ In (Plain q') (places q0)
    end.
Proof.
  assert (Self : forall q, In (Plain q) (places q)) by (destruct q; now left).
  induction q0 as [|[c|] q0 IH]; intros q; cbn [places In].
  - intros [[= <-]|[]]. exact I.
  - intros [[= <-]|H].
    + right. apply Self.
    + specialize (IH q H). destruct q as [|[a|] q']; auto.
      destruct IH. auto.
  - intros [[= <-]|[H|H]]; [|discriminate|].
    + split; [right; now left|right; right; apply Self].
    + specialize (IH q H). destruct q as [|[a|] q']; auto.
      destruct IH. auto.
Qed.

Lemma places_mid (q0 : list slot) :
  forall q, In (Mid q) (places q0) -> In (Plain q) (places q0).
Proof.
  assert (Self : forall q, In (Plain q) (places q)) by (destruct q; now left).
  induction q0 as [|[c|] q0 IH]; intros q; cbn [places In].
  - intros [H|[]]. discriminate.
  - intros [H|H]; [discriminate|]. right. now apply IH.
  - intros [H|[[= <-]|H]]; [discriminate| |].
    + right; right. apply Self.
    + right; right. now apply IH.
Qed.

Section Pair.

(** The pattern that is replaced, its replacement, and the pattern that
    is looked for afterwards. *)
Variable p0 : N.
Variable qP : list slot.
Variable laP : option N.
Variable R' : jsstring.
Variable qQ : list slot.
Variable laQ : option N.

Local Abbreviation P := (Letter p0 :: qP).
Local Abbreviation R := (p0 :: R').

(** No match under way goes on into the replacement. *)
Definition stopsAt : bool :=
  forallb (fun g => match g with
                    | Plain [] => true
                    | _ => negb (mc laQ g R)
                    end) (places qQ).

(** A match could start at position [d] of the replacement. *)
Definition startsIn (d : nat) : bool := mm qQ laQ (skipn d R).

Hypothesis Hstops : stopsAt = true.

Lemma lookOK_head (u : N) (s s' : jsstring) :
  ci u p0 = true -> lookOK laQ (u :: s) = lookOK laQ (R ++ s').
Proof.
  intros H. unfold ci in H. apply N.eqb_eq in H.
  destruct laQ as [c|]; [|reflexivity]. cbn [lookOK app]. unfold ci. now rewrite H.
Qed.

(** A match that the rewritten text has at a place that was copied was
    there before. *)
Lemma copied (s s' : jsstring) :
  Rewrites P laP R s s' ->
  forall g, In g (places qQ) -> hc laQ g s' <> None -> hc laQ g s <> None.
Proof.
  induction 1 as [|c s s' Hnone Hrw IH|s s' n Hhit Hrw IH]; intros g Hin; [auto| |].
  - assert (Plainly : forall q, In (Plain q) (places qQ) ->
              hs q laQ (c :: s') <> None -> hs q laQ (c :: s) <> None).
    { intros q Hq. pose proof (places_tail _ _ Hq) as Ht.
      destruct q as [|[a|] q']; cbn [hs spaces_then].
      - destruct laQ; auto.
      - destruct (ci c a); [|auto].
        specialize (IH (Plain q') Ht). cbn [hc] in IH.
        destruct (hs q' laQ s'); [|cbn; congruence].
        intros _. destruct (hs q' laQ s); [cbn; congruence|]. apply IH. congruence.
      - destruct (isSpace c); [|auto]. destruct Ht as [Ht _].
        specialize (IH (Mid q') Ht). cbn [hc] in IH.
        destruct (spaces_then (hs q' laQ) true s'); [|cbn; congruence].
        intros _. destruct (spaces_then (hs q' laQ) true s); [cbn; congruence|].
        apply IH. congruence. }
    destruct g as [q|q]; cbn [hc]; [now apply Plainly|].
    cbn [spaces_then]. destruct (isSpace c).
    + specialize (IH (Mid q) Hin). cbn [hc] in IH.
      destruct (spaces_then (hs q laQ) true s'); [|cbn; congruence].
      intros _. destruct (spaces_then (hs q laQ) true s); [cbn; congruence|].
      apply IH. congruence.
    + apply Plainly. now apply places_mid.
  - intros H.
    destruct (hs_first _ _ _ _ Hhit) as (u & s0 & m & -> & Hu & ->).
    destruct g as [[|x q]|q].
    + cbn [hc hs] in *. now rewrite (@lookOK_head u s0 s' Hu).
    + exfalso. apply mc_sound in H. unfold stopsAt in Hstops.
      rewrite forallb_forall in Hstops. specialize (Hstops _ Hin).
      change (negb (mc laQ (Plain (x :: q)) R) = true) in Hstops.
      rewrite H in Hstops. discriminate.
    + exfalso. apply mc_sound in H. unfold stopsAt in Hstops.
      rewrite forallb_forall in Hstops. specialize (Hstops _ Hin).
      change (negb (mc laQ (Mid q) R) = true) in Hstops.
      rewrite H in Hstops. discriminate.
Qed.

(** No match starts within the replacement. *)
Definition inside : bool :=
  forallb (fun d => negb (startsIn d)) (List.seq 0 (List.length R)).

Lemma inside_spec (d : nat) (s' : jsstring) :
  inside = true -> (d < List.length R)%nat ->
  hs qQ laQ (skipn d R ++ s') = None.
Proof.
  unfold inside. rewrite forallb_forall. intros H Hd.
  specialize (H d). rewrite in_seq in H. specialize (H ltac:(lia)).
  unfold startsIn in H. destruct (hs qQ laQ (skipn d R ++ s')) eqn:E; [|reflexivity].
  assert (M : mm qQ laQ (skipn d R) = true) by (eapply mm_sound; rewrite E; discriminate).
  rewrite M in H. discriminate.
Qed.

Lemma occ_cons (u : N) (s : jsstring) :
  occ qQ laQ s = true -> occ qQ laQ (u :: s) = true.
Proof. intros H. cbn [occ]. destruct (hs qQ laQ (u :: s)); auto. Qed.

(** The replacement completes no match: a match of the rewritten text
    was in the text before, provided a match that starts within the
    replacement was. *)
Lemma kept_if (s s' : jsstring) :
  (forall s n s' d,
     hs P laP s = Some n -> Rewrites P laP R (skipn n s) s' ->
     (d < List.length R)%nat -> hs qQ laQ (skipn d R ++ s') <> None ->
     occ qQ laQ s = true) ->
  Rewrites P laP R s s' ->
  occ qQ laQ s' = true -> occ qQ laQ s = true.
Proof.
  intros Inside. induction 1 as [|c s s' Hnone Hrw IH|s s' n Hhit Hrw IH]; [auto| |].
  - intros H. cbn [occ] in H. destruct (hs qQ laQ (c :: s')) eqn:E.
    + apply occ_hit.
      apply (copied (@rw_copy _ _ _ c s s' Hnone Hrw) (Plain qQ)).
      * destruct qQ; now left.
      * cbn [hc]. congruence.
    + apply occ_cons. now apply IH.
  - intros H. apply occ_app in H as [(d & Hd & H)|H].
    + eapply Inside; eassumption.
    + apply (occ_skipn _ _ n). now apply IH.
Qed.

Lemma kept (s s' : jsstring) :
  inside = true ->
  Rewrites P laP R s s' ->
  occ qQ laQ s' = true -> occ qQ laQ s = true.
Proof.
  intros Hin. apply kept_if. intros s0 n s0' d _ _ Hd H.
  rewrite inside_spec in H by assumption. congruence.
Qed.

(** The replacement leaves no match of the pattern it replaces. *)
Lemma cleaned (s s' : jsstring) :
  qQ = P -> laQ = laP -> inside = true ->
  Rewrites P laP R s s' -> occ qQ laQ s' = false.
Proof.
  intros Eq El Hin. induction 1 as [|c s s' Hnone Hrw IH|s s' n Hhit Hrw IH].
  - cbn [occ]. rewrite Eq. reflexivity.
  - cbn [occ]. destruct (hs qQ laQ (c :: s')) eqn:E; [|exact IH].
    exfalso. apply (copied (@rw_copy _ _ _ c s s' Hnone Hrw) (Plain qQ)).
    + destruct qQ; now left.
    + cbn [hc]. congruence.
    + cbn [hc]. rewrite Eq, El. exact Hnone.
  - destruct (occ qQ laQ (R ++ s')) eqn:E; [|reflexivity].
    apply occ_app in E as [(d & Hd & H)|H]; [|congruence].
    rewrite inside_spec in H by assumption. congruence.
Qed.

End Pair.

(** Where the replaced word and its replacement end in the same letter,
    a match that starts at that letter was there before. *)
Lemma hs_letters_last (w : jsstring) (z : N) (s : jsstring) (n : nat) :
  hs (map Letter (w ++ [z])) None s = Some n ->
  exists u, n = S (List.length w) /\ nth_error s (List.length w) = Some u /\
            ci u z = true.
Proof.
  revert s n; induction w as [|c w IH]; intros [|u s] n; cbn [app map hs];
    try discriminate.
  - destruct (ci u z) eqn:E; [|discriminate]. cbn. intros [= <-]. exists u. auto.
  - destruct (ci u c); [|discriminate].
    destruct (hs (map Letter (w ++ [z])) None s) as [m|] eqn:E; [|discriminate].
    intros [= <-]. apply IH in E as (v & -> & Hv & Hz). exists v. auto.
Qed.

Lemma ci_trans (u z a : N) : ci u z = true -> ci z a = true -> ci u a = true.
Proof. unfold ci. rewrite !N.eqb_eq. congruence. Qed.

Lemma kept_shared (p0 : N) (w : jsstring) (z : N) (R0 : jsstring) (a : N)
    (qQ : list slot) (laQ : option N) (s s' : jsstring) :
  map Letter (w ++ [z]) = Letter p0 :: map Letter (tl (w ++ [z])) ->
  hd 0 (R0 ++ [z]) = p0 ->
  stopsAt p0 (tl (R0 ++ [z])) (Letter a :: qQ) laQ = true ->
  forallb (fun d => negb (mm (Letter a :: qQ) laQ (skipn d (R0 ++ [z]))))
    (List.seq 0 (List.length R0)) = true ->
  Rewrites (map Letter (w ++ [z])) None (R0 ++ [z]) s s' ->
  occ (Letter a :: qQ) laQ s' = true -> occ (Letter a :: qQ) laQ s = true.
Proof.
  intros EP ER Hstops Hin. rewrite EP.
  assert (ER' : R0 ++ [z] = p0 :: tl (R0 ++ [z])).
  { destruct (R0 ++ [z]) eqn:E; [destruct R0; discriminate|]. cbn in *. congruence. }
  rewrite ER'. apply kept_if; [exact Hstops|].
  intros s0 n s0' d Hhit Hrw Hd H. rewrite <- ER' in H, Hd. rewrite <- EP in Hhit.
  rewrite length_app in Hd. cbn [List.length] in Hd.
  destruct (Nat.eq_dec d (List.length R0)) as [->|Hne].
  - rewrite skipn_app, skipn_all, Nat.sub_diag in H. cbn [skipn app hs] in H.
    destruct (ci z a) eqn:Hz; [|congruence].
    apply hs_letters_last in Hhit as (u & -> & Hu & Huz).
    assert (Hq : hs qQ laQ (skipn (S (List.length w)) s0) <> None).
    { apply (@copied p0 _ None _ (Letter a :: qQ) laQ Hstops _ _ Hrw (Plain qQ));
        [right; destruct qQ; now left|].
      cbn [hc]. destruct (hs qQ laQ s0'); [discriminate|]. cbn in H. congruence. }
    apply (occ_skipn _ _ (List.length w)). apply occ_hit.
    apply nth_error_split in Hu as (l1 & l2 & -> & Hl).
    rewrite skipn_app, skipn_all2, Hl, Nat.sub_diag by lia. cbn [skipn app hs].
    rewrite (ci_trans _ _ _ Huz Hz).
    replace (skipn (S (List.length w)) (l1 ++ u :: l2)) with l2 in Hq.
    + destruct (hs qQ laQ l2); [discriminate|]. congruence.
    + rewrite skipn_app, skipn_all2, Hl by lia.
      replace (S (List.length w) - List.length w)%nat with 1%nat by lia.
      reflexivity.
  - exfalso. rewrite forallb_forall in Hin. specialize (Hin d).
    rewrite in_seq in Hin. specialize (Hin ltac:(lia)).
    apply mm_sound in H. rewrite H in Hin. discriminate.
Qed.

(** *** The ten corrections *)

(** A correction by its slots, its lookahead and its replacement. *)
Record Shape : Type := mkShape {
  sh_slots : list slot;
  sh_ahead : option N;
  sh_fix : jsstring
}.

Definition shapes : list Shape :=
  [ mkShape (map Letter (js "SLECT")) None (js "SELECT");
    mkShape (map Letter (js "FORM")) None (js "FROM");
    mkShape (map Letter (js "WHER")) (Some 69) (js "WHERE");
    mkShape (map Letter (js "ODER") ++ Blanks :: map Letter (js "BY")) None (js "ORDER BY");
    mkShape (map Letter (js "GRUOP") ++ Blanks :: map Letter (js "BY")) None (js "GROUP BY");
    mkShape (map Letter (js "DELTE")) None (js "DELETE");
    mkShape (map Letter (js "UDPATE")) None (js "UPDATE");
    mkShape (map Letter (js "INSET")) None (js "INSERT");
    mkShape (map Letter (js "VALEUS")) None (js "VALUES");
    mkShape (map Letter (js "JION")) None (js "JOIN") ].

Definition agrees (c : Correction) (sh : Shape) : Prop :=
  reads (c_pattern c) (sh_slots sh) (sh_ahead sh) /\ fix_ c = sh_fix sh.

Lemma corrections_shapes : Forall2 agrees sqlCorrections shapes.
Proof.
  unfold sqlCorrections, shapes, agrees.
  repeat constructor; cbn [c_pattern fix_ sh_slots sh_ahead sh_fix];
    first [ apply reads_word
          | apply reads_word_notAhead
          | eapply reads_two_words; vm_compute; reflexivity ].
Qed.

Definition absent (sh : Shape) (t : jsstring) : Prop :=
  occ (sh_slots sh) (sh_ahead sh) t = false.

(** One round of the loop of [fixSQLTypos], as to the text. *)
Definition stepText (c : Correction) (t : jsstring) : jsstring :=
  if test (c_pattern c) t then replaceAll (c_pattern c) (fix_ c) t else t.

Definition textAfter (rules : list Correction) (t : jsstring) : jsstring :=
  fold_left (fun t c => stepText c t) rules t.

Lemma fixWith_text (rules : list Correction) (t : jsstring) (cs : list jsstring) :
  fst (fixWith rules (t, cs)) = textAfter rules t.
Proof.
  revert t cs; induction rules as [|c rules IH]; intros t cs; [reflexivity|].
  cbn [fixWith textAfter fold_left]. unfold stepText.
  destruct (test (c_pattern c) t); apply IH.
Qed.

Lemma fixWith_app (a b : list Correction) (acc : jsstring * list jsstring) :
  fixWith (a ++ b) acc = fixWith b (fixWith a acc).
Proof.
  revert acc; induction a as [|c a IH]; intros [t cs]; [reflexivity|].
  cbn [app fixWith]. destruct (test (c_pattern c) t); apply IH.
Qed.

(** The replacement of [P] completes no match of [Q]. *)
Definition keeps (P Q : Shape) : Prop :=
  forall s s',
    Rewrites (sh_slots P) (sh_ahead P) (sh_fix P) s s' ->
    occ (sh_slots Q) (sh_ahead Q) s' = true ->
    occ (sh_slots Q) (sh_ahead Q) s = true.

(** The check that it does not: the replacement starts with the letter
    the pattern starts with, no match of [Q] under way goes on into the
    replacement, and none starts within it. *)
Definition safe (P Q : Shape) : bool :=
  match sh_slots P, sh_fix P with
  | Letter p0 :: _, r0 :: R' =>
      (p0 =? r0) && stopsAt p0 R' (sh_slots Q) (sh_ahead Q)
      && inside p0 R' (sh_slots Q) (sh_ahead Q)
  | _, _ => false
  end.

Lemma safe_keeps (P Q : Shape) : safe P Q = true -> keeps P Q.
Proof.
  unfold safe, keeps. destruct P as [[|[p0|] qP] laP [|r0 R']]; cbn [sh_slots sh_fix sh_ahead];
    try discriminate.
  intros H s s'. apply andb_prop in H as [H Hin]. apply andb_prop in H as [E Hs].
  apply N.eqb_eq in E. subst r0. now apply kept.
Qed.

Lemma safe_clean (P : Shape) (s s' : jsstring) :
  safe P P = true ->
  Rewrites (sh_slots P) (sh_ahead P) (sh_fix P) s s' -> absent P s'.
Proof.
  unfold safe, absent. destruct P as [[|[p0|] qP] laP [|r0 R']];
    cbn [sh_slots sh_fix sh_ahead]; try discriminate.
  intros H. apply andb_prop in H as [H Hin]. apply andb_prop in H as [E Hs].
  apply N.eqb_eq in E. subst r0. now apply (cleaned Hs).
Qed.

(** [VALEUS] and [VALUES] end in the same letter, with which [SLECT]
    starts. *)
Lemma values_keeps_slect :
  keeps (nth 8 shapes (mkShape [] None [])) (nth 0 shapes (mkShape [] None [])).
Proof.
  intros s s'. cbn [nth shapes sh_slots sh_ahead sh_fix].
  replace (js "VALEUS") with (js "VALEU" ++ [83]) by (vm_compute; reflexivity).
  replace (js "VALUES") with (js "VALUE" ++ [83]) by (vm_compute; reflexivity).
  replace (map Letter (js "SLECT")) with (Letter 83 :: map Letter (js "LECT"))
    by (vm_compute; reflexivity).
  apply (@kept_shared 86); vm_compute; reflexivity.
Qed.

Definition dflt : Shape := mkShape [] None [].

(** The pairs for which the check holds, and the one above. *)
Definition keepsB (i j : nat) : bool :=
  safe (nth i shapes dflt) (nth j shapes dflt)
  || (Nat.eqb i 8 && Nat.eqb j 0).

Lemma keepsB_keeps (i j : nat) :
  keepsB i j = true -> keeps (nth i shapes dflt) (nth j shapes dflt).
Proof.
  unfold keepsB. destruct (safe _ _) eqn:E; [intros _; now apply safe_keeps|].
  cbn [orb]. intros H. apply andb_prop in H as [Hi Hj].
  apply Nat.eqb_eq in Hi. apply Nat.eqb_eq in Hj. subst. apply values_keeps_slect.
Qed.

(** Which matches are absent after the corrections from [i] on, given
    those absent before. *)
Fixpoint track (n i : nat) (abs : list nat) : list nat :=
  match n with
  | O => abs
  | S n' => track n' (S i) (i :: filter (fun j => keepsB i j) abs)
  end.

Lemma Forall2_nth_error (A B : Type) (R : A -> B -> Prop) (l1 : list A) (l2 : list B) :
  Forall2 R l1 l2 ->
  forall i a, nth_error l1 i = Some a ->
    exists b, nth_error l2 i = Some b /\ R a b.
Proof.
  induction 1 as [|x y l1 l2 Hxy H IH]; intros [|i] a; cbn; try discriminate.
  - intros [= <-]. eauto.
  - apply IH.
Qed.

Lemma nth_agrees (i : nat) (c : Correction) :
  nth_error sqlCorrections i = Some c ->
  agrees c (nth i shapes dflt) /\ safe (nth i shapes dflt) (nth i shapes dflt) = true.
Proof.
  intros H.
  destruct (Forall2_nth_error corrections_shapes _ H) as (sh & Hsh & Ha).
  rewrite (nth_error_nth _ _ dflt Hsh). split; [exact Ha|].
  assert (F : forallb (fun P => safe P P) shapes = true) by (vm_compute; reflexivity).
  rewrite forallb_forall in F. apply F. eapply nth_error_In, Hsh.
Qed.

Lemma agrees_rewrites (c : Correction) (P : Shape) (t : jsstring) :
  agrees c P -> safe P P = true ->
  Rewrites (sh_slots P) (sh_ahead P) (sh_fix P) t
    (replaceAll (c_pattern c) (fix_ c) t).
Proof.
  intros [Hr Hf] Hs. rewrite Hf. unfold safe in Hs.
  destruct (sh_slots P) as [|[p0|] qP] eqn:E; try discriminate.
  apply replaceAll_rewrites. exact Hr.
Qed.

Lemma absent_test (i : nat) (c : Correction) (t : jsstring) :
  nth_error sqlCorrections i = Some c ->
  absent (nth i shapes dflt) t -> test (c_pattern c) t = false.
Proof.
  intros H A. destruct (nth_agrees _ H) as [[Hr _] _].
  rewrite (test_occ _ Hr). exact A.
Qed.

(** One round of the loop: the pattern of the round is absent after it,
    and so is every absent pattern that the replacement cannot
    complete. *)
Lemma stepText_absent (i j : nat) (c : Correction) (t : jsstring) :
  nth_error sqlCorrections i = Some c ->
  j = i \/ (keepsB i j = true /\ absent (nth j shapes dflt) t) ->
  absent (nth j shapes dflt) (stepText c t).
Proof.
  intros H Hj. destruct (nth_agrees _ H) as [Ha Hs]. unfold stepText.
  destruct (test (c_pattern c) t) eqn:Et.
  - pose proof (agrees_rewrites t Ha Hs) as Hrw.
    destruct Hj as [->|[Hk A]].
    + eapply safe_clean; eassumption.
    + unfold absent in *. apply keepsB_keeps in Hk.
      destruct (occ _ _ (replaceAll _ _ _)) eqn:E; [|reflexivity].
      apply (Hk _ _ Hrw) in E. congruence.
  - destruct Hj as [->|[_ A]]; [|exact A].
    destruct Ha as [Hr _]. rewrite (test_occ _ Hr) in Et. exact Et.
Qed.

Lemma track_sound (rules : list Correction) :
  forall (i : nat) (t : jsstring) (abs : list nat),
    (forall k c, nth_error rules k = Some c ->
                 nth_error sqlCorrections (i + k) = Some c) ->
    (forall j, In j abs -> absent (nth j shapes dflt) t) ->
    forall j, In j (track (List.length rules) i abs) ->
              absent (nth j shapes dflt) (textAfter rules t).
Proof.
  induction rules as [|c rules IH]; intros i t abs Hrules Habs j; [apply Habs|].
  cbn [List.length track textAfter fold_left]. apply IH.
  - intros k c' Hk. replace (S i + k)%nat with (i + S k)%nat by lia.
    now apply Hrules.
  - intros j' [<-|Hj'].
    + apply (@stepText_absent i i); [|now left].
      specialize (Hrules 0%nat c eq_refl). now rewrite Nat.add_0_r in Hrules.
    + apply filter_In in Hj' as [Hin Hk].
      apply (@stepText_absent i j'); [|right; split; [exact Hk|now apply Habs]].
      specialize (Hrules 0%nat c eq_refl). now rewrite Nat.add_0_r in Hrules.
Qed.

Definition noCorrection : Correction := mkCorrection (re_gi Eps) [] [].

(** The corrections [INSET → INSERT] and [JION → JOIN], and the other
    eight with the latter. *)
Definition inset : Correction := nth 7 sqlCorrections noCorrection.
Definition jion : Correction := nth 9 sqlCorrections noCorrection.
Definition others : list Correction :=
  firstn 7 sqlCorrections ++ skipn 8 sqlCorrections.

Lemma absent_all (t : jsstring) (js : list nat) (rules : list Correction) :
  (forall j, In j js -> absent (nth j shapes dflt) t) ->
  Forall2 (fun j c => nth_error sqlCorrections j = Some c) js rules ->
  forallb (fun c => negb (test (c_pattern c) t)) rules = true.
Proof.
  intros H. induction 1 as [|j c js rules Hj F IH]; [reflexivity|].
  cbn [forallb]. rewrite (absent_test _ Hj) by (apply H; now left).
  apply IH. intros j' Hj'. apply H. now right.
Qed.

(** C6, as the code has it.  A second run of the correction leaves the
    once-corrected text as it is and reports nothing exactly when no
    misspelling occurs in it.  The first run leaves no misspelling but,
    at most, [INSET], and that only when its correction of [JION] has
    completed one (as in [JIONSET], corrected to [JOINSET]).  So the
    second run changes nothing unless the first has corrected a [JION];
    and if [INSET] does occur in the corrected text, the second run
    makes the one correction of [INSET] to [INSERT], after which a third
    run changes nothing. *)
Theorem fixSQLTypos_second_pass (sql : jsstring) :
  let fixed := fst (fixSQLTypos sql) in
  (fixSQLTypos fixed = (fixed, []) <-> noTypoLeft fixed = true) /\
  Forall (fun c => test (c_pattern c) fixed = false) others /\
  (test (c_pattern inset) fixed = false -> fixSQLTypos fixed = (fixed, [])) /\
  (~ In (message jion) (snd (fixSQLTypos sql)) -> fixSQLTypos fixed = (fixed, [])) /\
  (test (c_pattern inset) fixed = true ->
   In (message jion) (snd (fixSQLTypos sql)) /\
   fixSQLTypos fixed
   = (replaceAll (c_pattern inset) (js "INSERT") fixed, [message inset]) /\
   fixSQLTypos (fst (fixSQLTypos fixed)) = (fst (fixSQLTypos fixed), [])).
Proof.
  cbv zeta.
  assert (Old : fixSQLTypos (fst (fixSQLTypos sql)) = (fst (fixSQLTypos sql), [])
                <-> noTypoLeft (fst (fixSQLTypos sql)) = true).
  { unfold fixSQLTypos at 1, noTypoLeft. split.
    - intros H.
      destruct (forallb _ sqlCorrections) eqn:E; [reflexivity|].
      apply (fixWith_fires _ (fst (fixSQLTypos sql)) []) in E.
      rewrite H in E. simpl in E. lia.
    - apply fixWith_clean. }
  assert (Nth : forall k c, nth_error sqlCorrections k = Some c ->
                            nth_error sqlCorrections (0 + k) = Some c) by auto.
  (* after the first run *)
  assert (A : forall j, In j [0; 1; 2; 3; 4; 5; 6; 8; 9]%nat ->
                        absent (nth j shapes dflt) (fst (fixSQLTypos sql))).
  { intros j Hj. unfold fixSQLTypos. rewrite fixWith_text.
    apply (@track_sound sqlCorrections 0 sql [] Nth); [intros ? []|].
    vm_compute. vm_compute in Hj. tauto. }
  (* after the first nine corrections of the first run *)
  set (nine := firstn 9 sqlCorrections).
  assert (A9 : absent (nth 7 shapes dflt) (textAfter nine sql)).
  { apply (@track_sound nine 0 sql []); [|intros ? []|vm_compute; tauto].
    intros k c Hk. cbn [Nat.add]. unfold nine in Hk.
    rewrite nth_error_firstn in Hk. destruct (k <? 9)%nat; [exact Hk|discriminate]. }
  set (fixed := fst (fixSQLTypos sql)) in *.
  assert (Clean : test (c_pattern inset) fixed = false ->
                  fixSQLTypos fixed = (fixed, [])).
  { intros Hi. apply Old. unfold noTypoLeft.
    apply absent_all with (js := [0; 1; 2; 3; 4; 5; 6; 7; 8; 9]%nat).
    - intros j Hj.
      destruct (Nat.eq_dec j 7) as [->|Hne].
      + assert (Hr : reads (c_pattern inset) (sh_slots (nth 7 shapes dflt))
                       (sh_ahead (nth 7 shapes dflt)))
          by (apply (@nth_agrees 7 inset); reflexivity).
        unfold absent. now rewrite <- (test_occ _ Hr).
      + apply A. cbn in Hj. cbn. intuition congruence.
    - unfold sqlCorrections. repeat constructor. }
  assert (Jion : test (c_pattern inset) fixed = true ->
                 In (message jion) (snd (fixSQLTypos sql))).
  { intros Hi. unfold fixed in Hi. unfold fixSQLTypos in Hi |- *.
    change sqlCorrections with (nine ++ [jion]) in Hi |- *.
    rewrite fixWith_app in Hi |- *.
    pose proof (fixWith_text nine sql []) as T.
    destruct (fixWith nine (sql, [])) as [t9 cs9]. cbn [fst] in T. subst t9.
    cbn [fixWith] in Hi |- *.
    destruct (test (c_pattern jion) (textAfter nine sql)).
    - cbn [snd]. apply in_or_app. right. now left.
    - cbn [fst] in Hi.
      assert (Hr : reads (c_pattern inset) (sh_slots (nth 7 shapes dflt))
                     (sh_ahead (nth 7 shapes dflt)))
        by (apply (@nth_agrees 7 inset); reflexivity).
      rewrite (test_occ _ Hr) in Hi. unfold absent in A9. congruence. }
  split; [exact Old|]. split; [|split; [exact Clean|split; [|intros Hi; split]]].
  - assert (T : forall j R,
                option_map c_pattern (nth_error sqlCorrections j) = Some R ->
                In j [0; 1; 2; 3; 4; 5; 6; 8; 9]%nat -> test R fixed = false).
    { intros j R Hj Hin. destruct (nth_error sqlCorrections j) as [c|] eqn:E;
        [|discriminate]. injection Hj as <-. eapply absent_test; [exact E|].
      now apply A. }
    unfold others, sqlCorrections. cbn [firstn skipn app].
    apply Forall_cons; [apply (T 0%nat); [reflexivity|cbn; tauto]|].
    apply Forall_cons; [apply (T 1%nat); [reflexivity|cbn; tauto]|].
    apply Forall_cons; [apply (T 2%nat); [reflexivity|cbn; tauto]|].
    apply Forall_cons; [apply (T 3%nat); [reflexivity|cbn; tauto]|].
    apply Forall_cons; [apply (T 4%nat); [reflexivity|cbn; tauto]|].
    apply Forall_cons; [apply (T 5%nat); [reflexivity|cbn; tauto]|].
    apply Forall_cons; [apply (T 6%nat); [reflexivity|cbn; tauto]|].
    apply Forall_cons; [apply (T 8%nat); [reflexivity|cbn; tauto]|].
    apply Forall_cons; [apply (T 9%nat); [reflexivity|cbn; tauto]|].
    apply Forall_nil.
  - intros Hno. apply Clean.
    destruct (test (c_pattern inset) fixed) eqn:E; [|reflexivity].
    exfalso. apply Hno. now apply Jion.
  - now apply Jion.
  -     assert (A2 : forall j, In j [0; 1; 2; 3; 4; 5; 6; 7; 8; 9]%nat ->
                absent (nth j shapes dflt)
                  (replaceAll (c_pattern inset) (js "INSERT") fixed)).
    { intros j Hj.
      assert (E : stepText inset fixed
                  = replaceAll (c_pattern inset) (js "INSERT") fixed)
        by (unfold stepText; rewrite Hi; reflexivity).
      rewrite <- E. apply (@stepText_absent 7 j); [reflexivity|].
      destruct (Nat.eq_dec j 7) as [->|Hne]; [now left|right]. split.
      - cbn in Hj.
        repeat (destruct Hj as [<-|Hj]; [first [congruence|vm_compute; reflexivity]|]).
        destruct Hj.
      - apply A. cbn in Hj. cbn. intuition congruence. }
    assert (Second : fixSQLTypos fixed
                     = (replaceAll (c_pattern inset) (js "INSERT") fixed,
                        [message inset])).
    { unfold fixSQLTypos.
      change sqlCorrections
        with (firstn 7 sqlCorrections ++ [inset] ++ skipn 8 sqlCorrections).
      rewrite !fixWith_app.
      rewrite (fixWith_clean (firstn 7 sqlCorrections) fixed []).
      - change (fixWith [inset] (fixed, []))
          with (if test (c_pattern inset) fixed
                then (replaceAll (c_pattern inset) (js "INSERT") fixed,
                      [] ++ [message inset])
                else (fixed, [])).
        rewrite Hi. cbn [app]. apply fixWith_clean.
        apply absent_all with (js := [8; 9]%nat).
        + intros j Hj. apply A2. cbn in Hj. cbn. tauto.
        + unfold sqlCorrections. repeat constructor.
      - apply absent_all with (js := [0; 1; 2; 3; 4; 5; 6]%nat).
        + intros j Hj. apply A. cbn in Hj. cbn. tauto.
        + unfold sqlCorrections. repeat constructor. }
    split; [exact Second|]. rewrite Second. cbn [fst].
    unfold fixSQLTypos. apply fixWith_clean.
    apply absent_all with (js := [0; 1; 2; 3; 4; 5; 6; 7; 8; 9]%nat);
      [exact A2|].
    unfold sqlCorrections. repeat constructor.
Qed.

Lemma fixSQLTypos_second_pass_witness :
  fixSQLTypos (fst (fixSQLTypos (js "SLECT * FORM students WHER age > 20")))
  = (js "SELECT * FROM students WHERE age > 20", []).
Proof.
  assert (E : fst (fixSQLTypos (js "SLECT * FORM students WHER age > 20"))
              = js "SELECT * FROM students WHERE age > 20")
    by (vm_compute; reflexivity).
  rewrite <- E.
  apply (proj1 (proj2 (proj2
           (fixSQLTypos_second_pass (js "SLECT * FORM students WHER age > 20"))))).
  vm_compute; reflexivity.
Defined.

(** ** The theorems at work on the stand-in engine *)

Module Examples.

Import Sample.

Definition selectAll : jsstring := js "SELECT * FROM students;".

(** The state in which [DROP TABLE students;] is held. *)
Definition held : State DB := typeLine dropStudents start.

(** Events after the statement is held: a query, a recall, [help], the
    same statement once more, a toggle. *)
Definition browsing : list Event :=
  [ Change selectAll; Enter; ArrowUp; Change (js "help"); Enter;
    Change dropStudents; Enter; ToggleLearning ].

Lemma browsing_unconfirmed : unconfirmed executeSQL resetDB easy browsing held.
Proof.
  unfold browsing. cbn [unconfirmed].
  repeat match goal with
         | |- _ /\ _ => split
         | |- _ <> _ => discriminate
         | |- True => exact I
         | |- forall x, _ -> _ =>
             let x := fresh "x" in
             let Hx := fresh "Hx" in
             intros x Hx; vm_compute in Hx;
             first [ discriminate Hx
                   | injection Hx as <-; split; vm_compute; reflexivity ]
         end.
Qed.

Lemma confirmation_gating_witness :
  calls held = [] /\ db held = true /\
  pendingDangerousCommand held = Some dropStudents /\
  ~ In dropStudents (calls (run browsing held)) /\
  calls (typeLine (js "no") held) = [] /\
  db (typeLine (js "no") held) = true /\
  r_rows (fst (executeSQL selectAll (db (typeLine (js "no") held))))
  = rows students /\
  calls (typeLine (js "yes") held) = [dropStudents] /\
  db (typeLine (js "yes") held) = false.
Proof.
  destruct (confirmation_gating executeSQL resetDB easy start eq_refl eq_refl)
    as ((H1 & H2 & H3) & Hrun & Hno & Hyes).
  destruct (Hno (js "no") eq_refl) as (N1 & N2 & _ & N4).
  destruct (Hyes (js "yes") eq_refl) as (Y1 & Y2 & _).
  destruct (Hrun browsing browsing_unconfirmed) as (l & Hl & Hnot).
  split; [exact H1|]. split; [exact H2|]. split; [exact H3|].
  split; [unfold run, held, typeLine; rewrite Hl; exact Hnot|].
  split; [exact N1|]. split; [exact N2|].
  split; [|split; [exact Y1|exact Y2]].
  change (r_rows (fst (executeSQL selectAll
            (db (Sample.typeLine (js "no") held)))) = rows students).
  unfold held, Sample.typeLine. rewrite (N4 selectAll). reflexivity.
Defined.




Lemma ai_off_executes_high_severity_witness :
  let s := setAiEnabled false start in
  let s' := fst (executeCommand executeSQL resetDB easy dropStudents s) in
  calls s' = [dropStudents] /\ db s' = false /\
  pendingDangerousCommand s' = None /\
  map type (history s') = [Info].
Proof.
  cbv zeta.
  destruct (@ai_off_executes_high_severity DB executeSQL resetDB easy dropStudents
              (nth 0 dangerousCommands (mkDangerous (re_i Eps) [] medium))
              (setAiEnabled false start) eq_refl eq_refl eq_refl)
    as (H1 & H2 & H3 & _).
  split; [exact H1|]. split; [exact H2|]. split; [exact H3|].
  vm_compute; reflexivity.
Defined.

Definition selectNone : jsstring := js "SELECT * FROM students WHERE 1 = 0;".

Lemma runSQL_columns_without_rows_witness :
  map type (history (runSQL executeSQL easy selectNone start)) = [Ai; Info; Ai] /\
  exists pre post n,
    history (runSQL executeSQL easy selectNone start)
    = history start ++ pre
      ++ [mkEntry n Info (js "Query OK, 0 row(s) affected (1ms)") None] ++ post.
Proof.
  split; [vm_compute; reflexivity|].
  destruct (@runSQL_columns_without_rows DB executeSQL easy selectNone start
              (mkResult (columns students) [] None None 1) true eq_refl eq_refl)
    as (pre & post & n & H & _).
  - discriminate.
  - reflexivity.
  - exists pre, post, n. exact H.
Defined.

Definition statementA : jsstring := js "SELECT name FROM students;".
Definition statementB : jsstring := js "SELECT id FROM students;".

(** The state after executing A, then B. *)
Definition afterAB : State DB := typeLine statementB (typeLine statementA start).

Lemma arrow_up_twice_stays_witness :
  commandHistory afterAB = [statementB; statementA] /\
  currentLine (step afterAB ArrowUp) = statementB /\
  currentLine (step (step afterAB ArrowUp) ArrowUp) = statementB /\
  currentLine (step (step (step afterAB ArrowUp) ArrowUp) ArrowDown) = [].
Proof.
  assert (Hne : statementB <> []) by (vm_compute; discriminate).
  destruct (@arrow_up_twice_stays DB executeSQL resetDB easy statementA statementB []
              afterAB eq_refl eq_refl eq_refl eq_refl Hne)
    as (H1 & _ & _ & H4 & H5 & _).
  split; [vm_compute; reflexivity|].
  split; [exact H1|]. split; [exact H4|exact H5].
Defined.

(** Six dispatches, one of them repeated: the recall list holds each
    statement once, the latest first. *)
Lemma recall_history_invariant_witness :
  commandHistory
    (fold_left (fun s x => fst (executeCommand executeSQL resetDB easy x s))
       [statementA; statementB; js "help"; statementA; dropStudents; js "no"] start)
  = [js "no"; dropStudents; statementA; js "help"; statementB].
Proof.
  rewrite (proj2 (proj2 (recall_history_invariant executeSQL resetDB easy))
             _ start eq_refl).
  vm_compute; reflexivity.
Defined.

(** The console after the banner, a query and [help]. *)
Definition session : State DB :=
  typeLine (js "help") (typeLine selectAll (welcome start)).

Lemma session_reachable : reachable executeSQL resetDB easy true session.
Proof.
  unfold session, typeLine.
  repeat apply reachable_typeLine. apply reachable_welcome, reachable_init.
Qed.

Lemma held_reachable : reachable executeSQL resetDB easy true held.
Proof.
  unfold held, typeLine. apply reachable_typeLine, reachable_init.
Qed.

Lemma afterAB_reachable : reachable executeSQL resetDB easy true afterAB.
Proof.
  unfold afterAB, typeLine. repeat apply reachable_typeLine. apply reachable_init.
Qed.

Lemma transcript_ids_increase_witness :
  NoDup (map id (history session)) /\
  (forall i j e1 e2, (i < j)%nat ->
     nth_error (history session) i = Some e1 ->
     nth_error (history session) j = Some e2 -> (id e1 < id e2)%nat) /\
  Forall (fun e => (id e < idCounter session)%nat) (history session).
Proof. exact (transcript_ids_increase session_reachable). Defined.

Lemma held_statement_is_high_witness :
  isHigh dropStudents = true /\ dropStudents <> [] /\
  calls (fst (executeCommand executeSQL resetDB easy (js " Y ") held))
  = calls held ++ [dropStudents] /\
  pendingDangerousCommand
    (fst (executeCommand executeSQL resetDB easy (js " Y ") held)) = None.
Proof.
  destruct (held_statement_is_high held_reachable (c := dropStudents) eq_refl)
    as (H1 & H2 & H3).
  destruct (H3 (js " Y ") eq_refl) as (C & _ & P).
  exact (conj H1 (conj H2 (conj C P))).
Defined.

Lemma recall_index_in_range_witness :
  ((-1 <= historyIndex afterAB
    < Z.of_nat (List.length (commandHistory afterAB)))%Z) /\
  (let s' := step afterAB ArrowUp in
   s' = afterAB \/
   (historyIndex s' = (-1)%Z /\ currentLine s' = []) \/
   ((0 <= historyIndex s')%Z /\
    nth_error (commandHistory s') (Z.to_nat (historyIndex s'))
    = Some (currentLine s'))).
Proof.
  destruct (recall_index_in_range afterAB_reachable) as [H1 H2].
  exact (conj H1 (H2 ArrowUp (or_introl eq_refl))).
Defined.

Definition threeLines : list jsstring := [js "SELECT *"; js "FROM students"].
Definition lastLine : jsstring := js "WHERE 1 = 0;".

Lemma threeLines_incomplete (k : nat) :
  (k < List.length threeLines)%nat ->
  isCommandComplete (join nl (firstn (S k) threeLines)) = false.
Proof.
  destruct k as [|[|k]]; intros H;
    [vm_compute; reflexivity|vm_compute; reflexivity|].
  exfalso. cbn in H. lia.
Qed.

Lemma lines_accumulate_until_complete_witness :
  let s1 := fold_left (fun s l => typeLine l s)
              threeLines start in
  buffer s1 = threeLines /\ calls s1 = calls start /\
  typeLine lastLine s1
  = submit executeSQL resetDB easy
      (trim (join nl (threeLines ++ [lastLine]))) (setCurrentLine lastLine s1).
Proof.
  destruct (@lines_accumulate_until_complete DB executeSQL resetDB easy
              threeLines lastLine start eq_refl threeLines_incomplete eq_refl)
    as ((B & _ & C & _) & _ & T & _).
  exact (conj B (conj C T)).
Defined.

Definition updateAll : jsstring := js "UPDATE students SET name = 'x';".

Lemma medium_severity_warns_and_executes_witness :
  let s' := processSQL executeSQL easy updateAll start in
  calls s' = calls start ++ [prepared updateAll] /\
  db s' = snd (executeSQL (prepared updateAll) (db start)) /\
  pendingDangerousCommand s' = pendingDangerousCommand start.
Proof.
  destruct (@medium_severity_warns_and_executes DB executeSQL resetDB easy
              updateAll start
              (nth 4 dangerousCommands (mkDangerous (re_i Eps) [] high))
              eq_refl eq_refl eq_refl)
    as (C & D & P & _).
  exact (conj C (conj D P)).
Defined.

Definition misspelt : jsstring := js "  SLECT * FORM students  ".

Lemma ai_off_sends_line_verbatim_witness :
  let s := setAiEnabled false start in
  let s' := fst (executeCommand executeSQL resetDB easy misspelt s) in
  calls s' = calls s ++ [trim misspelt] /\
  db s' = snd (executeSQL (trim misspelt) (db s)).
Proof.
  destruct (@ai_off_sends_line_verbatim DB executeSQL resetDB easy misspelt
              (setAiEnabled false start) eq_refl eq_refl (or_introl eq_refl))
    as (C & D & _).
  exact (conj C D).
Defined.

Lemma students_rectangular (row : list Cell) :
  In row (rows students) -> List.length row = List.length (columns students).
Proof. intros [<-|[<-|[]]]; reflexivity. Qed.

Lemma table_lines_align_witness :
  let r := renderTable students in
  let width := List.length (top r) in
  List.length (head r) = width /\ List.length (rule r) = width /\
  List.length (bottom r) = width /\
  (forall line, In line (body r) -> List.length line = width).
Proof.
  destruct (table_lines_align students students_rectangular)
    as (H1 & H2 & H3 & H4 & _).
  exact (conj H1 (conj H2 (conj H3 H4))).
Defined.

Definition showRequest : jsstring := js "Xem bảng students giúp tôi".

Lemma listing_rules_yield_one_identifier_witness :
  exists W, W <> [] /\ forallb isWord W = true /\
    [Some (js "students")] = [Some W] /\
    (convertVietnameseToSQL showRequest
     = Some (js "SELECT * FROM " ++ W ++ js ";") \/
     convertVietnameseToSQL showRequest
     = Some (js "SELECT COUNT(*) FROM " ++ W ++ js ";")).
Proof.
  refine (@listing_rules_yield_one_identifier showRequest
            (nth 2 vietnameseToSQL (mkMapping (re_i Eps) []))
            [Some (js "students")] _ _).
  - vm_compute; reflexivity.
  - vm_compute. right; right; left; reflexivity.
Defined.

End Examples.
